(** * rgltf: loading and drawing glTF 2.0 models on top of raylib

    A shallow embedding of [rgltf.c] (LoadGLTFModelFile, LoadGLTFModel and the
    DrawGLTF* family) together with the properties of the written
    specification that can be checked against it. *)

From Stdlib Require Import ZArith Lia List Bool String Ascii.
From Stdlib Require Import SpecFloat.
From stdpp Require Import base option list list_numbers relations.

Local Open Scope Z_scope.

(** ** C arithmetic *)

Module CInt.

(** [int] and [unsigned int] are 32 bits wide; [size_t] values converted to
    them wrap around. *)
Definition INT_MAX : Z := 2147483647.
Definition UINT_MAX : Z := 4294967295.

Definition to_uint (z : Z) : Z := z mod 4294967296.

Definition to_int (z : Z) : Z :=
  let u := to_uint z in if u <? 2147483648 then u else u - 4294967296.

Definition to_ushort (z : Z) : Z := z mod 65536.

(** C integer division truncates toward zero. *)
Definition cdiv (a b : Z) : Z := Z.quot a b.

End CInt.

Module CFloat.

(** IEEE-754 numbers are [spec_float] values; [float] is binary32 and
    [double] is binary64, both rounding to nearest even. *)
Definition float := spec_float.
Definition double := spec_float.

Definition f32_of_Z (z : Z) : float := binary_normalize 24 128 z 0 false.
Definition f64_of_Z (z : Z) : double := binary_normalize 53 1024 z 0 false.

(** The usual arithmetic conversion of a [float] operand to [double]. *)
Definition double_of_float (x : float) : double :=
  match x with
  | S754_finite s m e => binary_normalize 53 1024 (cond_Zopp s (Zpos m)) e s
  | _ => x
  end.

Definition fmul (x y : float) : float := SFmul 24 128 x y.
Definition fdiv (x y : float) : float := SFdiv 24 128 x y.
Definition dmul (x y : double) : double := SFmul 53 1024 x y.
Definition ddiv (x y : double) : double := SFdiv 53 1024 x y.

(** Conversion of a floating value to an integer type discards the
    fractional part. *)
Definition trunc (x : spec_float) : option Z :=
  match x with
  | S754_zero _ => Some 0
  | S754_finite s m e =>
      Some (cond_Zopp s (if 0 <=? e then Z.shiftl (Zpos m) e else Z.shiftr (Zpos m) (- e)))
  | _ => None
  end.

(** [(unsigned char) x]: the behaviour is undefined when the truncated value
    does not fit, which is [None] here. *)
Definition uchar_of (x : spec_float) : option Z :=
  match trunc x with
  | Some z => if (0 <=? z) && (z <=? 255) then Some z else None
  | None => None
  end.

Definition f32_zero : float := S754_zero false.
Definition f32_one : float := f32_of_Z 1.

End CFloat.

Import CInt CFloat.

(** Decoding of the binary32 bit pattern stored in a glTF buffer. *)
Definition float_of_bits (b : Z) : float :=
  let s := Z.testbit b 31 in
  let ex := Z.land (Z.shiftr b 23) 255 in
  let mant := Z.land b 8388607 in
  if ex =? 0 then
    match mant with Zpos m => S754_finite s m (-149) | _ => S754_zero s end
  else if ex =? 255 then
    (if mant =? 0 then S754_infinity s else S754_nan)
  else
    match mant + 8388608 with Zpos m => S754_finite s m (ex - 150) | _ => S754_nan end.

(** ** Programs: state, and [None] for undefined behaviour *)

Module Prog.

Definition M (S A : Type) : Type := S -> option (A * S).

Definition ret {S A} (a : A) : M S A := fun s => Some (a, s).

Definition bind {S A B} (m : M S A) (k : A -> M S B) : M S B :=
  fun s => match m s with Some (a, s') => k a s' | None => None end.

Definition undefined {S A} : M S A := fun _ => None.

Definition get {S} : M S S := fun s => Some (s, s).

Definition put {S} (s : S) : M S unit := fun _ => Some (tt, s).

Definition modify {S} (f : S -> S) : M S unit := fun s => Some (tt, f s).

(** A value whose computation may be undefined (a read through a null or
    out-of-bounds pointer, an unrepresentable conversion). *)
Definition defined {S A} (o : option A) : M S A :=
  match o with Some a => ret a | None => undefined end.

Fixpoint for_each {S A} (l : list A) (body : A -> M S unit) : M S unit :=
  match l with
  | [] => ret tt
  | x :: l' => bind (body x) (fun _ => for_each l' body)
  end.

Fixpoint map_each {S A B} (l : list A) (body : A -> M S B) : M S (list B) :=
  match l with
  | [] => ret []
  | x :: l' => bind (body x) (fun y => bind (map_each l' body) (fun ys => ret (y :: ys)))
  end.

Fixpoint fold_each {S A B} (l : list A) (body : A -> B -> M S B) (acc : B) : M S B :=
  match l with
  | [] => ret acc
  | x :: l' => bind (body x acc) (fun acc' => fold_each l' body acc')
  end.

End Prog.

Declare Scope prog_scope.
Delimit Scope prog_scope with prog.
Notation "x <- m ;; k" := (Prog.bind m (fun x => k))
  (at level 100, m at next level, right associativity) : prog_scope.
Notation "m ;;; k" := (Prog.bind m (fun _ => k))
  (at level 100, right associativity) : prog_scope.

(** Array indexing with a C integer: [None] outside the allocation. *)
Definition at_index {A} (l : list A) (i : Z) : option A :=
  if decide (0 <= i) then l !! Z.to_nat i else None.

Definition store_at {A} (l : list A) (i : Z) (f : A -> A) : option (list A) :=
  match at_index l i with
  | Some x => Some (<[Z.to_nat i := f x]> l)
  | None => None
  end.

(** [RL_CALLOC(n, sizeof(T))]: [n] zero-initialised elements. *)
Definition RL_CALLOC {A} (n : Z) (zero : A) : list A := replicate (Z.to_nat n) zero.

(** ** raylib data (raylib.h) *)

Record Color := mkColor { r : Z; g : Z; b : Z; a : Z }.

Definition WHITE : Color := mkColor 255 255 255 255.

Record Vector3 := mkVector3 { v3x : float; v3y : float; v3z : float }.

Record Quaternion := mkQuaternion { qx : float; qy : float; qz : float; qw : float }.

Record Transform := mkTransform {
  translation : Vector3;
  rotation : Quaternion;
  scale : Vector3 }.

(** Sixteen floats, as raylib lays them out. *)
Record Matrix := mkMatrix {
  m0 : float; m4 : float; m8 : float; m12 : float;
  m1 : float; m5 : float; m9 : float; m13 : float;
  m2 : float; m6 : float; m10 : float; m14 : float;
  m3 : float; m7 : float; m11 : float; m15 : float }.

Record Image := mkImage {
  image_data : option (list Byte.byte);
  image_width : Z;
  image_height : Z;
  image_mipmaps : Z;
  image_format : Z }.

Record Texture := mkTexture {
  texture_id : Z;
  texture_width : Z;
  texture_height : Z;
  texture_mipmaps : Z;
  texture_format : Z }.

Record MaterialMap := mkMaterialMap {
  texture : Texture;
  color : Color;
  value : float }.

Record Shader := mkShader { shader_id : Z; shader_locs : list Z }.

(** [maps] is a pointer to an array of material maps. *)
Record Material := mkMaterial {
  shader : Shader;
  maps : list MaterialMap;
  params : list float }.

Definition MATERIAL_MAP_ALBEDO : Z := 0.
Definition MATERIAL_MAP_METALNESS : Z := 1.
Definition MATERIAL_MAP_NORMAL : Z := 2.
Definition MATERIAL_MAP_ROUGHNESS : Z := 3.
Definition MATERIAL_MAP_OCCLUSION : Z := 4.
Definition MATERIAL_MAP_EMISSION : Z := 5.
Definition MATERIAL_MAP_DIFFUSE : Z := MATERIAL_MAP_ALBEDO.

(** The mesh fields the importer touches; a null pointer is [None]. *)
Record Mesh := mkMesh {
  vertexCount : Z;
  triangleCount : Z;
  vertices : option (list float);
  texcoords : option (list float);
  normals : option (list float);
  tangents : option (list float);
  colors : option (list Z);
  indices : option (list Z);
  vaoId : Z;
  vboId : option (list Z) }.

Definition zero_Image : Image := mkImage None 0 0 0 0.
Definition zero_Texture : Texture := mkTexture 0 0 0 0 0.
Definition zero_Color : Color := mkColor 0 0 0 0.
Definition zero_Vector3 : Vector3 := mkVector3 f32_zero f32_zero f32_zero.
Definition zero_Quaternion : Quaternion := mkQuaternion f32_zero f32_zero f32_zero f32_zero.
Definition zero_Transform : Transform := mkTransform zero_Vector3 zero_Quaternion zero_Vector3.
Definition zero_Matrix : Matrix :=
  mkMatrix f32_zero f32_zero f32_zero f32_zero f32_zero f32_zero f32_zero f32_zero
           f32_zero f32_zero f32_zero f32_zero f32_zero f32_zero f32_zero f32_zero.
Definition zero_Material : Material := mkMaterial (mkShader 0 []) [] [].
Definition zero_Mesh : Mesh := mkMesh 0 0 None None None None None None 0 None.

Inductive TraceLogLevel := LOG_DEBUG | LOG_INFO | LOG_WARNING.

(** One [TraceLog] call: its level and its format string. *)
Definition LogEntry : Type := TraceLogLevel * string.

(** ** cgltf data (cgltf.h), as the importer reads it *)

Inductive cgltf_file_type := cgltf_file_type_invalid | cgltf_file_type_gltf | cgltf_file_type_glb.

Inductive cgltf_component_type :=
| cgltf_component_type_invalid | cgltf_component_type_r_8 | cgltf_component_type_r_8u
| cgltf_component_type_r_16 | cgltf_component_type_r_16u | cgltf_component_type_r_32u
| cgltf_component_type_r_32f.

Inductive cgltf_type :=
| cgltf_type_invalid | cgltf_type_scalar | cgltf_type_vec2 | cgltf_type_vec3 | cgltf_type_vec4
| cgltf_type_mat2 | cgltf_type_mat3 | cgltf_type_mat4.

Inductive cgltf_primitive_type :=
| cgltf_primitive_type_points | cgltf_primitive_type_lines | cgltf_primitive_type_line_loop
| cgltf_primitive_type_line_strip | cgltf_primitive_type_triangles
| cgltf_primitive_type_triangle_strip | cgltf_primitive_type_triangle_fan.

Inductive cgltf_attribute_type :=
| cgltf_attribute_type_invalid | cgltf_attribute_type_position | cgltf_attribute_type_normal
| cgltf_attribute_type_tangent | cgltf_attribute_type_texcoord | cgltf_attribute_type_color
| cgltf_attribute_type_joints | cgltf_attribute_type_weights.

#[global] Instance cgltf_component_type_eq_dec : EqDecision cgltf_component_type.
Proof. solve_decision. Defined.
#[global] Instance cgltf_type_eq_dec : EqDecision cgltf_type.
Proof. solve_decision. Defined.
#[global] Instance cgltf_primitive_type_eq_dec : EqDecision cgltf_primitive_type.
Proof. solve_decision. Defined.
#[global] Instance cgltf_attribute_type_eq_dec : EqDecision cgltf_attribute_type.
Proof. solve_decision. Defined.

Record cgltf_buffer := mk_cgltf_buffer {
  buffer_data : option (list Byte.byte) }.

Record cgltf_buffer_view := mk_cgltf_buffer_view {
  bv_buffer : cgltf_buffer;
  bv_offset : Z;
  bv_size : Z;
  bv_stride : Z }.

Record cgltf_accessor := mk_cgltf_accessor {
  acc_component_type : cgltf_component_type;
  acc_type : cgltf_type;
  acc_offset : Z;
  acc_count : Z;
  acc_stride : Z;
  acc_buffer_view : option cgltf_buffer_view }.

Record cgltf_attribute := mk_cgltf_attribute {
  attr_type : cgltf_attribute_type;
  attr_data : cgltf_accessor }.

(** [prim_material] points into [data->materials] (an index here), or is
    null; an index outside the array stands for a pointer that matches no
    element. *)
Record cgltf_primitive := mk_cgltf_primitive {
  prim_type : cgltf_primitive_type;
  prim_indices : option cgltf_accessor;
  prim_material : option Z;
  prim_attributes : list cgltf_attribute }.

Record cgltf_mesh := mk_cgltf_mesh {
  primitives : list cgltf_primitive }.

Record cgltf_image := mk_cgltf_image {
  uri : option string;
  img_buffer_view : option cgltf_buffer_view;
  mime_type : option string }.

(** [texture] of a texture view: null, or a texture and its image. *)
Record cgltf_texture_view := mk_cgltf_texture_view {
  tv_texture : option cgltf_image }.

Record cgltf_pbr_metallic_roughness := mk_cgltf_pbr {
  base_color_texture : cgltf_texture_view;
  metallic_roughness_texture : cgltf_texture_view;
  base_color_factor : float * float * float * float;
  metallic_factor : float;
  roughness_factor : float }.

Record cgltf_material := mk_cgltf_material {
  has_pbr_metallic_roughness : bool;
  pbr_metallic_roughness : cgltf_pbr_metallic_roughness;
  normal_texture : cgltf_texture_view;
  occlusion_texture : cgltf_texture_view;
  emissive_texture : cgltf_texture_view;
  emissive_factor : float * float * float }.

(** [node_children] and [node_mesh] point into [data->nodes] and
    [data->meshes]: the pointer differences the importer takes are the
    indices stored here. *)
Record cgltf_node := mk_cgltf_node {
  node_children : list Z;
  node_mesh : option Z;
  has_translation : bool;
  has_rotation : bool;
  has_scale : bool;
  node_translation : float * float * float;
  node_rotation : float * float * float * float;
  node_scale : float * float * float }.

Record cgltf_scene := mk_cgltf_scene {
  scene_nodes : list Z }.

(** The parsed file after [cgltf_load_buffers]; [load_buffers_ok] is the
    result of that call and [scene_] the pointer difference
    [data->scene - data->scenes]. *)
Record cgltf_data := mk_cgltf_data {
  file_type : cgltf_file_type;
  meshes_ : list cgltf_mesh;
  materials_ : list cgltf_material;
  nodes_ : list cgltf_node;
  scenes_ : list cgltf_scene;
  scene_ : Z;
  load_buffers_ok : bool }.

(** What [LoadFileData] and [cgltf_parse] make of a file name. *)
Inductive file_contents :=
| FileUnreadable
| ParseFailure
| Parsed (data : cgltf_data).

(** ** rgltf data (rgltf.h) *)

Record GLTFNode := mkGLTFNode {
  childrenCount : Z;
  children : list Z;
  meshStart : Z;
  meshEnd : Z;
  transform : Transform;
  transformMatrix : Matrix }.

Record GLTFScene := mkGLTFScene {
  scene_nodeCount : Z;
  scene_nodes_ids : list Z }.

(** Pointer members are the arrays they point to; [None] is a null
    pointer. *)
Record GLTFModel := mkGLTFModel {
  model_transform : Matrix;
  meshCount : Z;
  materialCount : Z;
  meshes : option (list Mesh);
  materials : option (list Material);
  meshMaterial : option (list Z);
  nodeCount : Z;
  nodes : option (list GLTFNode);
  sceneCount : Z;
  scenes : option (list GLTFScene);
  scene : Z }.

Definition zero_GLTFNode : GLTFNode := mkGLTFNode 0 [] 0 0 zero_Transform zero_Matrix.
Definition zero_GLTFScene : GLTFScene := mkGLTFScene 0 [].
Definition zero_GLTFModel : GLTFModel :=
  mkGLTFModel zero_Matrix 0 0 None None None 0 None 0 None 0.

(** ** External collaborators

    raylib (raymath, rmodels, rtextures, utils), cgltf and [config.h] are not
    part of rgltf; the importer and the renderer are written against this
    interface.  [UploadMesh] stands for the call with [dynamic = false]. *)
Class Raylib := {
  MatrixIdentity : Matrix;
  MatrixMultiply : Matrix -> Matrix -> Matrix;
  MatrixTranslate : float -> float -> float -> Matrix;
  MatrixScale : float -> float -> float -> Matrix;
  MatrixRotate : Vector3 -> float -> Matrix;
  QuaternionToMatrix : Quaternion -> Matrix;
  DEG2RAD : float;
  LoadMaterialDefault : Material;
  LoadImage : string -> Image;
  LoadImageFromMemory : string -> list Byte.byte -> Z -> Image;
  LoadTextureFromImage : Image -> Texture;
  GenMeshCube : float -> float -> float -> Mesh;
  UploadMesh : Mesh -> Mesh;
  GetDirectoryPath : string -> string;
  TextFormat_path : string -> string -> string;
  cgltf_load_buffer_base64 : Z -> string -> option (list Byte.byte);
  SUPPORT_MESH_GENERATION : bool;
  MAX_MESH_VERTEX_BUFFERS : Z }.

Section Importer.

Context `{Raylib}.

Local Open Scope prog_scope.

Definition Log : Type := list LogEntry.

Definition TRACELOG (level : TraceLogLevel) (msg : string) : Prog.M Log unit :=
  Prog.modify (fun log => log ++ [(level, msg)]).

(** [TransformToMatrix]: scale, then rotation, then translation. *)
Definition TransformToMatrix (transform : Transform) : Matrix :=
  let matTranslation := MatrixTranslate (v3x (translation transform))
                                        (v3y (translation transform))
                                        (v3z (translation transform)) in
  let matRotation := QuaternionToMatrix (rotation transform) in
  let matScale := MatrixScale (v3x (scale transform)) (v3y (scale transform))
                              (v3z (scale transform)) in
  MatrixMultiply (MatrixMultiply matScale matRotation) matTranslation.

Definition is_data_uri (u : string) : bool :=
  (5 <? Z.of_nat (String.length u)) && String.prefix "data:" u.

(** [LoadImageFromCgltfImage]: a base64 data URI, a path relative to
    [texPath], or an embedded buffer view. *)
Definition LoadImageFromCgltfImage (cgltfImage : cgltf_image) (texPath : string)
  : Prog.M Log Image :=
  match uri cgltfImage with
  | Some u =>
      if is_data_uri u then
        match String.index 0 "," u with
        | None =>
            TRACELOG LOG_WARNING "IMAGE: glTF data URI is not a valid image" ;;;
            Prog.ret zero_Image
        | Some i =>
            let payload := String.substring (S i) (String.length u - S i) u in
            let base64Size := to_int (Z.of_nat (String.length payload)) in
            let outSize := 3 * cdiv base64Size 4 in
            match cgltf_load_buffer_base64 outSize payload with
            | Some data => Prog.ret (LoadImageFromMemory ".png" data outSize)
            | None => Prog.ret zero_Image
            end
        end
      else Prog.ret (LoadImage (TextFormat_path texPath u))
  | None =>
      view <- Prog.defined (img_buffer_view cgltfImage) ;;
      match buffer_data (bv_buffer view) with
      | Some bytes =>
          let offset := to_int (bv_offset view) in
          let stride := if to_int (bv_stride view) =? 0 then 1 else to_int (bv_stride view) in
          data <- Prog.defined
                    (mapM (fun i => at_index bytes (offset + i * stride))
                          (seqZ 0 (bv_size view))) ;;
          mime <- Prog.defined (mime_type cgltfImage) ;;
          if String.eqb mime "image\/png" || String.eqb mime "image/png"
          then Prog.ret (LoadImageFromMemory ".png" data (to_int (bv_size view)))
          else if String.eqb mime "image\/jpeg" || String.eqb mime "image/jpeg"
          then Prog.ret (LoadImageFromMemory ".jpg" data (to_int (bv_size view)))
          else
            TRACELOG LOG_WARNING "MODEL: glTF image data MIME type not recognized" ;;;
            Prog.ret zero_Image
      | None => Prog.ret zero_Image
      end
  end.

(** One element of [sz] bytes at element index [i] of the buffer seen as an
    array of that element type (little endian). *)
Definition read_element (sz : Z) (bytes : list Byte.byte) (i : Z) : option Z :=
  bs ← mapM (fun k => at_index bytes (i * sz + k)) (seqZ 0 sz);
  Some (little_endian_to_Z 8 ((fun x => Z.of_N (Byte.to_N x)) <$> bs)).

(** The macro [LOAD_ATTRIBUTE(accesor, numComp, dataType, dstPtr)] with
    [sz = sizeof(dataType)]: the destination, element by element.  The
    running offset [n] is an [int]; leaving its range is undefined. *)
Definition LOAD_ATTRIBUTE (accesor : cgltf_accessor) (numComp sz : Z) : option (list Z) :=
  view ← acc_buffer_view accesor;
  bytes ← buffer_data (bv_buffer view);
  let first := bv_offset view / sz + acc_offset accesor / sz in
  let step := to_int (acc_stride accesor / sz) in
  rows ← mapM (fun k =>
            let n := k * step in
            if decide (- INT_MAX - 1 <= n <= INT_MAX) then
              mapM (fun l => read_element sz bytes (first + n + l)) (seqZ 0 numComp)
            else None)
          (seqZ 0 (acc_count accesor));
  Some (concat rows).

Definition LOAD_ATTRIBUTE_float (accesor : cgltf_accessor) (numComp : Z) : option (list float) :=
  option_map (List.map float_of_bits) (LOAD_ATTRIBUTE accesor numComp 4).

Definition set_map (mat : Material) (k : Z) (f : MaterialMap -> MaterialMap) : option Material :=
  maps' ← store_at (maps mat) k f;
  Some (mkMaterial (shader mat) maps' (params mat)).

Definition set_texture (t : Texture) (mm : MaterialMap) : MaterialMap :=
  mkMaterialMap t (color mm) (value mm).
Definition set_color (c : Color) (mm : MaterialMap) : MaterialMap :=
  mkMaterialMap (texture mm) c (value mm).
Definition set_value (v : float) (mm : MaterialMap) : MaterialMap :=
  mkMaterialMap (texture mm) (color mm) v.

(** The repeated block "load the image of a texture view and, when it has
    data, upload it into map [k]". *)
Definition load_map_texture (mat : Material) (k : Z) (img : cgltf_image) (texPath : string)
  : Prog.M Log Material :=
  im <- LoadImageFromCgltfImage img texPath ;;
  match image_data im with
  | Some _ => Prog.defined (set_map mat k (set_texture (LoadTextureFromImage im)))
  | None => Prog.ret mat
  end.

(** [(unsigned char)(factor*255)] on a [float] factor. *)
Definition factor_to_uchar (factor : float) : option Z :=
  uchar_of (fmul factor (f32_of_Z 255)).

(** The body of the "Load materials data" loop: [model.materials[j]] for
    source material [src]. *)
Definition load_material (src : cgltf_material) (fileName : string) : Prog.M Log Material :=
  let mat := LoadMaterialDefault in
  let texPath := GetDirectoryPath fileName in
  if has_pbr_metallic_roughness src then
    let pbr := pbr_metallic_roughness src in
    mat <- match tv_texture (base_color_texture pbr) with
           | Some img => load_map_texture mat MATERIAL_MAP_ALBEDO img texPath
           | None => Prog.ret mat
           end ;;
    let '(f0, f1, f2, f3) := base_color_factor pbr in
    cr <- Prog.defined (factor_to_uchar f0) ;;
    mat <- Prog.defined (set_map mat MATERIAL_MAP_ALBEDO
             (fun mm => set_color (mkColor cr (g (color mm)) (b (color mm)) (a (color mm))) mm)) ;;
    cg <- Prog.defined (factor_to_uchar f1) ;;
    mat <- Prog.defined (set_map mat MATERIAL_MAP_ALBEDO
             (fun mm => set_color (mkColor (r (color mm)) cg (b (color mm)) (a (color mm))) mm)) ;;
    cb <- Prog.defined (factor_to_uchar f2) ;;
    mat <- Prog.defined (set_map mat MATERIAL_MAP_ALBEDO
             (fun mm => set_color (mkColor (r (color mm)) (g (color mm)) cb (a (color mm))) mm)) ;;
    ca <- Prog.defined (factor_to_uchar f3) ;;
    mat <- Prog.defined (set_map mat MATERIAL_MAP_ALBEDO
             (fun mm => set_color (mkColor (r (color mm)) (g (color mm)) (b (color mm)) ca) mm)) ;;
    mat <- match tv_texture (metallic_roughness_texture pbr) with
           | Some img =>
               mat <- load_map_texture mat MATERIAL_MAP_ROUGHNESS img texPath ;;
               let roughness := roughness_factor pbr in
               mat <- Prog.defined (set_map mat MATERIAL_MAP_ROUGHNESS (set_value roughness)) ;;
               let metallic := metallic_factor pbr in
               Prog.defined (set_map mat MATERIAL_MAP_METALNESS (set_value metallic))
           | None => Prog.ret mat
           end ;;
    mat <- match tv_texture (normal_texture src) with
           | Some img => load_map_texture mat MATERIAL_MAP_NORMAL img texPath
           | None => Prog.ret mat
           end ;;
    mat <- match tv_texture (occlusion_texture src) with
           | Some img => load_map_texture mat MATERIAL_MAP_OCCLUSION img texPath
           | None => Prog.ret mat
           end ;;
    match tv_texture (emissive_texture src) with
    | Some img =>
        mat <- load_map_texture mat MATERIAL_MAP_EMISSION img texPath ;;
        let '(e0, e1, e2) := emissive_factor src in
        er <- Prog.defined (factor_to_uchar e0) ;;
        mat <- Prog.defined (set_map mat MATERIAL_MAP_EMISSION
                 (fun mm => set_color (mkColor er (g (color mm)) (b (color mm)) (a (color mm))) mm)) ;;
        eg <- Prog.defined (factor_to_uchar e1) ;;
        mat <- Prog.defined (set_map mat MATERIAL_MAP_EMISSION
                 (fun mm => set_color (mkColor (r (color mm)) eg (b (color mm)) (a (color mm))) mm)) ;;
        eb <- Prog.defined (factor_to_uchar e2) ;;
        mat <- Prog.defined (set_map mat MATERIAL_MAP_EMISSION
                 (fun mm => set_color (mkColor (r (color mm)) (g (color mm)) eb (a (color mm))) mm)) ;;
        Prog.defined (set_map mat MATERIAL_MAP_EMISSION
                 (fun mm => set_color (mkColor (r (color mm)) (g (color mm)) (b (color mm)) 255) mm))
    | None => Prog.ret mat
    end
  else Prog.ret mat.

Definition has_format (accesor : cgltf_accessor) (ct : cgltf_component_type) (ty : cgltf_type)
  : bool :=
  bool_decide (acc_component_type accesor = ct) && bool_decide (acc_type accesor = ty).

Definition set_vertices (n : Z) (v : list float) (m : Mesh) : Mesh :=
  mkMesh n (triangleCount m) (Some v) (texcoords m) (normals m) (tangents m)
         (colors m) (indices m) (vaoId m) (vboId m).
Definition set_normals (v : list float) (m : Mesh) : Mesh :=
  mkMesh (vertexCount m) (triangleCount m) (vertices m) (texcoords m) (Some v) (tangents m)
         (colors m) (indices m) (vaoId m) (vboId m).
Definition set_tangents (v : list float) (m : Mesh) : Mesh :=
  mkMesh (vertexCount m) (triangleCount m) (vertices m) (texcoords m) (normals m) (Some v)
         (colors m) (indices m) (vaoId m) (vboId m).
Definition set_texcoords (v : list float) (m : Mesh) : Mesh :=
  mkMesh (vertexCount m) (triangleCount m) (vertices m) (Some v) (normals m) (tangents m)
         (colors m) (indices m) (vaoId m) (vboId m).
Definition set_colors (v : list Z) (m : Mesh) : Mesh :=
  mkMesh (vertexCount m) (triangleCount m) (vertices m) (texcoords m) (normals m) (tangents m)
         (Some v) (indices m) (vaoId m) (vboId m).
Definition set_triangleCount (n : Z) (m : Mesh) : Mesh :=
  mkMesh (vertexCount m) n (vertices m) (texcoords m) (normals m) (tangents m)
         (colors m) (indices m) (vaoId m) (vboId m).
Definition set_indices (v : list Z) (m : Mesh) : Mesh :=
  mkMesh (vertexCount m) (triangleCount m) (vertices m) (texcoords m) (normals m) (tangents m)
         (colors m) (Some v) (vaoId m) (vboId m).
Definition set_vboId (v : list Z) (m : Mesh) : Mesh :=
  mkMesh (vertexCount m) (triangleCount m) (vertices m) (texcoords m) (normals m) (tangents m)
         (colors m) (indices m) (vaoId m) (Some v).

(** [(unsigned char)(((float)temp[c]/65535.0f)*255.0f)] *)
Definition color_of_u16 (t : Z) : option Z :=
  uchar_of (fmul (fdiv (f32_of_Z t) (f32_of_Z 65535)) (f32_of_Z 255)).

(** [(unsigned char)(temp[c]*255.0f)] *)
Definition color_of_f32 (t : float) : option Z :=
  uchar_of (fmul t (f32_of_Z 255)).

(** One iteration of the attribute loop on [model.meshes[meshIndex]]. *)
Definition load_attribute (attr : cgltf_attribute) (mesh : Mesh) : Prog.M Log Mesh :=
  let attribute := attr_data attr in
  match attr_type attr with
  | cgltf_attribute_type_position =>
      if has_format attribute cgltf_component_type_r_32f cgltf_type_vec3 then
        v <- Prog.defined (LOAD_ATTRIBUTE_float attribute 3) ;;
        Prog.ret (set_vertices (to_int (acc_count attribute)) v mesh)
      else
        TRACELOG LOG_WARNING
          "MODEL: [%s] Vertices attribute data format not supported, use vec3 float" ;;;
        Prog.ret mesh
  | cgltf_attribute_type_normal =>
      if has_format attribute cgltf_component_type_r_32f cgltf_type_vec3 then
        v <- Prog.defined (LOAD_ATTRIBUTE_float attribute 3) ;;
        Prog.ret (set_normals v mesh)
      else
        TRACELOG LOG_WARNING
          "MODEL: [%s] Normal attribute data format not supported, use vec3 float" ;;;
        Prog.ret mesh
  | cgltf_attribute_type_tangent =>
      if has_format attribute cgltf_component_type_r_32f cgltf_type_vec4 then
        v <- Prog.defined (LOAD_ATTRIBUTE_float attribute 4) ;;
        Prog.ret (set_tangents v mesh)
      else
        TRACELOG LOG_WARNING
          "MODEL: [%s] Tangent attribute data format not supported, use vec4 float" ;;;
        Prog.ret mesh
  | cgltf_attribute_type_texcoord =>
      if has_format attribute cgltf_component_type_r_32f cgltf_type_vec2 then
        v <- Prog.defined (LOAD_ATTRIBUTE_float attribute 2) ;;
        Prog.ret (set_texcoords v mesh)
      else
        TRACELOG LOG_WARNING
          "MODEL: [%s] Texcoords attribute data format not supported, use vec2 float" ;;;
        Prog.ret mesh
  | cgltf_attribute_type_color =>
      if has_format attribute cgltf_component_type_r_8u cgltf_type_vec4 then
        v <- Prog.defined (LOAD_ATTRIBUTE attribute 4 1) ;;
        Prog.ret (set_colors v mesh)
      else if has_format attribute cgltf_component_type_r_16u cgltf_type_vec4 then
        temp <- Prog.defined (LOAD_ATTRIBUTE attribute 4 2) ;;
        v <- Prog.defined (mapM color_of_u16 temp) ;;
        Prog.ret (set_colors v mesh)
      else if has_format attribute cgltf_component_type_r_32f cgltf_type_vec4 then
        temp <- Prog.defined (LOAD_ATTRIBUTE_float attribute 4) ;;
        v <- Prog.defined (mapM color_of_f32 temp) ;;
        Prog.ret (set_colors v mesh)
      else
        TRACELOG LOG_WARNING "MODEL: [%s] Color attribute data format not supported" ;;;
        Prog.ret mesh
  | _ => Prog.ret mesh
  end.

(** "Load primitive indices data (if provided)". *)
Definition load_indices (prim : cgltf_primitive) (mesh : Mesh) : Prog.M Log Mesh :=
  match prim_indices prim with
  | Some attribute =>
      let mesh := set_triangleCount (cdiv (to_int (acc_count attribute)) 3) mesh in
      if bool_decide (acc_component_type attribute = cgltf_component_type_r_16u) then
        v <- Prog.defined (LOAD_ATTRIBUTE attribute 1 2) ;;
        Prog.ret (set_indices v mesh)
      else if bool_decide (acc_component_type attribute = cgltf_component_type_r_32u) then
        temp <- Prog.defined (LOAD_ATTRIBUTE attribute 1 4) ;;
        let mesh := set_indices (to_ushort <$> temp) mesh in
        TRACELOG LOG_WARNING
          "MODEL: [%s] Indices data converted from u32 to u16, possible loss of data" ;;;
        Prog.ret mesh
      else
        TRACELOG LOG_WARNING "MODEL: [%s] Indices data format not supported, use u16" ;;;
        Prog.ret mesh
  | None => Prog.ret (set_triangleCount (cdiv (vertexCount mesh) 3) mesh)
  end.

(** The material search loop: the first [m] with
    [&data->materials[m] == primitive.material]. *)
Definition matching_material (data : cgltf_data) (prim : cgltf_primitive) : option Z :=
  List.find (fun m => bool_decide (prim_material prim = Some m))
            (seqZ 0 (Z.of_nat (length (materials_ data)))).

(** What the mesh loops carry: the arrays being filled and [meshIndex]. *)
Record MeshCursor := mkMeshCursor {
  cur_meshes : list Mesh;
  cur_meshMaterial : list Z;
  meshIndex : Z }.

(** The body of the primitive loop. *)
Definition load_primitive (data : cgltf_data) (prim : cgltf_primitive) (cur : MeshCursor)
  : Prog.M Log MeshCursor :=
  if bool_decide (prim_type prim = cgltf_primitive_type_triangles) then
    mesh <- Prog.defined (at_index (cur_meshes cur) (meshIndex cur)) ;;
    mesh <- Prog.fold_each (prim_attributes prim) load_attribute mesh ;;
    mesh <- load_indices prim mesh ;;
    meshes' <- Prog.defined (store_at (cur_meshes cur) (meshIndex cur) (fun _ => mesh)) ;;
    meshMaterial' <-
      match matching_material data prim with
      | Some m => Prog.defined (store_at (cur_meshMaterial cur) (meshIndex cur) (fun _ => m + 1))
      | None => Prog.ret (cur_meshMaterial cur)
      end ;;
    Prog.ret (mkMeshCursor meshes' meshMaterial' (to_uint (meshIndex cur + 1)))
  else Prog.ret cur.

(** The body of the mesh loop: the cursor afterwards with
    [mesh_id_starts[i]] and [mesh_id_ends[i]]. *)
Definition load_mesh (data : cgltf_data) (mesh : cgltf_mesh) (cur : MeshCursor)
  : Prog.M Log (Z * Z * MeshCursor) :=
  let start := to_int (meshIndex cur) in
  cur' <- Prog.fold_each (primitives mesh) (load_primitive data) cur ;;
  Prog.ret (start, to_int (meshIndex cur'), cur').

(** "Load meshes data": the cursor after every mesh, and the two tables
    [mesh_id_starts], [mesh_id_ends]. *)
Definition load_meshes (data : cgltf_data) (cur : MeshCursor)
  : Prog.M Log (list Z * list Z * MeshCursor) :=
  Prog.fold_each (meshes_ data)
    (fun mesh '(starts, ends, cur) =>
       res <- load_mesh data mesh cur ;;
       let '(s, e, cur') := res in
       Prog.ret (starts ++ [s], ends ++ [e], cur'))
    ([], [], cur).

(** [primitivesCount], accumulated in an [int]. *)
Definition primitivesCount (data : cgltf_data) : Z :=
  fold_left (fun n mesh => to_int (n + to_int (Z.of_nat (length (primitives mesh)))))
            (meshes_ data) 0.

(** The body of the node loop, for [model.nodes[i]] zero-initialised. *)
Definition load_node (mesh_id_starts mesh_id_ends : list Z) (node : cgltf_node)
  : Prog.M Log GLTFNode :=
  range <- match node_mesh node with
           | None => Prog.ret (-1, -1)
           | Some mesh =>
               let mesh_id := to_int mesh in
               TRACELOG LOG_DEBUG "Mesh: %x %x %d %d" ;;;
               s <- Prog.defined (at_index mesh_id_starts mesh_id) ;;
               e <- Prog.defined (at_index mesh_id_ends mesh_id) ;;
               Prog.ret (s, e)
           end ;;
  let count := to_int (Z.of_nat (length (node_children node))) in
  filled <- Prog.fold_each (node_children node)
              (fun child '(j, ids) =>
                 ids' <- Prog.defined (store_at ids j (fun _ => to_int child)) ;;
                 Prog.ret (to_uint (j + 1), ids'))
              (0, RL_CALLOC count 0) ;;
  let ids := snd filled in
  let '(tx, ty, tz) := node_translation node in
  let '(rx, ry, rz, rw) := node_rotation node in
  let '(sx, sy, sz) := node_scale node in
  let trans := if has_translation node then mkVector3 tx ty tz else translation zero_Transform in
  let matTranslation :=
    if has_translation node then MatrixTranslate (v3x trans) (v3y trans) (v3z trans)
    else MatrixIdentity in
  let rot := if has_rotation node then mkQuaternion rx ry rz rw else rotation zero_Transform in
  let matRotation := if has_rotation node then QuaternionToMatrix rot else MatrixIdentity in
  let scl := if has_scale node then mkVector3 sx sy sz
             else mkVector3 (f32_of_Z 1) (f32_of_Z 1) (f32_of_Z 1) in
  let matScale :=
    if has_scale node then MatrixScale (v3x scl) (v3y scl) (v3z scl) else MatrixIdentity in
  Prog.ret (mkGLTFNode count ids (fst range) (snd range)
              (mkTransform trans rot scl)
              (MatrixMultiply (MatrixMultiply matScale matRotation) matTranslation)).

Definition load_scene (s : cgltf_scene) : GLTFScene :=
  mkGLTFScene (to_int (Z.of_nat (length (scene_nodes s)))) (to_int <$> scene_nodes s).

Definition LoadGLTFModelFile (file : file_contents) (fileName : string) : Prog.M Log GLTFModel :=
  match file with
  | FileUnreadable => Prog.ret zero_GLTFModel
  | ParseFailure =>
      TRACELOG LOG_WARNING "MODEL: [%s] Failed to load glTF data" ;;; Prog.ret zero_GLTFModel
  | Parsed data =>
      match file_type data with
      | cgltf_file_type_glb =>
          TRACELOG LOG_INFO "MODEL: [%s] Model basic data (glb) loaded successfully"
      | cgltf_file_type_gltf =>
          TRACELOG LOG_INFO "MODEL: [%s] Model basic data (glTF) loaded successfully"
      | cgltf_file_type_invalid =>
          TRACELOG LOG_WARNING "MODEL: [%s] Model format not recognized"
      end ;;;
      TRACELOG LOG_INFO "    > Meshes count: %i" ;;;
      TRACELOG LOG_INFO "    > Materials count: %i (+1 default)" ;;;
      TRACELOG LOG_DEBUG "    > Buffers count: %i" ;;;
      TRACELOG LOG_DEBUG "    > Images count: %i" ;;;
      TRACELOG LOG_DEBUG "    > Textures count: %i" ;;;
      TRACELOG LOG_DEBUG "    > Nodes count: %i" ;;;
      TRACELOG LOG_DEBUG "    > Scenes count: %i" ;;;
      (if load_buffers_ok data then Prog.ret tt
       else TRACELOG LOG_INFO "MODEL: [%s] Failed to load mesh/material buffers") ;;;
      Prog.for_each (nodes_ data) (fun _ => TRACELOG LOG_DEBUG "node mesh %d %s") ;;;
      let meshCount := primitivesCount data in
      let meshes := set_vboId (RL_CALLOC MAX_MESH_VERTEX_BUFFERS 0)
                      <$> RL_CALLOC meshCount zero_Mesh in
      let materialCount := to_int (to_int (Z.of_nat (length (materials_ data))) + 1) in
      materials0 <- Prog.defined
                      (store_at (RL_CALLOC materialCount zero_Material) 0
                                (fun _ => LoadMaterialDefault)) ;;
      let meshMaterial := RL_CALLOC meshCount 0 in
      res <- Prog.fold_each (materials_ data)
               (fun src '(j, mats) =>
                  mat <- load_material src fileName ;;
                  mats' <- Prog.defined (store_at mats j (fun _ => mat)) ;;
                  Prog.ret (to_uint (j + 1), mats'))
               (1, materials0) ;;
      let materials := snd res in
      TRACELOG LOG_DEBUG "%x" ;;;
      res <- load_meshes data (mkMeshCursor meshes meshMaterial 0) ;;
      let '(mesh_id_starts, mesh_id_ends, cur) := res in
      TRACELOG LOG_DEBUG "%x" ;;;
      let nodeCount := to_int (Z.of_nat (length (nodes_ data))) in
      TRACELOG LOG_DEBUG "Loading nodes %d" ;;;
      TRACELOG LOG_DEBUG "-----------" ;;;
      nodes <- Prog.map_each (nodes_ data) (load_node mesh_id_starts mesh_id_ends) ;;
      TRACELOG LOG_DEBUG "Loading scene" ;;;
      let with_scenes := negb (length (scenes_ data) =? 0)%nat in
      Prog.ret (mkGLTFModel zero_Matrix meshCount materialCount
                  (Some (cur_meshes cur)) (Some materials) (Some (cur_meshMaterial cur))
                  nodeCount (Some nodes)
                  (if with_scenes then to_int (Z.of_nat (length (scenes_ data))) else 0)
                  (if with_scenes then Some (load_scene <$> scenes_ data) else None)
                  (if with_scenes then to_int (scene_ data) else 0))
  end.

Definition set_model_transform (t : Matrix) (model : GLTFModel) : GLTFModel :=
  mkGLTFModel t (meshCount model) (materialCount model) (meshes model) (materials model)
              (meshMaterial model) (nodeCount model) (nodes model) (sceneCount model)
              (scenes model) (scene model).
Definition set_model_meshes (n : Z) (ms : list Mesh) (model : GLTFModel) : GLTFModel :=
  mkGLTFModel (model_transform model) n (materialCount model) (Some ms) (materials model)
              (meshMaterial model) (nodeCount model) (nodes model) (sceneCount model)
              (scenes model) (scene model).
Definition set_model_materials (n : Z) (ms : list Material) (model : GLTFModel) : GLTFModel :=
  mkGLTFModel (model_transform model) (meshCount model) n (meshes model) (Some ms)
              (meshMaterial model) (nodeCount model) (nodes model) (sceneCount model)
              (scenes model) (scene model).
Definition set_model_meshMaterial (mm : list Z) (model : GLTFModel) : GLTFModel :=
  mkGLTFModel (model_transform model) (meshCount model) (materialCount model) (meshes model)
              (materials model) (Some mm) (nodeCount model) (nodes model) (sceneCount model)
              (scenes model) (scene model).

Definition LoadGLTFModel (file : file_contents) (fileName : string) : Prog.M Log GLTFModel :=
  model <- LoadGLTFModelFile file fileName ;;
  let model := set_model_transform MatrixIdentity model in
  model <-
    (if meshCount model =? 0 then
       let model := set_model_meshes 1 (RL_CALLOC 1 zero_Mesh) model in
       if SUPPORT_MESH_GENERATION then
         TRACELOG LOG_WARNING "MESH: [%s] Failed to load mesh data, default to cube mesh" ;;;
         Prog.ret (set_model_meshes 1 [GenMeshCube (f32_of_Z 1) (f32_of_Z 1) (f32_of_Z 1)] model)
       else
         TRACELOG LOG_WARNING "MESH: [%s] Failed to load mesh data" ;;;
         Prog.ret model
     else
       ms <- Prog.defined (meshes model) ;;
       ms' <- Prog.fold_each (seqZ 0 (meshCount model))
                (fun i ms => Prog.defined (store_at ms i UploadMesh)) ms ;;
       Prog.ret (set_model_meshes (meshCount model) ms' model)) ;;
  if materialCount model =? 0 then
    TRACELOG LOG_WARNING
      "MATERIAL: [%s] Failed to load material data, default to white material" ;;;
    let model := set_model_materials 1 [LoadMaterialDefault] model in
    Prog.ret (match meshMaterial model with
              | None => set_model_meshMaterial (RL_CALLOC (meshCount model) 0) model
              | Some _ => model
              end)
  else Prog.ret model.

End Importer.

(** ** The renderer *)

(** One [DrawMesh] call: the mesh, the material as it is at the time of the
    call, and the transform. *)
Record DrawCall := mkDrawCall {
  drawn_mesh : Mesh;
  drawn_material : Material;
  drawn_transform : Matrix }.

(** What drawing acts on.  [GLTFModel] is passed by value, but
    [model.materials] points to an array shared by every copy:
    [world_materials] is that array.  [world_wire] is the rasteriser's wire
    mode and [world_drawn] the draw calls issued so far. *)
Record World := mkWorld {
  world_materials : list Material;
  world_wire : bool;
  world_drawn : list DrawCall }.

Definition world_of (model : GLTFModel) : World :=
  mkWorld (default [] (materials model)) false [].

Section Renderer.

Context `{Raylib}.

Local Open Scope prog_scope.

Definition DrawMesh (mesh : Mesh) (material : Material) (transform : Matrix)
  : Prog.M World unit :=
  Prog.modify (fun w => mkWorld (world_materials w) (world_wire w)
                          (world_drawn w ++ [mkDrawCall mesh material transform])).

Definition rlEnableWireMode : Prog.M World unit :=
  Prog.modify (fun w => mkWorld (world_materials w) true (world_drawn w)).

Definition rlDisableWireMode : Prog.M World unit :=
  Prog.modify (fun w => mkWorld (world_materials w) false (world_drawn w)).

(** [model.materials[k]] *)
Definition read_material (k : Z) : Prog.M World Material :=
  w <- Prog.get ;; Prog.defined (at_index (world_materials w) k).

(** [model.materials[k].maps[MATERIAL_MAP_DIFFUSE].color] *)
Definition read_diffuse_color (k : Z) : Prog.M World Color :=
  mat <- read_material k ;;
  mm <- Prog.defined (at_index (maps mat) MATERIAL_MAP_DIFFUSE) ;;
  Prog.ret (color mm).

(** [model.materials[k].maps[MATERIAL_MAP_DIFFUSE].color = c] *)
Definition write_diffuse_color (k : Z) (c : Color) : Prog.M World unit :=
  mat <- read_material k ;;
  mat' <- Prog.defined (set_map mat MATERIAL_MAP_DIFFUSE (set_color c)) ;;
  w <- Prog.get ;;
  mats' <- Prog.defined (store_at (world_materials w) k (fun _ => mat')) ;;
  Prog.put (mkWorld mats' (world_wire w) (world_drawn w)).

(** [(float)c/255.0]: the division is carried out in [double]. *)
Definition unit_fraction (c : Z) : double :=
  ddiv (double_of_float (f32_of_Z c)) (f64_of_Z 255).

(** [(unsigned char)((((float)c/255.0)*((float)t/255.0))*255.0f)]: the
    product is computed in [double] and then truncated. *)
Definition tint_channel (c t : Z) : option Z :=
  uchar_of (dmul (dmul (unit_fraction c) (unit_fraction t)) (double_of_float (f32_of_Z 255))).

Definition tint_color (c tint : Color) : option Color :=
  cr ← tint_channel (r c) (r tint);
  cg ← tint_channel (g c) (g tint);
  cb ← tint_channel (b c) (b tint);
  ca ← tint_channel (a c) (a tint);
  Some (mkColor cr cg cb ca).

(** The body shared by the mesh loops of [DrawGLTFModelEx] and
    [DrawGLTFNode]: draw mesh [i] with its material tinted, then put the
    colour back. *)
Definition draw_mesh_tinted (model : GLTFModel) (i : Z) (transform : Matrix) (tint : Color)
  : Prog.M World unit :=
  k <- Prog.defined (mm ← meshMaterial model; at_index mm i) ;;
  color <- read_diffuse_color k ;;
  colorTint <- Prog.defined (tint_color color tint) ;;
  write_diffuse_color k colorTint ;;;
  mesh <- Prog.defined (ms ← meshes model; at_index ms i) ;;
  mat <- read_material k ;;
  DrawMesh mesh mat transform ;;;
  write_diffuse_color k color.

(** [fuel] bounds the depth of the recursion: descending into the children
    of a node needs one unit, and a graph with a cycle exhausts any amount,
    as it exhausts the C stack. *)
Fixpoint DrawGLTFNode (fuel : nat) (model : GLTFModel) (node_id : Z) (matTransform : Matrix)
    (tint : Color) : Prog.M World unit :=
  if (0 <=? node_id) && (node_id <? nodeCount model) then
    node <- Prog.defined (ns ← nodes model; at_index ns node_id) ;;
    let nodeTransform := MatrixMultiply (transformMatrix node) matTransform in
    if 0 <? childrenCount node then
      match fuel with
      | O => Prog.undefined
      | S fuel' =>
          Prog.for_each (seqZ 0 (childrenCount node)) (fun i =>
            child <- Prog.defined (at_index (children node) i) ;;
            DrawGLTFNode fuel' model child nodeTransform tint)
      end
    else
      Prog.for_each (seqZ (meshStart node) (meshEnd node - meshStart node)) (fun j =>
        draw_mesh_tinted model j nodeTransform tint)
  else Prog.ret tt.

Definition DrawGLTFNodeWires (fuel : nat) (model : GLTFModel) (node_id : Z)
    (matTransform : Matrix) (tint : Color) : Prog.M World unit :=
  rlEnableWireMode ;;;
  DrawGLTFNode fuel model node_id matTransform tint ;;;
  rlDisableWireMode.

Definition DrawGLTFScene (fuel : nat) (model : GLTFModel) (scene_id : Z) (matTransform : Matrix)
    (tint : Color) : Prog.M World unit :=
  if (0 <=? scene_id) && (scene_id <? sceneCount model) then
    sc <- Prog.defined (ss ← scenes model; at_index ss scene_id) ;;
    Prog.for_each (seqZ 0 (scene_nodeCount sc)) (fun i =>
      node_id <- Prog.defined (at_index (scene_nodes_ids sc) i) ;;
      DrawGLTFNode fuel model node_id matTransform tint)
  else Prog.ret tt.

Definition DrawGLTFSceneWires (fuel : nat) (model : GLTFModel) (scene_id : Z)
    (matTransform : Matrix) (tint : Color) : Prog.M World unit :=
  rlEnableWireMode ;;;
  DrawGLTFScene fuel model scene_id matTransform tint ;;;
  rlDisableWireMode.

Definition DrawGLTFModelEx (fuel : nat) (model : GLTFModel) (position rotationAxis : Vector3)
    (rotationAngle : float) (scale : Vector3) (tint : Color) : Prog.M World unit :=
  let matScale := MatrixScale (v3x scale) (v3y scale) (v3z scale) in
  let matRotation := MatrixRotate rotationAxis (fmul rotationAngle DEG2RAD) in
  let matTranslation := MatrixTranslate (v3x position) (v3y position) (v3z position) in
  let matTransform := MatrixMultiply (MatrixMultiply matScale matRotation) matTranslation in
  let model := set_model_transform (MatrixMultiply (model_transform model) matTransform) model in
  if (0 <=? scene model) && (scene model <? sceneCount model) then
    sc <- Prog.defined (ss ← scenes model; at_index ss (scene model)) ;;
    if 0 <? scene_nodeCount sc then
      DrawGLTFScene fuel model (scene model) (model_transform model) tint
    else
      Prog.for_each (seqZ 0 (meshCount model)) (fun i =>
        draw_mesh_tinted model i (model_transform model) tint)
  else
    Prog.for_each (seqZ 0 (meshCount model)) (fun i =>
      draw_mesh_tinted model i (model_transform model) tint).

Definition DrawGLTFModel (fuel : nat) (model : GLTFModel) (position : Vector3) (scale : float)
    (tint : Color) : Prog.M World unit :=
  let vScale := mkVector3 scale scale scale in
  let rotationAxis := mkVector3 f32_zero (f32_of_Z 1) f32_zero in
  DrawGLTFModelEx fuel model position rotationAxis f32_zero vScale tint.

Definition DrawGLTFModelWires (fuel : nat) (model : GLTFModel) (position : Vector3)
    (scale : float) (tint : Color) : Prog.M World unit :=
  rlEnableWireMode ;;;
  DrawGLTFModel fuel model position scale tint ;;;
  rlDisableWireMode.

Definition DrawGLTFModelWiresEx (fuel : nat) (model : GLTFModel) (position rotationAxis : Vector3)
    (rotationAngle : float) (scale : Vector3) (tint : Color) : Prog.M World unit :=
  rlEnableWireMode ;;;
  DrawGLTFModelEx fuel model position rotationAxis rotationAngle scale tint ;;;
  rlDisableWireMode.

(** The public drawing functions. *)
Inductive DrawEntry :=
| CallDrawGLTFModel (position : Vector3) (scale : float)
| CallDrawGLTFModelEx (position rotationAxis : Vector3) (rotationAngle : float) (scale : Vector3)
| CallDrawGLTFModelWires (position : Vector3) (scale : float)
| CallDrawGLTFModelWiresEx (position rotationAxis : Vector3) (rotationAngle : float)
    (scale : Vector3)
| CallDrawGLTFNode (node_id : Z) (matTransform : Matrix)
| CallDrawGLTFNodeWires (node_id : Z) (matTransform : Matrix)
| CallDrawGLTFScene (scene_id : Z) (matTransform : Matrix)
| CallDrawGLTFSceneWires (scene_id : Z) (matTransform : Matrix).

Definition run_entry (fuel : nat) (model : GLTFModel) (tint : Color) (e : DrawEntry)
  : Prog.M World unit :=
  match e with
  | CallDrawGLTFModel p s => DrawGLTFModel fuel model p s tint
  | CallDrawGLTFModelEx p ax an s => DrawGLTFModelEx fuel model p ax an s tint
  | CallDrawGLTFModelWires p s => DrawGLTFModelWires fuel model p s tint
  | CallDrawGLTFModelWiresEx p ax an s => DrawGLTFModelWiresEx fuel model p ax an s tint
  | CallDrawGLTFNode n t => DrawGLTFNode fuel model n t tint
  | CallDrawGLTFNodeWires n t => DrawGLTFNodeWires fuel model n t tint
  | CallDrawGLTFScene n t => DrawGLTFScene fuel model n t tint
  | CallDrawGLTFSceneWires n t => DrawGLTFSceneWires fuel model n t tint
  end.

End Renderer.

(** ** Unloading *)

(** What [UnloadGLTFModel] hands back: a mesh to [UnloadMesh], an array to
    [RL_FREE] (a null pointer included, which [RL_FREE] accepts). *)
Inductive Release :=
| Release_mesh (mesh : Mesh)
| Release_maps (maps : list MaterialMap)
| Release_meshes (meshes : option (list Mesh))
| Release_materials (materials : option (list Material))
| Release_meshMaterial (meshMaterial : option (list Z))
| Release_children (children : list Z)
| Release_nodes (nodes : option (list GLTFNode))
| Release_scene_nodes (nodes : list Z)
| Release_scenes (scenes : option (list GLTFScene)).

(** The releases so far, and the log. *)
Definition Unloading : Type := list Release * Log.

Definition release (x : Release) : Prog.M Unloading unit :=
  Prog.modify (fun s => (s.1 ++ [x], s.2)).

Definition trace (level : TraceLogLevel) (msg : string) : Prog.M Unloading unit :=
  Prog.modify (fun s => (s.1, s.2 ++ [(level, msg)])).

Section Unloader.

Local Open Scope prog_scope.

(** [UnloadGLTFModel]: the meshes, the maps of the materials, the three
    arrays of the model, the children of the nodes, the nodes, the node
    lists of the scenes, the scenes. *)
Definition UnloadGLTFModel (model : GLTFModel) : Prog.M Unloading unit :=
  Prog.for_each (seqZ 0 (meshCount model)) (fun i =>
    mesh <- Prog.defined (ms ← meshes model; at_index ms i) ;;
    release (Release_mesh mesh)) ;;;
  Prog.for_each (seqZ 0 (materialCount model)) (fun i =>
    mat <- Prog.defined (ms ← materials model; at_index ms i) ;;
    release (Release_maps (maps mat))) ;;;
  release (Release_meshes (meshes model)) ;;;
  release (Release_materials (materials model)) ;;;
  release (Release_meshMaterial (meshMaterial model)) ;;;
  Prog.for_each (seqZ 0 (nodeCount model)) (fun i =>
    node <- Prog.defined (ns ← nodes model; at_index ns i) ;;
    release (Release_children (children node))) ;;;
  release (Release_nodes (nodes model)) ;;;
  Prog.for_each (seqZ 0 (sceneCount model)) (fun i =>
    sc <- Prog.defined (ss ← scenes model; at_index ss i) ;;
    release (Release_scene_nodes (scene_nodes_ids sc))) ;;;
  release (Release_scenes (scenes model)) ;;;
  trace LOG_INFO "MODEL: Unloaded pModel (and meshes) from RAM and VRAM".

End Unloader.

(** ** Vocabulary of the properties *)

(** [src] with other metallic-roughness scalar factors. *)
Definition with_factors (roughness metallic : float) (src : cgltf_material) : cgltf_material :=
  let pbr := pbr_metallic_roughness src in
  mk_cgltf_material (has_pbr_metallic_roughness src)
    (mk_cgltf_pbr (base_color_texture pbr) (metallic_roughness_texture pbr)
       (base_color_factor pbr) metallic roughness)
    (normal_texture src) (occlusion_texture src) (emissive_texture src) (emissive_factor src).

(** The material index a primitive is to get: one more than the position of
    its material in the file, 0 when it has none or one that is not in the
    file's array. *)
Definition material_slot (data : cgltf_data) (prim : cgltf_primitive) : Z :=
  match prim_material prim with
  | Some m => if decide (0 <= m < Z.of_nat (length (materials_ data))) then m + 1 else 0
  | None => 0
  end.

(** The mesh loops after the triangle primitives [seen], on arrays of [n]
    elements: [meshIndex] counts them, and the material indices written so
    far are theirs, the rest still being 0. *)
Definition cursor_after (data : cgltf_data) (n : nat) (seen : list cgltf_primitive)
    (cur : MeshCursor) : Prop :=
  meshIndex cur = Z.of_nat (length seen) /\
  length (cur_meshes cur) = n /\
  (length seen <= n)%nat /\
  cur_meshMaterial cur = (material_slot data <$> seen) ++ replicate (n - length seen) 0.

Definition is_triangles (p : cgltf_primitive) : bool :=
  bool_decide (prim_type p = cgltf_primitive_type_triangles).

(** The number of triangle primitives in the first [i] meshes. *)
Definition triangles_before (ms : list cgltf_mesh) (i : nat) : Z :=
  Z.of_nat (length (List.filter is_triangles (concat (primitives <$> take i ms)))).

(** The triangle primitives of the file, in the order the mesh loops visit
    them. *)
Definition triangle_primitives (data : cgltf_data) : list cgltf_primitive :=
  List.filter is_triangles (concat (primitives <$> meshes_ data)).

Definition valid_channel (c : Z) : Prop := 0 <= c <= 255.

Definition valid_color (c : Color) : Prop :=
  valid_channel (r c) /\ valid_channel (g c) /\ valid_channel (b c) /\ valid_channel (a c).

(** How far a tinted channel [x] can be from the product of [c/255] and
    [t/255] rescaled to 0..255, whose integer part is [c * t / 255]. *)
Definition near_product (c t x : Z) : Prop :=
  c * t / 255 - 1 <= x <= c * t / 255 /\
  ((c * t) mod 255 <> 0 -> x = c * t / 255) /\
  (c = 255 -> x = t) /\ (t = 255 -> x = c).

Definition near_product_color (c t x : Color) : Prop :=
  near_product (r c) (r t) (r x) /\ near_product (g c) (g t) (g x) /\
  near_product (b c) (b t) (b x) /\ near_product (a c) (a t) (a x).

Definition near_productb (c t : Z) (o : option Z) : bool :=
  match o with
  | Some x =>
      let p := c * t in
      let q := p / 255 in
      (q - 1 <=? x) && (x <=? q) && ((p mod 255 =? 0) || (x =? q))
      && ((negb (c =? 255) || (x =? t)) && (negb (t =? 255) || (x =? c)))
  | None => false
  end.

(** A test [P] run on every pair made of an element of a list and of
    itself or a later element. *)
Fixpoint pairs_check {A} (P : A -> A -> bool) (l : list A) : bool :=
  match l with
  | [] => true
  | x :: l' => forallb (P x) l && pairs_check P l'
  end.

(** [pairs_check] on the entries of [l], each coming with its image under
    [f], computed once. *)
Definition table_check {A} (f : Z -> A) (P : Z -> A -> Z -> A -> bool) (l : list Z) : bool :=
  pairs_check (fun p q => P (fst p) (snd p) (fst q) (snd q)) (List.map (fun c => (c, f c)) l).

(** [near_productb] on the tinted channel, from the two quotients by 255. *)
Definition tint_test (c : Z) (qc : double) (t : Z) (qt : double) : bool :=
  near_productb c t (uchar_of (dmul (dmul qc qt) (double_of_float (f32_of_Z 255)))).

(** The material handed to [DrawMesh]: [mat] with the diffuse colour [c]. *)
Definition with_diffuse_color (c : Color) (mat : Material) : option Material :=
  set_map mat MATERIAL_MAP_DIFFUSE (set_color c).

(** [call] is the draw of mesh [j] of [model] under [transform], with the
    material the mesh is mapped to in [mats], its diffuse colour tinted. *)
Definition is_tinted_draw (model : GLTFModel) (mats : list Material) (transform : Matrix)
    (tint : Color) (j : Z) (call : DrawCall) : Prop :=
  exists mm ms k mat dmap c' used mesh,
    meshMaterial model = Some mm /\ at_index mm j = Some k /\
    at_index mats k = Some mat /\
    at_index (maps mat) MATERIAL_MAP_DIFFUSE = Some dmap /\
    tint_color (color dmap) tint = Some c' /\
    with_diffuse_color c' mat = Some used /\
    meshes model = Some ms /\ at_index ms j = Some mesh /\
    call = mkDrawCall mesh used transform.

(** The world after some more draw calls, and nothing else changed. *)
Definition after_draws (w : World) (calls : list DrawCall) : World :=
  mkWorld (world_materials w) (world_wire w) (world_drawn w ++ calls).

(** Programs that leave the shared material array as they found it. *)
Definition keeps_materials {A} (m : Prog.M World A) : Prop :=
  forall w x w', m w = Some (x, w') -> world_materials w' = world_materials w.

Definition diffuse_color (mat : Material) : option Color :=
  color <$> at_index (maps mat) MATERIAL_MAP_DIFFUSE.

Definition has_warning (msg : string) (log : Log) : Prop := In (LOG_WARNING, msg) log.

Definition warnings (log : Log) : list string :=
  omap (fun e => match fst e with LOG_WARNING => Some (snd e) | _ => None end) log.

(** *** Wire mode *)

Definition set_wire (b : bool) (w : World) : World :=
  mkWorld (world_materials w) b (world_drawn w).

(** The result of a run, with the wire mode switched off. *)
Definition wire_off (res : option (unit * World)) : option (unit * World) :=
  match res with
  | Some (u, w') => Some (u, set_wire false w')
  | None => None
  end.

(** Programs that neither read nor write the wire mode. *)
Definition ignores_wire {A} (m : Prog.M World A) : Prop :=
  forall b w, m (set_wire b w)
              = match m w with Some (x, w') => Some (x, set_wire b w') | None => None end.

(** *** The walk of the node graph *)

(** [call] is the tinted draw of mesh [p.1] under the transform [p.2]. *)
Definition is_tinted_draw_at (model : GLTFModel) (mats : list Material) (tint : Color)
    (p : Z * Matrix) (call : DrawCall) : Prop :=
  is_tinted_draw model mats p.2 tint p.1 call.

(** Mesh [j] has its material, and that material a diffuse map with a colour
    in 0..255. *)
Definition mesh_drawable (model : GLTFModel) (mats : list Material) (j : Z) : Prop :=
  exists mm ms k mat dmap mesh,
    meshMaterial model = Some mm /\ at_index mm j = Some k /\
    at_index mats k = Some mat /\
    at_index (maps mat) MATERIAL_MAP_DIFFUSE = Some dmap /\
    meshes model = Some ms /\ at_index ms j = Some mesh /\
    valid_color (color dmap).

(** The nodes reached from [node_id] lie at most [depth] levels below it,
    every child index read is inside its array, and every mesh of a leaf is
    drawable. *)
Fixpoint node_drawable (depth : nat) (model : GLTFModel) (mats : list Material) (node_id : Z)
  : Prop :=
  if (0 <=? node_id) && (node_id <? nodeCount model) then
    match ns ← nodes model; at_index ns node_id with
    | Some node =>
        if 0 <? childrenCount node then
          match depth with
          | O => False
          | S depth' =>
              (Z.to_nat (childrenCount node) <= length (children node))%nat /\
              Forall (node_drawable depth' model mats)
                     (take (Z.to_nat (childrenCount node)) (children node))
          end
        else Forall (mesh_drawable model mats)
                    (seqZ (meshStart node) (meshEnd node - meshStart node))
    | None => False
    end
  else True.

(** [b] is one of the children that the traversal visits at [a]. *)
Definition child_edge (model : GLTFModel) (a b : Z) : Prop :=
  0 <= a < nodeCount model /\
  exists node i,
    (ns ← nodes model; at_index ns a) = Some node /\
    0 <= i < childrenCount node /\ at_index (children node) i = Some b.

(** *** Parsed files *)

Definition index_in (n i : Z) : bool := (0 <=? i) && (i <? n).

Definition count_fits {A} (l : list A) : bool := Z.of_nat (length l) <? INT_MAX.

(** What cgltf guarantees of a parsed file: the pointers to meshes and nodes
    point into the arrays of the file, and every element count fits an
    [int]. *)
Definition well_formed (data : cgltf_data) : bool :=
  let nm := Z.of_nat (length (meshes_ data)) in
  let nn := Z.of_nat (length (nodes_ data)) in
  count_fits (meshes_ data) && count_fits (materials_ data)
  && count_fits (nodes_ data) && count_fits (scenes_ data)
  && count_fits (concat (primitives <$> meshes_ data))
  && forallb (fun n => count_fits (node_children n)
                       && forallb (index_in nn) (node_children n)
                       && from_option (index_in nm) true (node_mesh n))
             (nodes_ data)
  && forallb (fun s => count_fits (scene_nodes s) && forallb (index_in nn) (scene_nodes s))
             (scenes_ data).

(** The source values of a node's translation, rotation and scale. *)
Definition source_translation (node : cgltf_node) : Vector3 :=
  let '(x, y, z) := node_translation node in mkVector3 x y z.
Definition source_rotation (node : cgltf_node) : Quaternion :=
  let '(x, y, z, w) := node_rotation node in mkQuaternion x y z w.
Definition source_scale (node : cgltf_node) : Vector3 :=
  let '(x, y, z) := node_scale node in mkVector3 x y z.

(** The number of triangle primitives of a source mesh. *)
Definition triangles_of (mesh : cgltf_mesh) : Z :=
  Z.of_nat (length (List.filter is_triangles (primitives mesh))).

(** An array and its count agree: as many elements as the count says, or a
    null pointer with a count of zero. *)
Definition counted {A} (array : option (list A)) (count : Z) : Prop :=
  match array with
  | Some l => Z.of_nat (length l) = count
  | None => count = 0
  end.

(** The elements of an array, none for a null pointer. *)
Definition elements {A} (array : option (list A)) : list A := default [] array.

(** *** Vertex data *)

(** What the primitive loop makes of the mesh it fills for a primitive: the
    attribute loop, then the indices. *)
Definition fill_mesh (prim : cgltf_primitive) (mesh : Mesh) : Prog.M Log Mesh :=
  Prog.bind (Prog.fold_each (prim_attributes prim) load_attribute mesh) (load_indices prim).

(** The accessor formats the attribute loop accepts. *)
Definition supported_format (attr : cgltf_attribute) : bool :=
  let attribute := attr_data attr in
  match attr_type attr with
  | cgltf_attribute_type_position | cgltf_attribute_type_normal =>
      has_format attribute cgltf_component_type_r_32f cgltf_type_vec3
  | cgltf_attribute_type_tangent =>
      has_format attribute cgltf_component_type_r_32f cgltf_type_vec4
  | cgltf_attribute_type_texcoord =>
      has_format attribute cgltf_component_type_r_32f cgltf_type_vec2
  | cgltf_attribute_type_color =>
      has_format attribute cgltf_component_type_r_8u cgltf_type_vec4
      || has_format attribute cgltf_component_type_r_16u cgltf_type_vec4
      || has_format attribute cgltf_component_type_r_32f cgltf_type_vec4
  | _ => false
  end.

(** The array of a mesh that an attribute goes to, as its length: [None]
    for a null pointer. *)
Definition attribute_array_length (ty : cgltf_attribute_type) (mesh : Mesh) : option nat :=
  match ty with
  | cgltf_attribute_type_position => length <$> vertices mesh
  | cgltf_attribute_type_normal => length <$> normals mesh
  | cgltf_attribute_type_tangent => length <$> tangents mesh
  | cgltf_attribute_type_texcoord => length <$> texcoords mesh
  | cgltf_attribute_type_color => length <$> colors mesh
  | _ => None
  end.

(** The number of components of an element of an attribute. *)
Definition attribute_components (ty : cgltf_attribute_type) : nat :=
  match ty with
  | cgltf_attribute_type_position | cgltf_attribute_type_normal => 3
  | cgltf_attribute_type_tangent | cgltf_attribute_type_color => 4
  | cgltf_attribute_type_texcoord => 2
  | _ => 0
  end.

(** The attributes the importer knows: the others (joints, weights) are
    passed over in silence. *)
Definition is_vertex_attribute (ty : cgltf_attribute_type) : bool :=
  match ty with
  | cgltf_attribute_type_position | cgltf_attribute_type_normal
  | cgltf_attribute_type_tangent | cgltf_attribute_type_texcoord
  | cgltf_attribute_type_color => true
  | _ => false
  end.

(** The index formats the importer reads. *)
Definition supported_index_format (accesor : cgltf_accessor) : bool :=
  bool_decide (acc_component_type accesor = cgltf_component_type_r_16u)
  || bool_decide (acc_component_type accesor = cgltf_component_type_r_32u).

(** The vertex data of a mesh: everything but its indices and its triangle
    count. *)
Definition vertex_data (m : Mesh)
  : Z * option (list float) * option (list float) * option (list float)
    * option (list float) * option (list Z) * Z * option (list Z) :=
  (vertexCount m, vertices m, texcoords m, normals m, tangents m, colors m, vaoId m, vboId m).

(** *** Images and material maps *)

Fixpoint no_comma (s : string) : bool :=
  match s with
  | EmptyString => true
  | String c s' => negb (Ascii.eqb c ","%char) && no_comma s'
  end.

(** [src] with another emissive factor. *)
Definition with_emissive_factor (e : float * float * float) (src : cgltf_material)
  : cgltf_material :=
  mk_cgltf_material (has_pbr_metallic_roughness src) (pbr_metallic_roughness src)
    (normal_texture src) (occlusion_texture src) (emissive_texture src) e.

(** The maps of [mat'] are those of [mat], map [j] changed by [F j];
    nothing else differs. *)
Definition maps_via (F : Z -> MaterialMap -> MaterialMap) (mat mat' : Material) : Prop :=
  shader mat' = shader mat /\ params mat' = params mat /\
  length (maps mat') = length (maps mat) /\
  forall j, at_index (maps mat') j = F j <$> at_index (maps mat) j.

Definition only_at (k : Z) (f : MaterialMap -> MaterialMap) (j : Z) (mm : MaterialMap)
  : MaterialMap :=
  if decide (j = k) then f mm else mm.

Section CollaboratorVocabulary.

Context `{Raylib}.

(** The draws of a traversal: the mesh indices of the leaves reached from
    [node_id], in the order of the walk, each with the product of the
    transforms on its path. *)
Fixpoint node_draws (fuel : nat) (model : GLTFModel) (node_id : Z) (T : Matrix)
  : list (Z * Matrix) :=
  if (0 <=? node_id) && (node_id <? nodeCount model) then
    match ns ← nodes model; at_index ns node_id with
    | Some node =>
        let T' := MatrixMultiply (transformMatrix node) T in
        if 0 <? childrenCount node then
          match fuel with
          | O => []
          | S fuel' =>
              concat ((fun child => node_draws fuel' model child T')
                        <$> take (Z.to_nat (childrenCount node)) (children node))
          end
        else (fun j => (j, T')) <$> seqZ (meshStart node) (meshEnd node - meshStart node)
    | None => []
    end
  else [].

(** A mesh as "Load our model data" leaves it: zeroed, with its array of
    vertex buffer ids. *)
Definition blank_mesh : Mesh := set_vboId (RL_CALLOC MAX_MESH_VERTEX_BUFFERS 0) zero_Mesh.

(** [mesh] is what the primitive loop makes of a blank mesh for [prim]. *)
Definition filled_by (prim : cgltf_primitive) (mesh : Mesh) : Prop :=
  exists log1 log2, fill_mesh prim blank_mesh log1 = Some (mesh, log2).

(** The first meshes of the cursor are filled from the primitives seen, the
    others are still blank. *)
Definition cursor_filled (n : nat) (seen : list cgltf_primitive) (cur : MeshCursor) : Prop :=
  exists filled,
    Forall2 filled_by seen filled /\
    cur_meshes cur = filled ++ replicate (n - length seen) blank_mesh.

(** The texture of a material map after "load the image of this texture
    view and, when it has data, upload it": [before] is the texture the map
    had. *)
Definition texture_from (view : cgltf_texture_view) (texPath : string) (before after : Texture)
  : Prop :=
  match tv_texture view with
  | None => after = before
  | Some img =>
      exists im log1 log2,
        LoadImageFromCgltfImage img texPath log1 = Some (im, log2) /\
        after = match image_data im with
                | Some _ => LoadTextureFromImage im
                | None => before
                end
  end.

(** [t] changes the texture of a map as [texture_from] says, and nothing
    else. *)
Definition texture_only (view : cgltf_texture_view) (texPath : string)
    (t : MaterialMap -> MaterialMap) : Prop :=
  forall mm, color (t mm) = color mm /\ value (t mm) = value mm /\
             texture_from view texPath (texture mm) (texture (t mm)).

End CollaboratorVocabulary.

(** ** A small instance of the collaborators, to run the definitions *)

Module Toy.

Definition fadd (x y : float) : float := SFadd 24 128 x y.
Definition fsub (x y : float) : float := SFsub 24 128 x y.

Definition identity : Matrix :=
  mkMatrix f32_one f32_zero f32_zero f32_zero
           f32_zero f32_one f32_zero f32_zero
           f32_zero f32_zero f32_one f32_zero
           f32_zero f32_zero f32_zero f32_one.

Definition dot4 (a0 a1 a2 a3 b0 b1 b2 b3 : float) : float :=
  fadd (fadd (fadd (fmul a0 b0) (fmul a1 b1)) (fmul a2 b2)) (fmul a3 b3).

Definition multiply (l r : Matrix) : Matrix :=
  mkMatrix
    (dot4 (m0 l) (m1 l) (m2 l) (m3 l) (m0 r) (m4 r) (m8 r) (m12 r))
    (dot4 (m4 l) (m5 l) (m6 l) (m7 l) (m0 r) (m4 r) (m8 r) (m12 r))
    (dot4 (m8 l) (m9 l) (m10 l) (m11 l) (m0 r) (m4 r) (m8 r) (m12 r))
    (dot4 (m12 l) (m13 l) (m14 l) (m15 l) (m0 r) (m4 r) (m8 r) (m12 r))
    (dot4 (m0 l) (m1 l) (m2 l) (m3 l) (m1 r) (m5 r) (m9 r) (m13 r))
    (dot4 (m4 l) (m5 l) (m6 l) (m7 l) (m1 r) (m5 r) (m9 r) (m13 r))
    (dot4 (m8 l) (m9 l) (m10 l) (m11 l) (m1 r) (m5 r) (m9 r) (m13 r))
    (dot4 (m12 l) (m13 l) (m14 l) (m15 l) (m1 r) (m5 r) (m9 r) (m13 r))
    (dot4 (m0 l) (m1 l) (m2 l) (m3 l) (m2 r) (m6 r) (m10 r) (m14 r))
    (dot4 (m4 l) (m5 l) (m6 l) (m7 l) (m2 r) (m6 r) (m10 r) (m14 r))
    (dot4 (m8 l) (m9 l) (m10 l) (m11 l) (m2 r) (m6 r) (m10 r) (m14 r))
    (dot4 (m12 l) (m13 l) (m14 l) (m15 l) (m2 r) (m6 r) (m10 r) (m14 r))
    (dot4 (m0 l) (m1 l) (m2 l) (m3 l) (m3 r) (m7 r) (m11 r) (m15 r))
    (dot4 (m4 l) (m5 l) (m6 l) (m7 l) (m3 r) (m7 r) (m11 r) (m15 r))
    (dot4 (m8 l) (m9 l) (m10 l) (m11 l) (m3 r) (m7 r) (m11 r) (m15 r))
    (dot4 (m12 l) (m13 l) (m14 l) (m15 l) (m3 r) (m7 r) (m11 r) (m15 r)).

Definition translate (x y z : float) : Matrix :=
  mkMatrix f32_one f32_zero f32_zero x
           f32_zero f32_one f32_zero y
           f32_zero f32_zero f32_one z
           f32_zero f32_zero f32_zero f32_one.

Definition scaling (x y z : float) : Matrix :=
  mkMatrix x f32_zero f32_zero f32_zero
           f32_zero y f32_zero f32_zero
           f32_zero f32_zero z f32_zero
           f32_zero f32_zero f32_zero f32_one.

Definition two : float := f32_of_Z 2.

Definition of_quaternion (q : Quaternion) : Matrix :=
  let a2 := fmul (qx q) (qx q) in
  let b2 := fmul (qy q) (qy q) in
  let c2 := fmul (qz q) (qz q) in
  let ac := fmul (qx q) (qz q) in
  let ab := fmul (qx q) (qy q) in
  let bc := fmul (qy q) (qz q) in
  let ad := fmul (qw q) (qx q) in
  let bd := fmul (qw q) (qy q) in
  let cd := fmul (qw q) (qz q) in
  mkMatrix
    (fsub f32_one (fmul two (fadd b2 c2))) (fmul two (fsub ab cd)) (fmul two (fadd ac bd)) f32_zero
    (fmul two (fadd ab cd)) (fsub f32_one (fmul two (fadd a2 c2))) (fmul two (fsub bc ad)) f32_zero
    (fmul two (fsub ac bd)) (fmul two (fadd bc ad)) (fsub f32_one (fmul two (fadd a2 b2))) f32_zero
    f32_zero f32_zero f32_zero f32_one.

Definition white_map : MaterialMap := mkMaterialMap (mkTexture 1 1 1 1 7) WHITE f32_zero.
Definition blank_map : MaterialMap := mkMaterialMap zero_Texture zero_Color f32_zero.

Definition default_material : Material :=
  mkMaterial (mkShader 3 []) (white_map :: white_map :: replicate 10 blank_map)
             [f32_zero; f32_zero; f32_zero; f32_zero].

Definition cube : Mesh :=
  mkMesh 24 12 (Some []) (Some []) (Some []) None None (Some []) 0 (Some [0; 0; 0; 0; 0; 0; 0]).

Definition upload (m : Mesh) : Mesh :=
  mkMesh (vertexCount m) (triangleCount m) (vertices m) (texcoords m) (normals m) (tangents m)
         (colors m) (indices m) 1 (vboId m).

(** No file system, no image decoder and no trigonometry: images come out
    empty and the rotation about an axis is the identity. *)
#[local] Instance raylib : Raylib := {|
  MatrixIdentity := identity;
  MatrixMultiply := multiply;
  MatrixTranslate := translate;
  MatrixScale := scaling;
  MatrixRotate := fun _ _ => identity;
  QuaternionToMatrix := of_quaternion;
  DEG2RAD := float_of_bits 1016003125;
  LoadMaterialDefault := default_material;
  LoadImage := fun _ => zero_Image;
  LoadImageFromMemory := fun _ bytes _ => mkImage (Some bytes) 1 1 1 7;
  LoadTextureFromImage := fun im => mkTexture 2 (image_width im) (image_height im) 1 7;
  GenMeshCube := fun _ _ _ => cube;
  UploadMesh := upload;
  GetDirectoryPath := fun s => s;
  TextFormat_path := fun d u => (d ++ "/" ++ u)%string;
  cgltf_load_buffer_base64 := fun _ _ => None;
  SUPPORT_MESH_GENERATION := true;
  MAX_MESH_VERTEX_BUFFERS := 7
|}.

End Toy.

(** ** Example inputs *)

Module Samples.

Import Toy.

Definition lines_primitive : cgltf_primitive :=
  mk_cgltf_primitive cgltf_primitive_type_lines None None [].

Definition triangles_primitive (material : option Z) : cgltf_primitive :=
  mk_cgltf_primitive cgltf_primitive_type_triangles None material [].

Definition no_texture : cgltf_texture_view := mk_cgltf_texture_view None.

Definition half : float := float_of_bits 1056964608.

(** A red, half-rough material without any texture. *)
Definition red_material : cgltf_material :=
  mk_cgltf_material true
    (mk_cgltf_pbr no_texture no_texture (f32_one, f32_zero, f32_zero, f32_one) f32_one half)
    no_texture no_texture no_texture (f32_zero, f32_zero, f32_zero).

(** A node that carries no mesh, no child and no TRS property; cgltf fills
    the unused arrays with its own defaults. *)
Definition plain_node : cgltf_node :=
  mk_cgltf_node [] None false false false
    (f32_zero, f32_zero, f32_zero) (f32_zero, f32_zero, f32_zero, f32_one)
    (f32_one, f32_one, f32_one).

(** One mesh made of a line list and a triangle list. *)
Definition mixed_file : cgltf_data :=
  mk_cgltf_data cgltf_file_type_gltf
    [mk_cgltf_mesh [lines_primitive; triangles_primitive None]] [] [] [] 0 true.

(** One mesh made of two line lists. *)
Definition lines_only_file : cgltf_data :=
  mk_cgltf_data cgltf_file_type_gltf
    [mk_cgltf_mesh [lines_primitive; lines_primitive]] [] [] [] 0 true.

(** Two materials; triangles that use the second one, none, and a material
    that is not in the file's array. *)
Definition materials_file : cgltf_data :=
  mk_cgltf_data cgltf_file_type_glb
    [mk_cgltf_mesh [triangles_primitive (Some 1); triangles_primitive None];
     mk_cgltf_mesh [triangles_primitive (Some 5)]]
    [red_material; red_material] [plain_node] [] 0 true.

(** The 32-bit indices 0, 70000, 3, tightly packed. *)
Definition index_bytes : list Byte.byte :=
  [Byte.x00; Byte.x00; Byte.x00; Byte.x00;
   Byte.x70; Byte.x11; Byte.x01; Byte.x00;
   Byte.x03; Byte.x00; Byte.x00; Byte.x00].

Definition index_accessor (ct : cgltf_component_type) (stride : Z) : cgltf_accessor :=
  mk_cgltf_accessor ct cgltf_type_scalar 0 3 stride
    (Some (mk_cgltf_buffer_view (mk_cgltf_buffer (Some index_bytes)) 0 12 0)).

Definition indexed_primitive (ct : cgltf_component_type) (stride : Z) : cgltf_primitive :=
  mk_cgltf_primitive cgltf_primitive_type_triangles (Some (index_accessor ct stride)) None [].

Definition red : Color := mkColor 255 0 0 255.
Definition grey : Color := mkColor 128 128 128 255.

Definition red_map : MaterialMap := mkMaterialMap zero_Texture red f32_zero.

Definition red_drawn : Material :=
  mkMaterial (mkShader 3 []) [red_map] [].

(** A root with one child, the child owning mesh 0; the root's own mesh
    range also names mesh 0. *)
Definition two_nodes : GLTFModel :=
  mkGLTFModel identity 1 1 (Some [cube]) (Some [red_drawn]) (Some [0])
    2 (Some [mkGLTFNode 1 [1] 0 1 zero_Transform identity;
             mkGLTFNode 0 [] 0 1 zero_Transform (translate f32_one f32_zero f32_zero)])
    1 (Some [mkGLTFScene 1 [0]]) 0.

(** [red_drawn] while it is drawn with the [grey] tint. *)
Definition red_tinted : Material :=
  mkMaterial (mkShader 3 []) [mkMaterialMap zero_Texture (mkColor 128 0 0 255) f32_zero] [].

(** The child's transform under the identity. *)
Definition child_transform : Matrix :=
  multiply (translate f32_one f32_zero f32_zero) (multiply identity identity).


(** Two nodes that are each other's child. *)
Definition looping : GLTFModel :=
  mkGLTFModel identity 1 1 (Some [cube]) (Some [red_drawn]) (Some [0])
    2 (Some [mkGLTFNode 1 [1] 0 1 zero_Transform identity;
             mkGLTFNode 1 [0] 0 1 zero_Transform identity])
    1 (Some [mkGLTFScene 1 [0]]) 0.

(** A material with an emissive texture, read from a file. *)
Definition glow_image : cgltf_image := mk_cgltf_image (Some "glow.png"%string) None None.

Definition glowing_material : cgltf_material :=
  mk_cgltf_material true
    (mk_cgltf_pbr no_texture no_texture (f32_one, f32_one, f32_one, f32_one) f32_one half)
    no_texture no_texture (mk_cgltf_texture_view (Some glow_image)) (f32_one, half, f32_zero).

(** One element of three 32-bit values over [index_bytes]. *)
Definition position_accessor : cgltf_accessor :=
  mk_cgltf_accessor cgltf_component_type_r_32f cgltf_type_vec3 0 1 12
    (Some (mk_cgltf_buffer_view (mk_cgltf_buffer (Some index_bytes)) 0 12 0)).

Definition position_attribute : cgltf_attribute :=
  mk_cgltf_attribute cgltf_attribute_type_position position_accessor.

(** A root without a mesh, and its child with mesh 0; one scene, of the
    root.  Mesh 0 has a triangle list with the red material, mesh 1 a line
    list and a triangle list. *)
Definition scene_file : cgltf_data :=
  mk_cgltf_data cgltf_file_type_gltf
    [mk_cgltf_mesh [triangles_primitive (Some 0)];
     mk_cgltf_mesh [lines_primitive; triangles_primitive None]]
    [red_material]
    [mk_cgltf_node [1] None false false false
       (f32_zero, f32_zero, f32_zero) (f32_zero, f32_zero, f32_zero, f32_one)
       (f32_one, f32_one, f32_one);
     mk_cgltf_node [] (Some 0) true false false
       (f32_one, f32_zero, f32_zero) (f32_zero, f32_zero, f32_zero, f32_one)
       (f32_one, f32_one, f32_one)]
    [mk_cgltf_scene [0]] 0 true.

(** The root is above its child. *)
Definition scene_rank (node_id : Z) : nat := if node_id =? 0 then 1%nat else 0%nat.

(** A file that parses but has no mesh, no node and no scene. *)
Definition empty_file : cgltf_data :=
  mk_cgltf_data cgltf_file_type_gltf [] [] [] [] 0 true.

(** An image in a data URI, and one in bytes 4..7 of [index_bytes]. *)
Definition uri_image : cgltf_image :=
  mk_cgltf_image (Some "data:image/jpeg;base64,AAAA"%string) None None.

Definition embedded_image : cgltf_image :=
  mk_cgltf_image None
    (Some (mk_cgltf_buffer_view (mk_cgltf_buffer (Some index_bytes)) 4 4 0))
    (Some "image/jpeg"%string).
End Samples.

(** * Properties *)

(** ** Running programs *)

Lemma bind_Some {S A B} (m : Prog.M S A) (k : A -> Prog.M S B) s y :
  Prog.bind m k s = Some y <-> exists x s', m s = Some (x, s') /\ k x s' = Some y.
Proof.
  unfold Prog.bind. destruct (m s) as [[x s']|]; split.
  - intros Hk. exists x, s'. auto.
  - intros (x' & s'' & Heq & Hk). congruence.
  - discriminate.
  - intros (x' & s'' & Heq & _). discriminate.
Qed.

Lemma defined_Some {S A} (o : option A) (s s' : S) x :
  Prog.defined o s = Some (x, s') <-> o = Some x /\ s' = s.
Proof.
  destruct o as [y|]; simpl; unfold Prog.ret, Prog.undefined; split.
  - intros [= <- <-]. auto.
  - intros [[= <-] ->]. reflexivity.
  - discriminate.
  - intros [Hx _]. discriminate.
Qed.

Lemma ret_Some {S A} (x y : A) (s s' : S) :
  Prog.ret x s = Some (y, s') <-> y = x /\ s' = s.
Proof. unfold Prog.ret. split; [intros [= <- <-]|intros [-> ->]]; auto. Qed.

Lemma at_index_Some {A} (l : list A) i x :
  at_index l i = Some x <-> 0 <= i /\ l !! Z.to_nat i = Some x.
Proof. unfold at_index. case_decide; intuition (try discriminate; auto). Qed.

Lemma at_index_lt {A} (l : list A) i x :
  at_index l i = Some x -> 0 <= i < Z.of_nat (length l).
Proof.
  rewrite at_index_Some. intros [Hi Hl]. apply lookup_lt_Some in Hl. lia.
Qed.

Lemma store_at_Some {A} (l : list A) i f l' :
  store_at l i f = Some l' <->
  exists x, at_index l i = Some x /\ l' = <[Z.to_nat i := f x]> l.
Proof.
  unfold store_at. destruct (at_index l i) as [x|]; split.
  - intros [= <-]. eauto.
  - intros (x' & [= <-] & ->). reflexivity.
  - discriminate.
  - intros (x' & Hx & _). discriminate.
Qed.

Lemma at_index_store_at {A} (l l' : list A) i j f :
  store_at l i f = Some l' ->
  at_index l' j = if decide (j = i) then f <$> at_index l i else at_index l j.
Proof.
  rewrite store_at_Some. intros (x & Hx & ->).
  pose proof (at_index_lt _ _ _ Hx) as Hlt.
  unfold at_index in *. case_decide; [|discriminate].
  destruct (decide (j = i)) as [->|Hne].
  - case_decide; [|lia]. rewrite Hx. simpl. apply list_lookup_insert_eq. lia.
  - case_decide; [|reflexivity]. apply list_lookup_insert_ne. lia.
Qed.

Lemma length_store_at {A} (l l' : list A) i f :
  store_at l i f = Some l' -> length l' = length l.
Proof. rewrite store_at_Some. intros (x & _ & ->). apply length_insert. Qed.

Ltac prog_inv :=
  repeat match goal with
  | H : Prog.bind _ _ _ = Some _ |- _ =>
      apply bind_Some in H; destruct H as (? & ? & ? & H)
  | H : Prog.defined _ _ = Some (_, _) |- _ =>
      apply defined_Some in H; destruct H as [H ->]
  | H : Prog.ret _ _ = Some (_, _) |- _ =>
      apply ret_Some in H; destruct H as [-> ->]
  | H : Prog.get _ = Some _ |- _ => unfold Prog.get in H
  | H : Prog.put _ _ = Some _ |- _ => unfold Prog.put in H
  | H : Prog.modify _ _ = Some _ |- _ => unfold Prog.modify in H
  | H : Prog.undefined _ = Some _ |- _ => discriminate H
  | H : Some _ = Some _ |- _ => injection H as H
  | H : (_, _) = (_, _) |- _ => injection H as ? ?
  | _ => progress subst
  end.
Lemma insert_insert_id {A} (l : list A) (i : nat) x y :
  l !! i = Some x -> <[i := x]> (<[i := y]> l) = l.
Proof.
  intros Hx. rewrite list_insert_insert_eq. by apply list_insert_id.
Qed.

Lemma set_color_restore c mm : set_color (color mm) (set_color c mm) = mm.
Proof. by destruct mm. Qed.

Lemma with_diffuse_color_restore c mat used dmap :
  at_index (maps mat) MATERIAL_MAP_DIFFUSE = Some dmap ->
  with_diffuse_color c mat = Some used ->
  with_diffuse_color (color dmap) used = Some mat.
Proof.
  unfold with_diffuse_color, set_map. intros Hd Hu.
  destruct (store_at (maps mat) _ _) as [maps'|] eqn:Hs; simplify_eq/=.
  apply store_at_Some in Hs as (x & Hx & ->). simplify_eq.
  apply at_index_Some in Hd as [? Hd].
  unfold store_at, at_index. case_decide; [|lia].
  rewrite list_lookup_insert_eq by (by eapply lookup_lt_Some). simpl.
  rewrite set_color_restore, insert_insert_id by done. by destruct mat.
Qed.

Section RendererFacts.
Context `{Raylib}.

Lemma read_material_run k w mat w' :
  read_material k w = Some (mat, w') <->
  at_index (world_materials w) k = Some mat /\ w' = w.
Proof.
  unfold read_material. split.
  - intros Hrun. prog_inv. auto.
  - intros [Hk ->]. unfold Prog.bind, Prog.get. by rewrite Hk.
Qed.

Lemma write_diffuse_color_run k c w u w' :
  write_diffuse_color k c w = Some (u, w') ->
  exists mat mat',
    at_index (world_materials w) k = Some mat /\
    with_diffuse_color c mat = Some mat' /\
    w' = mkWorld (<[Z.to_nat k := mat']> (world_materials w)) (world_wire w) (world_drawn w).
Proof.
  unfold write_diffuse_color. intros Hrun.
  apply bind_Some in Hrun as (mat & w1 & Hr & Hrun).
  apply read_material_run in Hr as [Hk ->].
  prog_inv.
  match goal with Hs : store_at _ _ _ = Some _ |- _ =>
    apply store_at_Some in Hs as (y & Hy & ->) end.
  eauto 10.
Qed.

Lemma draw_mesh_tinted_run model i T tint w w' u :
  draw_mesh_tinted model i T tint w = Some (u, w') ->
  exists call, is_tinted_draw model (world_materials w) T tint i call /\
               w' = after_draws w [call].
Proof.
  unfold draw_mesh_tinted, read_diffuse_color, DrawMesh.
  intros Hrun.
  apply bind_Some in Hrun as (k & w1 & Hk & Hrun).
  apply defined_Some in Hk as [Hk ->].
  destruct (meshMaterial model) as [mm|] eqn:Hmm; simpl in Hk; [|discriminate].
  apply bind_Some in Hrun as (color0 & w1 & Hc & Hrun).
  apply bind_Some in Hc as (mat & w2 & Hmat & Hc).
  apply read_material_run in Hmat as [Hmat ->].
  apply bind_Some in Hc as (dmap & w2 & Hd & Hc).
  apply defined_Some in Hd as [Hd ->].
  apply ret_Some in Hc as [-> ->].
  apply bind_Some in Hrun as (c' & w2 & Hc' & Hrun).
  apply defined_Some in Hc' as [Hc' ->].
  apply bind_Some in Hrun as (u1 & w2 & Hw & Hrun).
  apply write_diffuse_color_run in Hw as (mat1 & used & Hmat1 & Hused & ->).
  assert (mat1 = mat) as -> by congruence.
  apply bind_Some in Hrun as (mesh & w2 & Hmesh & Hrun).
  apply defined_Some in Hmesh as [Hmesh ->].
  destruct (meshes model) as [ms|] eqn:Hms; simpl in Hmesh; [|discriminate].
  apply bind_Some in Hrun as (mat2 & w2 & Hmat2 & Hrun).
  apply read_material_run in Hmat2 as [Hmat2 ->]. simpl in Hmat2.
  apply bind_Some in Hrun as (u2 & w2 & Hdraw & Hrun).
  unfold Prog.modify in Hdraw. injection Hdraw as <- <-.
  apply write_diffuse_color_run in Hrun as (mat3 & back & Hmat3 & Hback & ->).
  simpl in *.
  assert (Hk0 : 0 <= k) by (apply at_index_Some in Hmat; tauto).
  assert (Hlk : world_materials w !! Z.to_nat k = Some mat)
    by (apply at_index_Some in Hmat; tauto).
  assert (mat2 = used /\ mat3 = used) as [-> ->].
  { unfold at_index in Hmat2, Hmat3. case_decide; [|lia].
    rewrite list_lookup_insert_eq in Hmat2, Hmat3 by (by eapply lookup_lt_Some).
    by simplify_eq. }
  rewrite (with_diffuse_color_restore _ _ _ _ Hd Hused) in Hback. simplify_eq.
  rewrite insert_insert_id by done.
  exists (mkDrawCall mesh used T). split; [|done].
  exists mm, ms, k, back, dmap, c', used, mesh. by repeat split.
Qed.

Lemma after_draws_nil w : after_draws w [] = w.
Proof. destruct w. unfold after_draws. simpl. by rewrite app_nil_r. Qed.

Lemma after_draws_app w xs ys : after_draws (after_draws w xs) ys = after_draws w (xs ++ ys).
Proof. unfold after_draws. simpl. by rewrite app_assoc. Qed.

(** Drawing a list of meshes issues one tinted draw per mesh, in order, and
    changes nothing else. *)
Lemma draw_meshes_run model T tint js w w' u :
  Prog.for_each js (fun j => draw_mesh_tinted model j T tint) w = Some (u, w') ->
  exists calls, Forall2 (is_tinted_draw model (world_materials w) T tint) js calls /\
                w' = after_draws w calls.
Proof.
  revert w. induction js as [|j js IH]; intros w Hrun; simpl in Hrun.
  - apply ret_Some in Hrun as [-> ->]. exists []. split; [constructor|].
    by rewrite after_draws_nil.
  - apply bind_Some in Hrun as (u1 & w1 & Hj & Hrun).
    apply draw_mesh_tinted_run in Hj as (call & Hcall & ->).
    apply IH in Hrun as (calls & Hcalls & ->).
    exists (call :: calls). split; [by constructor|].
    by rewrite after_draws_app.
Qed.

(** Iterating over the indices [0 .. n-1] of an array and reading each
    element is iterating over the first [n] elements. *)
Lemma for_each_indexed {St A} (l : list A) (body : A -> Prog.M St unit) k n s y :
  0 <= k ->
  Prog.for_each (seqZ k n) (fun i => Prog.bind (Prog.defined (at_index l i)) body) s = Some y ->
  (Z.to_nat n <= length (drop (Z.to_nat k) l))%nat /\
  Prog.for_each (take (Z.to_nat n) (drop (Z.to_nat k) l)) body s = Some y.
Proof.
  destruct (Z.le_gt_cases n 0) as [Hn|Hn].
  { intros _. rewrite seqZ_nil by done. replace (Z.to_nat n) with 0%nat by lia.
    simpl. split; [lia|done]. }
  remember (Z.to_nat n) as m eqn:Hm. revert k n s Hn Hm.
  induction m as [|m IH]; intros k n s Hn Hm Hk Hrun; [lia|].
  rewrite seqZ_cons in Hrun by done. simpl in Hrun.
  apply bind_Some in Hrun as (u1 & s1 & Hx & Hrun).
  apply bind_Some in Hx as (x & s2 & Hx & Hbody).
  apply defined_Some in Hx as [Hx ->].
  apply at_index_Some in Hx as [_ Hx].
  rewrite (drop_S _ _ _ Hx). simpl.
  destruct (decide (m = 0%nat)) as [->|Hm0].
  - rewrite seqZ_nil in Hrun by lia. rewrite take_0. simpl in *.
    split; [lia|]. apply bind_Some. eauto.
  - specialize (IH (Z.succ k) (Z.pred n) s1).
    replace (Z.to_nat (Z.succ k)) with (S (Z.to_nat k)) in IH by lia.
    destruct IH as [Hlen IH]; [lia..|done|].
    split; [lia|]. apply bind_Some. eauto.
Qed.

Lemma keeps_bind {A B} (m : Prog.M World A) (k : A -> Prog.M World B) :
  keeps_materials m -> (forall x, keeps_materials (k x)) -> keeps_materials (Prog.bind m k).
Proof.
  intros Hm Hk w y w' Hrun. apply bind_Some in Hrun as (x & w1 & H1 & H2).
  rewrite (Hk _ _ _ _ H2). eauto.
Qed.

Lemma keeps_ret {A} (x : A) : keeps_materials (Prog.ret x).
Proof. intros w y w' Hrun. by apply ret_Some in Hrun as [-> ->]. Qed.

Lemma keeps_defined {A} (o : option A) : keeps_materials (Prog.defined o).
Proof. intros w y w' Hrun. by apply defined_Some in Hrun as [_ ->]. Qed.

Lemma keeps_undefined {A} : keeps_materials (@Prog.undefined World A).
Proof. intros w y w' Hrun. discriminate. Qed.

Lemma keeps_for_each {A} (l : list A) (body : A -> Prog.M World unit) :
  (forall x, keeps_materials (body x)) -> keeps_materials (Prog.for_each l body).
Proof.
  intros Hbody. induction l as [|x l IH]; simpl.
  - apply keeps_ret.
  - apply keeps_bind; auto.
Qed.

Lemma keeps_draw_mesh_tinted model i T tint :
  keeps_materials (draw_mesh_tinted model i T tint).
Proof.
  intros w u w' Hrun. by apply draw_mesh_tinted_run in Hrun as (call & _ & ->).
Qed.

Lemma keeps_wire_mode : keeps_materials rlEnableWireMode /\ keeps_materials rlDisableWireMode.
Proof. split; intros w u w' [= _ <-]; reflexivity. Qed.

Lemma keeps_DrawGLTFNode fuel model node_id T tint :
  keeps_materials (DrawGLTFNode fuel model node_id T tint).
Proof.
  revert node_id T. induction fuel as [|fuel IH]; intros node_id T; simpl;
    (destruct (_ && _); [|apply keeps_ret]);
    (apply keeps_bind; [apply keeps_defined|intros node]);
    (destruct (0 <? childrenCount node);
      [|apply keeps_for_each; intros j; apply keeps_draw_mesh_tinted]).
  - apply keeps_undefined.
  - apply keeps_for_each. intros i. apply keeps_bind; [apply keeps_defined|]. intros c. apply IH.
Qed.

Lemma keeps_DrawGLTFScene fuel model scene_id T tint :
  keeps_materials (DrawGLTFScene fuel model scene_id T tint).
Proof.
  unfold DrawGLTFScene. destruct (_ && _); [|apply keeps_ret].
  apply keeps_bind; [apply keeps_defined|intros sc].
  apply keeps_for_each. intros i. apply keeps_bind; [apply keeps_defined|].
  intros c. apply keeps_DrawGLTFNode.
Qed.

Lemma keeps_DrawGLTFModelEx fuel model position axis angle scale tint :
  keeps_materials (DrawGLTFModelEx fuel model position axis angle scale tint).
Proof.
  unfold DrawGLTFModelEx. cbv zeta.
  destruct (_ && _).
  - apply keeps_bind; [apply keeps_defined|intros sc].
    destruct (0 <? _); [apply keeps_DrawGLTFScene|].
    apply keeps_for_each. intros j. apply keeps_draw_mesh_tinted.
  - apply keeps_for_each. intros j. apply keeps_draw_mesh_tinted.
Qed.

(** ** Fuel *)

Lemma for_each_ext {St A} (l : list A) (f g : A -> Prog.M St unit) s r :
  (forall x s r, f x s = Some r -> g x s = Some r) ->
  Prog.for_each l f s = Some r -> Prog.for_each l g s = Some r.
Proof.
  intros Hfg. revert s. induction l as [|x l IH]; intros s Hrun; simpl in *; [done|].
  apply bind_Some in Hrun as (u & s1 & Hx & Hrun).
  apply bind_Some. exists u, s1. split; [by apply Hfg|by apply IH].
Qed.

Lemma DrawGLTFNode_unfold fuel model node_id T tint :
  DrawGLTFNode fuel model node_id T tint =
  if (0 <=? node_id) && (node_id <? nodeCount model) then
    Prog.bind (Prog.defined (ns ← nodes model; at_index ns node_id)) (fun node =>
      if 0 <? childrenCount node then
        match fuel with
        | O => Prog.undefined
        | S fuel' =>
            Prog.for_each (seqZ 0 (childrenCount node)) (fun i =>
              Prog.bind (Prog.defined (at_index (children node) i)) (fun child =>
                DrawGLTFNode fuel' model child
                  (MatrixMultiply (transformMatrix node) T) tint))
        end
      else
        Prog.for_each (seqZ (meshStart node) (meshEnd node - meshStart node)) (fun j =>
          draw_mesh_tinted model j (MatrixMultiply (transformMatrix node) T) tint))
  else Prog.ret tt.
Proof. by destruct fuel. Qed.

(** A call that returns with some fuel returns the same with more. *)
Lemma DrawGLTFNode_more_fuel fuel model node_id T tint w r :
  DrawGLTFNode fuel model node_id T tint w = Some r ->
  DrawGLTFNode (S fuel) model node_id T tint w = Some r.
Proof.
  revert node_id T w r. induction fuel as [|fuel IH]; intros node_id T w r;
    rewrite (DrawGLTFNode_unfold (S _)), (DrawGLTFNode_unfold _);
    (destruct (_ && _); [|done]); intros Hrun;
    apply bind_Some in Hrun as (node & w1 & Hnode & Hrun);
    apply bind_Some; exists node, w1; (split; [done|]);
    (destruct (0 <? childrenCount node); [|done]); [done|].
  revert Hrun. apply for_each_ext. intros i s r' Hi.
  apply bind_Some in Hi as (child & s1 & Hchild & Hi).
  apply bind_Some. exists child, s1. split; [done|]. by apply IH.
Qed.

Lemma DrawGLTFScene_more_fuel fuel model scene_id T tint w r :
  DrawGLTFScene fuel model scene_id T tint w = Some r ->
  DrawGLTFScene (S fuel) model scene_id T tint w = Some r.
Proof.
  unfold DrawGLTFScene. destruct (_ && _); [|done]. intros Hrun.
  apply bind_Some in Hrun as (sc & w1 & Hsc & Hrun).
  apply bind_Some. exists sc, w1. split; [done|].
  revert Hrun. apply for_each_ext. intros i s r' Hi.
  apply bind_Some in Hi as (node & s1 & Hnode & Hi).
  apply bind_Some. exists node, s1. split; [done|]. by apply DrawGLTFNode_more_fuel.
Qed.

(** ** Tinting *)

Lemma pairs_check_spec {A} (P : A -> A -> bool) (l : list A) :
  pairs_check P l = true ->
  forall x y, In x l -> In y l -> P x y = true \/ P y x = true.
Proof.
  induction l as [|z l IH]; intros Hall x y Hx Hy; [done|].
  simpl in Hall. apply andb_prop in Hall as [Hz Hl].
  apply andb_prop in Hz as [Hzz Hz].
  rewrite forallb_forall in Hz.
  destruct Hx as [->|Hx], Hy as [->|Hy]; auto.
Qed.

Lemma table_check_spec {A} (f : Z -> A) (P : Z -> A -> Z -> A -> bool) (l : list Z) :
  table_check f P l = true ->
  (forall c qc t qt, P c qc t qt = P t qt c qc) ->
  forall c t, In c l -> In t l -> P c (f c) t (f t) = true.
Proof.
  unfold table_check. intros Hall Hsym c t Hc Ht.
  assert (Hin : forall v, In v l -> In (v, f v) (List.map (fun c => (c, f c)) l)).
  { intros v Hv. apply in_map_iff. by exists v. }
  destruct (pairs_check_spec _ _ Hall _ _ (Hin c Hc) (Hin t Ht)) as [Hp|Hp]; simpl in Hp.
  - done.
  - by rewrite Hsym.
Qed.

Lemma dmul_comm x y : dmul x y = dmul y x.
Proof.
  unfold dmul, SFmul.
  destruct x as [sx|sx| |sx mx ex], y as [sy|sy| |sy my ey];
    rewrite ?(xorb_comm sx sy); try reflexivity.
  by rewrite (Pos.mul_comm mx my), (Z.add_comm ex ey).
Qed.

Lemma tint_test_sym c qc t qt : tint_test c qc t qt = tint_test t qt c qc.
Proof.
  unfold tint_test. rewrite (dmul_comm qc qt).
  destruct (uchar_of _) as [x|]; [|done]. unfold near_productb.
  rewrite (Z.mul_comm c t). f_equal. apply andb_comm.
Qed.

(** Every pair of channel values, by computation. *)
Lemma tint_check_true : table_check unit_fraction tint_test (seqZ 0 256) = true.
Proof. vm_compute. reflexivity. Qed.

Lemma near_productb_spec c t o :
  near_productb c t o = true -> exists x, o = Some x /\ near_product c t x.
Proof.
  destruct o as [x|]; [|discriminate]. unfold near_productb, near_product.
  cbv zeta. intros Hb. exists x. split; [done|].
  repeat (apply andb_prop in Hb as [Hb ?]).
  repeat match goal with Hc : (_ && _) = true |- _ => apply andb_prop in Hc as [? ?] end.
  split_and!.
  - lia.
  - lia.
  - intros Hm. destruct ((c * t) mod 255 =? 0) eqn:E; lia.
  - intros ->. destruct (255 =? 255) eqn:E; lia.
  - intros ->. destruct (255 =? 255) eqn:E; lia.
Qed.

Lemma tint_channel_near c t :
  valid_channel c -> valid_channel t ->
  exists x, tint_channel c t = Some x /\ near_product c t x.
Proof.
  intros Hc Ht. apply near_productb_spec.
  assert (Hin : forall v, valid_channel v -> In v (seqZ 0 256)).
  { intros v Hv. apply list_elem_of_In, elem_of_seqZ. unfold valid_channel in Hv. lia. }
  exact (table_check_spec _ _ _ tint_check_true tint_test_sym c t (Hin c Hc) (Hin t Ht)).
Qed.

Lemma tint_color_near c tint :
  valid_color c -> valid_color tint ->
  exists x, tint_color c tint = Some x /\ near_product_color c tint x.
Proof.
  intros (Hr & Hg & Hb & Ha) (Tr & Tg & Tb & Ta).
  destruct (tint_channel_near _ _ Hr Tr) as (xr & Er & Nr).
  destruct (tint_channel_near _ _ Hg Tg) as (xg & Eg & Ng).
  destruct (tint_channel_near _ _ Hb Tb) as (xb & Eb & Nb).
  destruct (tint_channel_near _ _ Ha Ta) as (xa & Ea & Na).
  exists (mkColor xr xg xb xa). unfold tint_color. rewrite Er, Eg, Eb, Ea. simpl.
  split; [done|]. unfold near_product_color. simpl. tauto.
Qed.

Lemma with_diffuse_color_read c mat used :
  with_diffuse_color c mat = Some used -> diffuse_color used = Some c.
Proof.
  unfold with_diffuse_color, diffuse_color, set_map. intros Hu.
  destruct (store_at (maps mat) _ _) as [maps'|] eqn:Hs; simplify_eq/=.
  rewrite (at_index_store_at _ _ _ MATERIAL_MAP_DIFFUSE _ Hs).
  case_decide; [|done].
  apply store_at_Some in Hs as (x & -> & _). by destruct x.
Qed.

Lemma with_diffuse_color_defined c mat dmap :
  at_index (maps mat) MATERIAL_MAP_DIFFUSE = Some dmap ->
  exists used, with_diffuse_color c mat = Some used.
Proof.
  intros Hd. unfold with_diffuse_color, set_map, store_at. rewrite Hd. simpl. eauto.
Qed.

Lemma write_diffuse_color_defined k c w mat used :
  at_index (world_materials w) k = Some mat ->
  with_diffuse_color c mat = Some used ->
  write_diffuse_color k c w
  = Some (tt, mkWorld (<[Z.to_nat k := used]> (world_materials w)) (world_wire w)
                      (world_drawn w)).
Proof.
  intros Hmat Hused. unfold write_diffuse_color, read_material, with_diffuse_color in *.
  unfold Prog.bind, Prog.get, Prog.put. rewrite Hmat. simpl. rewrite Hused. simpl.
  unfold store_at. by rewrite Hmat.
Qed.

(** With its mesh, its material and the diffuse map of that material in
    place, and with colours in 0..255, the draw of a mesh is defined. *)
Lemma draw_mesh_tinted_defined model i T tint w mm ms k mat dmap mesh :
  meshMaterial model = Some mm -> at_index mm i = Some k ->
  at_index (world_materials w) k = Some mat ->
  at_index (maps mat) MATERIAL_MAP_DIFFUSE = Some dmap ->
  meshes model = Some ms -> at_index ms i = Some mesh ->
  valid_color (color dmap) -> valid_color tint ->
  exists call, draw_mesh_tinted model i T tint w = Some (tt, after_draws w [call]).
Proof.
  intros Hmm Hk Hmat Hd Hms Hmesh Hvc Hvt.
  destruct (tint_color_near _ _ Hvc Hvt) as (c' & Hc' & _).
  destruct (with_diffuse_color_defined c' _ _ Hd) as [used Hused].
  pose proof (with_diffuse_color_restore _ _ _ _ Hd Hused) as Hback.
  assert (Hk0 : 0 <= k) by (apply at_index_Some in Hmat; tauto).
  assert (Hlk : world_materials w !! Z.to_nat k = Some mat)
    by (apply at_index_Some in Hmat; tauto).
  exists (mkDrawCall mesh used T).
  unfold draw_mesh_tinted, read_diffuse_color.
  rewrite Hmm, Hms. simpl. rewrite Hk, Hmesh.
  unfold Prog.bind at 1. simpl.
  unfold Prog.bind at 1. unfold read_material at 1.
  unfold Prog.bind at 1. unfold Prog.bind at 1. unfold Prog.get at 1. rewrite Hmat. simpl.
  rewrite Hd. simpl.
  unfold Prog.bind at 1. rewrite Hc'. simpl.
  unfold Prog.bind at 1. rewrite (write_diffuse_color_defined _ _ _ _ _ Hmat Hused).
  unfold Prog.bind at 1. simpl.
  unfold Prog.bind at 1. unfold read_material at 1.
  unfold Prog.bind at 1. unfold Prog.get at 1. simpl.
  assert (Hused_at : at_index (<[Z.to_nat k := used]> (world_materials w)) k = Some used).
  { apply at_index_Some. split; [done|]. apply list_lookup_insert_eq.
    by eapply lookup_lt_Some. }
  rewrite Hused_at. simpl.
  unfold Prog.bind at 1. unfold DrawMesh, Prog.modify. simpl.
  erewrite write_diffuse_color_defined; [|exact Hused_at|exact Hback]. simpl.
  rewrite insert_insert_id by done. reflexivity.
Qed.

(** C5 (as amended).  Each mesh is drawn with its material's diffuse colour
    replaced by the tinted colour: every channel is the product of the
    stored channel and the tint channel, both taken as fractions of 255,
    rescaled by 255 in double precision and truncated.  For channels in
    0..255 the result is the integer part of [c*t/255], except that it may
    fall one short when 255 divides [c*t]; it is exact when either factor is
    255. *)
Theorem tint_composition model i T tint w w' u :
  valid_color tint ->
  draw_mesh_tinted model i T tint w = Some (u, w') ->
  exists call k mat dmap c',
    w' = after_draws w [call] /\
    drawn_transform call = T /\
    (mm ← meshMaterial model; at_index mm i) = Some k /\
    at_index (world_materials w) k = Some mat /\
    at_index (maps mat) MATERIAL_MAP_DIFFUSE = Some dmap /\
    tint_color (color dmap) tint = Some c' /\
    with_diffuse_color c' mat = Some (drawn_material call) /\
    diffuse_color (drawn_material call) = Some c' /\
    (valid_color (color dmap) -> near_product_color (color dmap) tint c').
Proof.
  intros Htint Hrun.
  apply draw_mesh_tinted_run in Hrun as (call & Hcall & ->).
  destruct Hcall as (mm & ms & k & mat & dmap & c' & used & mesh &
    Hmm & Hk & Hmat & Hd & Hc' & Hused & Hms & Hmesh & ->).
  exists (mkDrawCall mesh used T), k, mat, dmap, c'. simpl.
  split_and!; try done.
  - by rewrite Hmm.
  - by eapply with_diffuse_color_read.
  - intros Hvalid. destruct (tint_color_near _ _ Hvalid Htint) as (x & Hx & Hnear).
    congruence.
Qed.

(** C6.  Whatever public drawing function is called, with whatever tint,
    when the call returns the material array is what it was before the call:
    the tinted colour lives only for the duration of each mesh draw. *)
Theorem draw_restores_materials fuel model tint entry w w' u :
  run_entry fuel model tint entry w = Some (u, w') ->
  world_materials w' = world_materials w.
Proof.
  enough (keeps_materials (run_entry fuel model tint entry)) as Hkeeps by eauto.
  destruct keeps_wire_mode as [Hon Hoff].
  destruct entry; simpl;
    unfold DrawGLTFModelWires, DrawGLTFModelWiresEx, DrawGLTFNodeWires, DrawGLTFSceneWires,
      DrawGLTFModel;
    repeat (apply keeps_bind; [|intros ?]);
    auto using keeps_DrawGLTFNode, keeps_DrawGLTFScene, keeps_DrawGLTFModelEx.
Qed.

(** C10.  With a node index outside [0, nodeCount) [DrawGLTFNode], and with a
    scene index outside [0, sceneCount) [DrawGLTFScene], return at once: the
    world (materials, wire mode, draw calls) is untouched, and since this
    holds for every model, including one whose arrays are null, no array
    element is read. *)
Theorem out_of_range_is_noop fuel model node_id scene_id T tint w :
  node_id < 0 \/ nodeCount model <= node_id ->
  scene_id < 0 \/ sceneCount model <= scene_id ->
  DrawGLTFNode fuel model node_id T tint w = Some (tt, w) /\
  DrawGLTFScene fuel model scene_id T tint w = Some (tt, w).
Proof.
  intros Hn Hs. split.
  - assert (((0 <=? node_id) && (node_id <? nodeCount model)) = false) as E.
    { apply andb_false_iff. destruct Hn; [left|right]; lia. }
    destruct fuel; simpl; by rewrite E.
  - assert (((0 <=? scene_id) && (scene_id <? sceneCount model)) = false) as E.
    { apply andb_false_iff. destruct Hs; [left|right]; lia. }
    unfold DrawGLTFScene. by rewrite E.
Qed.

End RendererFacts.

(** *** The renderer on an example *)

Lemma tint_composition_witness :
  exists call k mat dmap c',
    after_draws (world_of Samples.two_nodes)
      [mkDrawCall Toy.cube Samples.red_tinted Toy.identity]
      = after_draws (world_of Samples.two_nodes) [call] /\
    drawn_transform call = Toy.identity /\
    (mm ← meshMaterial Samples.two_nodes; at_index mm 0) = Some k /\
    at_index (world_materials (world_of Samples.two_nodes)) k = Some mat /\
    at_index (maps mat) MATERIAL_MAP_DIFFUSE = Some dmap /\
    tint_color (color dmap) Samples.grey = Some c' /\
    with_diffuse_color c' mat = Some (drawn_material call) /\
    diffuse_color (drawn_material call) = Some c' /\
    (valid_color (color dmap) -> near_product_color (color dmap) Samples.grey c').
Proof.
  apply (tint_composition Samples.two_nodes 0 Toy.identity Samples.grey
           (world_of Samples.two_nodes) _ tt).
  - unfold valid_color, valid_channel. simpl. lia.
  - vm_compute. reflexivity.
Defined.

(** The example of the specification: base colour (255,0,0,255) under the
    tint (128,128,128,255) is drawn as (128,0,0,255). *)
Example tint_example :
  tint_color Samples.red Samples.grey = Some (mkColor 128 0 0 255).
Proof. vm_compute. reflexivity. Qed.

(** C5, as stated, fails: the stored channel 17 under the tint channel 195 is
    drawn as 12, while 17/255 * 195/255 * 255 is exactly 13. *)
Lemma tint_is_not_the_product :
  tint_color (mkColor 17 0 0 255) (mkColor 195 255 255 255) = Some (mkColor 12 0 0 255) /\
  17 * 195 = 13 * 255 /\
  ~ (forall c t, valid_channel c -> valid_channel t -> tint_channel c t = Some (c * t / 255)).
Proof.
  split; [vm_compute; reflexivity|]. split; [reflexivity|].
  intros Hall. specialize (Hall 17 195).
  assert (tint_channel 17 195 = Some 12) as E by (vm_compute; reflexivity).
  rewrite E in Hall. unfold valid_channel in Hall.
  assert (Some 12 = Some (17 * 195 / 255)) as Habs by (apply Hall; lia).
  vm_compute in Habs. discriminate Habs.
Qed.

Lemma draw_restores_materials_witness :
  exists w',
    run_entry (H := Toy.raylib) 1 Samples.two_nodes Samples.grey
      (CallDrawGLTFModelWires zero_Vector3 f32_one) (world_of Samples.two_nodes)
      = Some (tt, w') /\
    world_drawn w' <> [] /\
    world_materials w' = world_materials (world_of Samples.two_nodes).
Proof.
  eexists. split; [vm_compute; reflexivity|]. split; [discriminate|].
  apply (@draw_restores_materials Toy.raylib 1 Samples.two_nodes Samples.grey
           (CallDrawGLTFModelWires zero_Vector3 f32_one) (world_of Samples.two_nodes) _ tt).
  vm_compute. reflexivity.
Defined.

Lemma out_of_range_is_noop_witness :
  DrawGLTFNode (H := Toy.raylib) 0 Samples.two_nodes 2 Toy.identity Samples.grey
    (world_of Samples.two_nodes) = Some (tt, world_of Samples.two_nodes) /\
  DrawGLTFScene (H := Toy.raylib) 0 Samples.two_nodes (-1) Toy.identity Samples.grey
    (world_of Samples.two_nodes) = Some (tt, world_of Samples.two_nodes).
Proof.
  apply (@out_of_range_is_noop Toy.raylib); simpl; lia.
Defined.

(** ** The importer *)

Section ImporterFacts.
Context `{Raylib}.

Lemma set_map_lookup mat k f mat' j :
  set_map mat k f = Some mat' ->
  at_index (maps mat') j = if decide (j = k) then f <$> at_index (maps mat) k
                           else at_index (maps mat) j.
Proof.
  unfold set_map. intros Hs.
  destruct (store_at (maps mat) k f) as [maps'|] eqn:E; simplify_eq/=.
  by apply at_index_store_at.
Qed.

Lemma set_map_defined mat k f mat' :
  set_map mat k f = Some mat' -> is_Some (at_index (maps mat) k).
Proof.
  unfold set_map. intros Hs.
  destruct (store_at (maps mat) k f) as [maps'|] eqn:E; simplify_eq/=.
  apply store_at_Some in E as (x & -> & _). eauto.
Qed.

(** Loading a texture into a map changes neither a colour nor a value. *)
Lemma load_map_texture_lookup mat k img texPath log mat' log' j :
  load_map_texture mat k img texPath log = Some (mat', log') ->
  color <$> at_index (maps mat') j = color <$> at_index (maps mat) j /\
  value <$> at_index (maps mat') j = value <$> at_index (maps mat) j.
Proof.
  unfold load_map_texture. intros Hrun.
  apply bind_Some in Hrun as (im & log1 & _ & Hrun).
  destruct (image_data im).
  - apply defined_Some in Hrun as [Hs ->].
    rewrite (set_map_lookup _ _ _ _ j Hs). case_decide; [subst|done].
    by destruct (at_index (maps mat) k).
  - by apply ret_Some in Hrun as [-> ->].
Qed.

Lemma optional_texture_lookup (o : option cgltf_image) mat k texPath log mat' log' :
  match o with
  | Some img => load_map_texture mat k img texPath
  | None => Prog.ret mat
  end log = Some (mat', log') ->
  forall j,
    color <$> at_index (maps mat') j = color <$> at_index (maps mat) j /\
    value <$> at_index (maps mat') j = value <$> at_index (maps mat) j.
Proof.
  destruct o as [img|]; intros Hrun j.
  - by eapply load_map_texture_lookup.
  - by apply ret_Some in Hrun as [-> ->].
Qed.

Lemma set_color_lookup mat k (c : MaterialMap -> Color) mat' j :
  set_map mat k (fun mm => set_color (c mm) mm) = Some mat' ->
  color <$> at_index (maps mat') j
    = (if decide (j = k) then c <$> at_index (maps mat) k else color <$> at_index (maps mat) j) /\
  value <$> at_index (maps mat') j = value <$> at_index (maps mat) j.
Proof.
  intros Hs. rewrite (set_map_lookup _ _ _ _ j Hs).
  case_decide; [subst|done]. by destruct (at_index (maps mat) k).
Qed.

Lemma set_value_lookup mat k v mat' j :
  set_map mat k (set_value v) = Some mat' ->
  color <$> at_index (maps mat') j = color <$> at_index (maps mat) j /\
  value <$> at_index (maps mat') j
    = (if decide (j = k) then Some v else value <$> at_index (maps mat) j).
Proof.
  intros Hs. rewrite (set_map_lookup _ _ _ _ j Hs).
  destruct (set_map_defined _ _ _ _ Hs) as [mm Hmm].
  case_decide; [subst|done]. by rewrite Hmm.
Qed.

Lemma factor_to_uchar_Some f c :
  factor_to_uchar f = Some c -> trunc (fmul f (f32_of_Z 255)) = Some c /\ 0 <= c <= 255.
Proof.
  unfold factor_to_uchar, uchar_of. destruct (trunc _) as [z|]; [|done].
  destruct (_ && _) eqn:E; [|done]. intros [= ->]. split; [done|lia].
Qed.

(** C8.  For a material in the metallic-roughness workflow the albedo map
    colour is the base-colour factor, each channel multiplied by 255 and
    truncated.  The roughness and metalness map values are the roughness and
    metallic factors when the material has a metallic-roughness texture;
    without that texture they stay those of the default material, and the
    import does not depend on the two factors at all. *)
Theorem material_factors src fileName log mat log' :
  has_pbr_metallic_roughness src = true ->
  load_material src fileName log = Some (mat, log') ->
  let pbr := pbr_metallic_roughness src in
  (exists cr cg cb ca,
     trunc (fmul (base_color_factor pbr).1.1.1 (f32_of_Z 255)) = Some cr /\
     trunc (fmul (base_color_factor pbr).1.1.2 (f32_of_Z 255)) = Some cg /\
     trunc (fmul (base_color_factor pbr).1.2 (f32_of_Z 255)) = Some cb /\
     trunc (fmul (base_color_factor pbr).2 (f32_of_Z 255)) = Some ca /\
     color <$> at_index (maps mat) MATERIAL_MAP_ALBEDO = Some (mkColor cr cg cb ca)) /\
  (is_Some (tv_texture (metallic_roughness_texture pbr)) ->
     value <$> at_index (maps mat) MATERIAL_MAP_ROUGHNESS = Some (roughness_factor pbr) /\
     value <$> at_index (maps mat) MATERIAL_MAP_METALNESS = Some (metallic_factor pbr)) /\
  (tv_texture (metallic_roughness_texture pbr) = None ->
     value <$> at_index (maps mat) MATERIAL_MAP_ROUGHNESS
       = value <$> at_index (maps LoadMaterialDefault) MATERIAL_MAP_ROUGHNESS /\
     value <$> at_index (maps mat) MATERIAL_MAP_METALNESS
       = value <$> at_index (maps LoadMaterialDefault) MATERIAL_MAP_METALNESS /\
     forall roughness metallic,
       load_material (with_factors roughness metallic src) fileName log = Some (mat, log')).
Proof.
  intros Hpbr Hrun. cbv zeta.
  assert (Hsame : tv_texture (metallic_roughness_texture (pbr_metallic_roughness src)) = None ->
            forall roughness metallic,
              load_material (with_factors roughness metallic src) fileName log
              = load_material src fileName log).
  { intros Hnone roughness metallic. unfold load_material, with_factors. simpl.
    rewrite Hpbr, Hnone. reflexivity. }
  pose proof Hrun as Hrun0.
  unfold load_material in Hrun. rewrite Hpbr in Hrun. cbv zeta in Hrun.
  destruct (base_color_factor (pbr_metallic_roughness src)) as [[[f0 f1] f2] f3] eqn:Hbase.
  simpl.
  apply bind_Some in Hrun as (mat0 & log0 & H0 & Hrun).
  pose proof (optional_texture_lookup _ _ _ _ _ _ _ H0) as H0'; clear H0; rename H0' into H0.
  apply bind_Some in Hrun as (cr & ? & Hcr & Hrun). apply defined_Some in Hcr as [Hcr ->].
  apply bind_Some in Hrun as (mat1 & ? & H1 & Hrun). apply defined_Some in H1 as [H1 ->].
  apply bind_Some in Hrun as (cg & ? & Hcg & Hrun). apply defined_Some in Hcg as [Hcg ->].
  apply bind_Some in Hrun as (mat2 & ? & H2 & Hrun). apply defined_Some in H2 as [H2 ->].
  apply bind_Some in Hrun as (cb & ? & Hcb & Hrun). apply defined_Some in Hcb as [Hcb ->].
  apply bind_Some in Hrun as (mat3 & ? & H3 & Hrun). apply defined_Some in H3 as [H3 ->].
  apply bind_Some in Hrun as (ca & ? & Hca & Hrun). apply defined_Some in Hca as [Hca ->].
  apply bind_Some in Hrun as (mat4 & ? & H4 & Hrun). apply defined_Some in H4 as [H4 ->].
  apply bind_Some in Hrun as (mat5 & log5 & H5 & Hrun).
  apply bind_Some in Hrun as (mat6 & log6 & H6 & Hrun).
  pose proof (optional_texture_lookup _ _ _ _ _ _ _ H6) as H6'; clear H6; rename H6' into H6.
  apply bind_Some in Hrun as (mat7 & log7 & H7 & Hrun).
  pose proof (optional_texture_lookup _ _ _ _ _ _ _ H7) as H7'; clear H7; rename H7' into H7.
  assert (Hemis : (forall j, j <> MATERIAL_MAP_EMISSION ->
            color <$> at_index (maps mat) j = color <$> at_index (maps mat7) j) /\
          (forall j, value <$> at_index (maps mat) j = value <$> at_index (maps mat7) j)).
  { destruct (tv_texture (emissive_texture src)) as [img|].
    - apply bind_Some in Hrun as (e0 & ? & He0 & Hrun).
      pose proof (fun j => load_map_texture_lookup _ _ _ _ _ _ _ j He0) as He0'.
      destruct (emissive_factor src) as [[x0 x1] x2].
      apply bind_Some in Hrun as (er & ? & Her & Hrun). apply defined_Some in Her as [Her ->].
      apply bind_Some in Hrun as (e1 & ? & He1 & Hrun). apply defined_Some in He1 as [He1 ->].
      apply bind_Some in Hrun as (eg & ? & Heg & Hrun). apply defined_Some in Heg as [Heg ->].
      apply bind_Some in Hrun as (e2 & ? & He2 & Hrun). apply defined_Some in He2 as [He2 ->].
      apply bind_Some in Hrun as (eb & ? & Heb & Hrun). apply defined_Some in Heb as [Heb ->].
      apply bind_Some in Hrun as (e3 & ? & He3 & Hrun). apply defined_Some in He3 as [He3 ->].
      apply defined_Some in Hrun as [He4 ->].
      pose proof (fun j => set_color_lookup _ _ _ _ j He1) as He1'.
      pose proof (fun j => set_color_lookup _ _ _ _ j He2) as He2'.
      pose proof (fun j => set_color_lookup _ _ _ _ j He3) as He3'.
      pose proof (fun j => set_color_lookup _ _ _ _ j He4) as He4'.
      split; intros j; [intros Hj|].
      + destruct (He4' j) as [-> _], (He3' j) as [-> _], (He2' j) as [-> _],
          (He1' j) as [-> _]. repeat case_decide; try done. apply He0'.
      + destruct (He4' j) as [_ ->], (He3' j) as [_ ->], (He2' j) as [_ ->],
          (He1' j) as [_ ->]. apply He0'.
    - apply ret_Some in Hrun as [-> ->]. done. }
  destruct Hemis as [Hcol Hval]. clear Hrun.
  assert (Hmr : (forall j, color <$> at_index (maps mat5) j = color <$> at_index (maps mat4) j) /\
                match tv_texture (metallic_roughness_texture (pbr_metallic_roughness src)) with
                | Some _ =>
                    value <$> at_index (maps mat5) MATERIAL_MAP_ROUGHNESS
                      = Some (roughness_factor (pbr_metallic_roughness src)) /\
                    value <$> at_index (maps mat5) MATERIAL_MAP_METALNESS
                      = Some (metallic_factor (pbr_metallic_roughness src))
                | None => mat5 = mat4
                end).
  { destruct (tv_texture (metallic_roughness_texture _)) as [img|].
    - apply bind_Some in H5 as (t0 & ? & Ht0 & H5).
      pose proof (fun j => load_map_texture_lookup _ _ _ _ _ _ _ j Ht0) as Ht0'.
      apply bind_Some in H5 as (t1 & ? & Ht1 & H5). apply defined_Some in Ht1 as [Ht1 ->].
      apply defined_Some in H5 as [Ht2 ->].
      pose proof (fun j => set_value_lookup _ _ _ _ j Ht1) as Ht1'.
      pose proof (fun j => set_value_lookup _ _ _ _ j Ht2) as Ht2'.
      split_and!.
      + intros j. destruct (Ht2' j) as [-> _], (Ht1' j) as [-> _]. apply Ht0'.
      + destruct (Ht2' MATERIAL_MAP_ROUGHNESS) as [_ ->].
        destruct (Ht1' MATERIAL_MAP_ROUGHNESS) as [_ ->].
        by repeat case_decide.
      + destruct (Ht2' MATERIAL_MAP_METALNESS) as [_ ->]. by case_decide.
    - apply ret_Some in H5 as [-> ->]. done. }
  destruct Hmr as [Hcol5 Hval5]. clear H5.
  assert (Hval4 : forall j, value <$> at_index (maps mat4) j
                            = value <$> at_index (maps LoadMaterialDefault) j).
  { intros j.
    destruct (set_color_lookup _ _ _ _ j H4) as [_ ->].
    destruct (set_color_lookup _ _ _ _ j H3) as [_ ->].
    destruct (set_color_lookup _ _ _ _ j H2) as [_ ->].
    destruct (set_color_lookup _ _ _ _ j H1) as [_ ->]. apply H0. }
  assert (Hlater : forall j, value <$> at_index (maps mat) j = value <$> at_index (maps mat5) j).
  { intros j. rewrite Hval. destruct (H7 j) as [_ ->]. by destruct (H6 j) as [_ ->]. }
  split_and!.
  - apply factor_to_uchar_Some in Hcr as [Hcr _], Hcg as [Hcg _], Hcb as [Hcb _],
      Hca as [Hca _].
    exists cr, cg, cb, ca. split_and!; try done.
    rewrite Hcol by done. destruct (H7 MATERIAL_MAP_ALBEDO) as [-> _].
    destruct (H6 MATERIAL_MAP_ALBEDO) as [-> _]. rewrite Hcol5.
    rewrite (set_map_lookup _ _ _ _ MATERIAL_MAP_ALBEDO H4).
    rewrite (set_map_lookup _ _ _ _ MATERIAL_MAP_ALBEDO H3).
    rewrite (set_map_lookup _ _ _ _ MATERIAL_MAP_ALBEDO H2).
    rewrite (set_map_lookup _ _ _ _ MATERIAL_MAP_ALBEDO H1).
    destruct (set_map_defined _ _ _ _ H1) as [mm ->].
    repeat case_decide; try done; by destruct mm.
  - intros [img Himg]. rewrite Himg in Hval5. by rewrite !Hlater.
  - intros Hnone. rewrite Hnone in Hval5. subst mat5. rewrite !Hlater, !Hval4.
    split; [reflexivity|]. split; [reflexivity|].
    intros roughness metallic. rewrite Hsame by exact Hnone. exact Hrun0.
Qed.

Lemma concat_singletons {A} (rows : list (list A)) :
  Forall (fun row => length row = 1%nat) rows -> length (concat rows) = length rows.
Proof.
  induction 1 as [|row rows Hrow _ IH]; simpl; [done|].
  rewrite length_app. lia.
Qed.

(** A scalar accessor yields one value per element. *)
Lemma LOAD_ATTRIBUTE_scalar_length accesor sz l :
  LOAD_ATTRIBUTE accesor 1 sz = Some l -> length l = Z.to_nat (acc_count accesor).
Proof.
  unfold LOAD_ATTRIBUTE. intros Hl.
  destruct (acc_buffer_view accesor) as [view|]; [|done]. simpl in Hl.
  destruct (buffer_data (bv_buffer view)) as [bytes|]; [|done]. simpl in Hl.
  destruct (mapM _ (seqZ 0 (acc_count accesor))) as [rows|] eqn:Hrows; [|done].
  simpl in Hl. injection Hl as <-.
  pose proof (length_mapM _ _ _ Hrows) as Hlen. rewrite length_seqZ in Hlen.
  rewrite Hlen. apply concat_singletons.
  apply mapM_Some_1 in Hrows. clear Hlen.
  induction Hrows as [|k row ks rows Hk _ IH]; constructor; [|done].
  case_decide; [|done]. simpl in Hk.
  destruct (read_element _ _ _); simpl in Hk; [|done].
  unfold mret, option_ret in Hk. by injection Hk as <-.
Qed.


(** The index step inside the primitive loop: the mesh stored for a
    triangle primitive with 32-bit indices has them modulo 65536, and the
    warning is in the log. *)
Lemma index_narrowing_in_loop data prim attribute cur log cur' log' :
  prim_type prim = cgltf_primitive_type_triangles ->
  prim_indices prim = Some attribute ->
  acc_component_type attribute = cgltf_component_type_r_32u ->
  load_primitive data prim cur log = Some (cur', log') ->
  exists temp mesh,
    LOAD_ATTRIBUTE attribute 1 4 = Some temp /\
    at_index (cur_meshes cur') (meshIndex cur) = Some mesh /\
    indices mesh = Some ((fun v => v mod 65536) <$> temp) /\
    has_warning "MODEL: [%s] Indices data converted from u32 to u16, possible loss of data" log'.
Proof.
  intros Htri Hind Hct Hrun. unfold load_primitive in Hrun.
  rewrite Htri in Hrun. rewrite bool_decide_eq_true_2 in Hrun by done.
  apply bind_Some in Hrun as (mesh0 & ? & Hmesh0 & Hrun).
  apply defined_Some in Hmesh0 as [Hmesh0 ->].
  apply bind_Some in Hrun as (mesh1 & log1 & _ & Hrun).
  apply bind_Some in Hrun as (mesh2 & log2 & Hidx & Hrun).
  apply bind_Some in Hrun as (meshes' & ? & Hst & Hrun).
  apply defined_Some in Hst as [Hst ->].
  apply bind_Some in Hrun as (mm' & log3 & Hmat & Hrun).
  apply ret_Some in Hrun as [-> ->]. simpl.
  assert (log3 = log2) as ->.
  { destruct (matching_material data prim).
    - by apply defined_Some in Hmat as [_ ->].
    - by apply ret_Some in Hmat as [_ ->]. }
  unfold load_indices in Hidx. rewrite Hind in Hidx. cbv zeta in Hidx.
  rewrite Hct in Hidx. simpl in Hidx.
  apply bind_Some in Hidx as (temp & ? & Htemp & Hidx).
  apply defined_Some in Htemp as [Htemp ->].
  apply bind_Some in Hidx as (u & log4 & Hlog & Hidx).
  apply ret_Some in Hidx as [-> ->]. injection Hlog as _ <-.
  exists temp,
    (set_indices (to_ushort <$> temp)
       (set_triangleCount (cdiv (to_int (acc_count attribute)) 3) mesh1)).
  split_and!; [done| |reflexivity|].
  - rewrite (at_index_store_at _ _ _ (meshIndex cur) _ Hst). rewrite decide_True by done.
    by rewrite Hmesh0.
  - unfold has_warning. apply in_or_app. right. by left.
Qed.

(** *** Mesh and material indices *)

Lemma matching_material_slot data prim :
  match matching_material data prim with Some m => m + 1 | None => 0 end
  = material_slot data prim.
Proof.
  unfold matching_material, material_slot.
  destruct (List.find _ _) as [x|] eqn:Hfind.
  - apply find_some in Hfind as [Hin Hx].
    apply bool_decide_eq_true in Hx. rewrite Hx.
    apply list_elem_of_In, elem_of_seqZ in Hin. case_decide; [done|lia].
  - destruct (prim_material prim) as [m|]; [|done].
    case_decide; [|done].
    pose proof (find_none _ _ Hfind m) as Hnone. simpl in Hnone.
    rewrite bool_decide_eq_false in Hnone. exfalso. apply Hnone; [|done].
    apply list_elem_of_In, elem_of_seqZ. lia.
Qed.

Lemma material_slot_range data prim :
  0 <= material_slot data prim <= Z.of_nat (length (materials_ data)).
Proof.
  unfold material_slot. destruct (prim_material prim); [|lia]. case_decide; lia.
Qed.

Lemma to_int_range z : - INT_MAX - 1 <= to_int z <= INT_MAX.
Proof.
  unfold to_int, to_uint, INT_MAX.
  pose proof (Z.mod_pos_bound z 4294967296). case_match; lia.
Qed.

Lemma to_int_small z : - INT_MAX - 1 <= z <= INT_MAX -> to_int z = z.
Proof.
  unfold to_int, to_uint, INT_MAX. intros Hz.
  case_match; Z.div_mod_to_equations; lia.
Qed.

Lemma to_uint_small z : 0 <= z <= UINT_MAX -> to_uint z = z.
Proof. unfold to_uint, UINT_MAX. intros Hz. apply Z.mod_small. lia. Qed.

Lemma primitivesCount_range data : - INT_MAX - 1 <= primitivesCount data <= INT_MAX.
Proof.
  unfold primitivesCount.
  assert (Hgen : forall l z, - INT_MAX - 1 <= z <= INT_MAX ->
            - INT_MAX - 1 <=
              fold_left (fun n mesh => to_int (n + to_int (Z.of_nat (length (primitives mesh)))))
                        l z <= INT_MAX).
  { induction l as [|x l IH]; intros z Hz; simpl; [done|]. apply IH, to_int_range. }
  apply Hgen. unfold INT_MAX. lia.
Qed.

(** As long as it fits an [int], [primitivesCount] is the number of
    primitives of the file, whatever their type. *)
Lemma primitivesCount_all data :
  Z.of_nat (length (concat (primitives <$> meshes_ data))) <= INT_MAX ->
  primitivesCount data = Z.of_nat (length (concat (primitives <$> meshes_ data))).
Proof.
  unfold primitivesCount.
  assert (Hgen : forall l z, 0 <= z ->
            z + Z.of_nat (length (concat (primitives <$> l))) <= INT_MAX ->
            fold_left (fun n mesh => to_int (n + to_int (Z.of_nat (length (primitives mesh)))))
                      l z
            = z + Z.of_nat (length (concat (primitives <$> l)))).
  { induction l as [|x l IH]; intros z Hz Hsum; [simpl; lia|].
    rewrite fmap_cons in Hsum |- *. cbn [fold_left concat] in Hsum |- *.
    rewrite length_app in Hsum.
    rewrite (to_int_small (Z.of_nat _)) by (unfold INT_MAX in *; lia).
    rewrite to_int_small by (unfold INT_MAX in *; lia).
    rewrite IH by lia. rewrite length_app. lia. }
  intros Hsum. rewrite Hgen; lia.
Qed.

(** The body of a [fold_each] loop keeps an invariant of the elements
    visited so far. *)
Lemma fold_each_invariant {St A B} (I : list A -> B -> Prop)
    (body : A -> B -> Prog.M St B) l visited acc s acc' s' :
  Prog.fold_each l body acc s = Some (acc', s') ->
  I visited acc ->
  (forall visited x acc s acc' s',
     I visited acc -> body x acc s = Some (acc', s') -> I (visited ++ [x]) acc') ->
  I (visited ++ l) acc'.
Proof.
  intros Hrun HI Hbody. revert visited acc s HI Hrun.
  induction l as [|x l IH]; intros visited acc s HI Hrun; simpl in Hrun.
  - apply ret_Some in Hrun as [-> ->]. by rewrite app_nil_r.
  - apply bind_Some in Hrun as (acc1 & s1 & Hx & Hrun).
    replace (visited ++ x :: l) with ((visited ++ [x]) ++ l) by (by rewrite <- app_assoc).
    eapply IH; [|done]. eauto.
Qed.

Lemma load_primitive_cursor data n seen prim cur log cur' log' :
  (n <= Z.to_nat INT_MAX)%nat ->
  cursor_after data n seen cur ->
  load_primitive data prim cur log = Some (cur', log') ->
  cursor_after data n (seen ++ List.filter is_triangles [prim]) cur'.
Proof.
  intros Hn (Hidx & Hlen & Hseen & Hmm) Hrun. unfold load_primitive in Hrun.
  simpl. unfold is_triangles.
  destruct (bool_decide (prim_type prim = cgltf_primitive_type_triangles)).
  2:{ apply ret_Some in Hrun as [-> ->]. by rewrite app_nil_r. }
  apply bind_Some in Hrun as (mesh0 & ? & Hmesh0 & Hrun).
  apply defined_Some in Hmesh0 as [Hmesh0 ->].
  apply bind_Some in Hrun as (mesh1 & log1 & _ & Hrun).
  apply bind_Some in Hrun as (mesh2 & log2 & _ & Hrun).
  apply bind_Some in Hrun as (meshes' & ? & Hst & Hrun).
  apply defined_Some in Hst as [Hst ->].
  apply bind_Some in Hrun as (mm' & log3 & Hmat & Hrun).
  apply ret_Some in Hrun as [-> ->].
  apply at_index_lt in Hmesh0. rewrite Hidx, Hlen in Hmesh0.
  assert (Hmm' : mm' = <[length seen := material_slot data prim]> (cur_meshMaterial cur)).
  { rewrite <- matching_material_slot.
    destruct (matching_material data prim) as [m|].
    - apply defined_Some in Hmat as [Hmat _].
      apply store_at_Some in Hmat as (x & _ & ->). rewrite Hidx. f_equal. lia.
    - apply ret_Some in Hmat as [-> _]. symmetry. apply list_insert_id.
      rewrite Hmm. rewrite lookup_app_r by (by rewrite length_fmap).
      rewrite length_fmap, Nat.sub_diag. apply lookup_replicate_2. lia. }
  unfold cursor_after. simpl. rewrite length_app, (length_store_at _ _ _ _ Hst). simpl.
  split_and!.
  - rewrite Hidx. unfold INT_MAX in Hn. rewrite to_uint_small; unfold UINT_MAX; lia.
  - done.
  - lia.
  - rewrite Hmm', Hmm.
    rewrite insert_app_r_alt by (by rewrite length_fmap).
    rewrite length_fmap, Nat.sub_diag.
    replace (n - length seen)%nat with (S (n - (length seen + 1))) by lia.
    simpl. rewrite fmap_app. simpl. by rewrite <- app_assoc.
Qed.

Lemma load_primitives_cursor data n seen prims cur log cur' log' :
  (n <= Z.to_nat INT_MAX)%nat ->
  cursor_after data n seen cur ->
  Prog.fold_each prims (load_primitive data) cur log = Some (cur', log') ->
  cursor_after data n (seen ++ List.filter is_triangles prims) cur'.
Proof.
  intros Hn Hcur Hrun.
  apply (fold_each_invariant
           (fun visited c => cursor_after data n (seen ++ List.filter is_triangles visited) c)
           _ _ [] _ _ _ _ Hrun).
  - simpl. by rewrite app_nil_r.
  - intros visited x acc s acc' s' Hacc Hx.
    rewrite List.filter_app, app_assoc. by eapply load_primitive_cursor.
Qed.

Lemma load_meshes_cursor data n cur log starts ends cur' log' :
  (n <= Z.to_nat INT_MAX)%nat ->
  cursor_after data n [] cur ->
  load_meshes data cur log = Some ((starts, ends, cur'), log') ->
  cursor_after data n (triangle_primitives data) cur'.
Proof.
  intros Hn Hcur Hrun. unfold load_meshes in Hrun.
  apply (fold_each_invariant
           (fun visited (acc : list Z * list Z * MeshCursor) =>
              cursor_after data n
                (List.filter is_triangles (concat (primitives <$> visited))) acc.2)
           _ _ [] _ _ _ _ Hrun); [done|].
  intros visited mesh [[ss es] c] s [[ss' es'] c'] s' Hacc Hx. simpl in *.
  apply bind_Some in Hx as ([[s0 e0] c0] & s1 & Hmesh & Hx).
  apply ret_Some in Hx as [[= -> -> ->] ->].
  unfold load_mesh in Hmesh.
  apply bind_Some in Hmesh as (c1 & s2 & Hprims & Hmesh).
  apply ret_Some in Hmesh as [[= -> -> ->] ->].
  rewrite fmap_app, concat_app, List.filter_app. simpl. rewrite app_nil_r.
  by eapply load_primitives_cursor.
Qed.

Lemma triangles_before_app ms ms' i :
  (i <= length ms)%nat -> triangles_before (ms ++ ms') i = triangles_before ms i.
Proof. intros Hi. unfold triangles_before. by rewrite take_app_le. Qed.

Lemma triangles_before_all ms :
  triangles_before ms (length ms)
  = Z.of_nat (length (List.filter is_triangles (concat (primitives <$> ms)))).
Proof. unfold triangles_before. by rewrite firstn_all. Qed.

(** The tables [mesh_id_starts] and [mesh_id_ends]: the triangle primitives
    of source mesh [i] are the output meshes from the number of triangle
    primitives before that mesh up to the number before the next one. *)
Lemma load_meshes_ranges data n cur log starts ends cur' log' :
  (n <= Z.to_nat INT_MAX)%nat ->
  cursor_after data n [] cur ->
  load_meshes data cur log = Some ((starts, ends, cur'), log') ->
  starts = (fun i => triangles_before (meshes_ data) i) <$> seq 0 (length (meshes_ data)) /\
  ends = (fun i => triangles_before (meshes_ data) (S i)) <$> seq 0 (length (meshes_ data)).
Proof.
  intros Hn Hcur Hrun. unfold load_meshes in Hrun.
  pose proof (fold_each_invariant
    (fun visited (acc : list Z * list Z * MeshCursor) =>
       cursor_after data n (List.filter is_triangles (concat (primitives <$> visited))) acc.2 /\
       acc.1.1 = (fun i => triangles_before visited i) <$> seq 0 (length visited) /\
       acc.1.2 = (fun i => triangles_before visited (S i)) <$> seq 0 (length visited))
    _ _ [] _ _ _ _ Hrun) as Hinv.
  simpl in Hinv. apply Hinv; [done|]. clear Hinv Hrun.
  intros visited mesh [[ss es] c] s [[ss' es'] c'] s' (Hacc & Hss & Hes) Hx. simpl in *.
  apply bind_Some in Hx as ([[s0 e0] c0] & s1 & Hmesh & Hx).
  apply ret_Some in Hx as [[= -> -> ->] ->].
  unfold load_mesh in Hmesh.
  apply bind_Some in Hmesh as (c1 & s2 & Hprims & Hmesh).
  apply ret_Some in Hmesh as [[= -> -> ->] ->].
  pose proof (load_primitives_cursor _ _ _ _ _ _ _ _ Hn Hacc Hprims) as Hc1.
  assert (Hvis : List.filter is_triangles (concat (primitives <$> visited ++ [mesh]))
                 = List.filter is_triangles (concat (primitives <$> visited))
                   ++ List.filter is_triangles (primitives mesh)).
  { rewrite fmap_app, concat_app, List.filter_app. simpl. by rewrite app_nil_r. }
  rewrite Hvis. split; [done|].
  rewrite length_app, Nat.add_1_r, seq_S, !fmap_app. simpl.
  destruct Hacc as (Hidx & _ & Hseen & _), Hc1 as (Hidx1 & _ & Hseen1 & _).
  rewrite Hidx, Hidx1.
  rewrite !to_int_small by (unfold INT_MAX in *; lia).
  rewrite Hss, Hes. split; f_equal.
  - apply list_fmap_ext. intros i j Hj. apply lookup_seq in Hj as [-> Hj].
    symmetry. apply triangles_before_app. lia.
  - f_equal. rewrite triangles_before_app by done. symmetry. apply triangles_before_all.
  - apply list_fmap_ext. intros i j Hj. apply lookup_seq in Hj as [-> Hj].
    symmetry. apply triangles_before_app. lia.
  - f_equal. rewrite <- Hvis.
    replace (S (length visited)) with (length (visited ++ [mesh]))
      by (rewrite length_app; simpl; lia).
    symmetry. apply triangles_before_all.
Qed.

Lemma LoadGLTFModelFile_parsed data fileName log model log' :
  LoadGLTFModelFile (Parsed data) fileName log = Some (model, log') ->
  meshCount model = primitivesCount data /\
  materialCount model = to_int (to_int (Z.of_nat (length (materials_ data))) + 1) /\
  exists cur,
    cursor_after data (Z.to_nat (primitivesCount data)) (triangle_primitives data) cur /\
    meshes model = Some (cur_meshes cur) /\
    meshMaterial model = Some (cur_meshMaterial cur).
Proof.
  unfold LoadGLTFModelFile. intros Hrun.
  repeat (apply bind_Some in Hrun as (? & ? & ? & Hrun)).
  match goal with
  | Hm : load_meshes _ _ _ = Some (?res, _) |- _ =>
      destruct res as [[starts ends] cur]; rename Hm into Hmeshes
  end.
  repeat (apply bind_Some in Hrun as (? & ? & ? & Hrun)).
  apply ret_Some in Hrun as [-> ->]. simpl.
  split_and!; try done. exists cur. split_and!; try done.
  pose proof (primitivesCount_range data) as Hrange.
  eapply load_meshes_cursor; [lia| |done].
  unfold cursor_after, RL_CALLOC. simpl.
  rewrite length_fmap, length_replicate, Nat.sub_0_r. split_and!; try done. apply Nat.le_0_l.
Qed.

(** X24.  When the file was parsed and has at least one primitive, the
    loaded model has one material index per mesh, each of them in
    [0, materialCount): the mesh of the k-th triangle primitive has the
    position of its material in the file plus one, or 0, the default
    material, when it has no material or one that is not in the file's
    array; the meshes after those have 0. *)
Theorem meshMaterial_in_range data fileName log model log' :
  Z.of_nat (length (materials_ data)) < INT_MAX ->
  0 < primitivesCount data ->
  LoadGLTFModel (Parsed data) fileName log = Some (model, log') ->
  materialCount model = Z.of_nat (length (materials_ data)) + 1 /\
  meshCount model = primitivesCount data /\
  exists mm,
    meshMaterial model = Some mm /\
    Z.of_nat (length mm) = meshCount model /\
    (forall i, 0 <= i < meshCount model ->
       exists v, at_index mm i = Some v /\ 0 <= v < materialCount model) /\
    (forall k prim, triangle_primitives data !! k = Some prim ->
       mm !! k = Some (material_slot data prim)) /\
    (forall k, (length (triangle_primitives data) <= k)%nat ->
       Z.of_nat k < meshCount model -> mm !! k = Some 0).
Proof.
  intros Hmats Hcount Hrun. unfold LoadGLTFModel in Hrun.
  apply bind_Some in Hrun as (model0 & log0 & Hfile & Hrun).
  apply LoadGLTFModelFile_parsed in Hfile as (Hmc & Hmatc & cur & Hcur & Hms & Hmm).
  rewrite (to_int_small (Z.of_nat _)) in Hmatc by (unfold INT_MAX in *; lia).
  rewrite to_int_small in Hmatc by (unfold INT_MAX in *; lia).
  cbv zeta in Hrun.
  apply bind_Some in Hrun as (model1 & log1 & Hup & Hrun).
  simpl in Hup. rewrite Hmc in Hup.
  destruct (primitivesCount data =? 0) eqn:Hz; [lia|].
  apply bind_Some in Hup as (ms & ? & _ & Hup).
  apply bind_Some in Hup as (ms' & ? & _ & Hup).
  apply ret_Some in Hup as [-> ->]. simpl in Hrun. rewrite Hmatc in Hrun.
  destruct (Z.of_nat (length (materials_ data)) + 1 =? 0) eqn:Hz'; [lia|].
  apply ret_Some in Hrun as [-> ->]. simpl.
  destruct Hcur as (Hidx & Hlen & Hseen & Hcur).
  pose proof (primitivesCount_range data) as Hrange.
  assert (Hlenmm : length (cur_meshMaterial cur) = Z.to_nat (primitivesCount data)).
  { rewrite Hcur, length_app, length_fmap, length_replicate. lia. }
  split_and!; try done. exists (cur_meshMaterial cur). split_and!; try done.
  - lia.
  - intros i Hi.
    destruct (lookup_lt_is_Some_2 (cur_meshMaterial cur) (Z.to_nat i)) as [v Hv]; [lia|].
    exists v. split; [apply at_index_Some; split; [lia|done]|].
    rewrite Hcur in Hv. apply lookup_app_Some in Hv as [Hv|[_ Hv]].
    + apply list_lookup_fmap_Some in Hv as (prim & -> & _).
      pose proof (material_slot_range data prim). lia.
    + apply lookup_replicate in Hv as [-> _]. lia.
  - intros k prim Hk. rewrite Hcur. apply lookup_app_l_Some.
    by rewrite list_lookup_fmap, Hk.
  - intros k Hk Hlt. rewrite Hcur, lookup_app_r by (by rewrite length_fmap).
    apply lookup_replicate_2. rewrite length_fmap. lia.
Qed.

(** *** The fallback meshes *)

(** The fallback of [LoadGLTFModel] when the file could not be read or
    parsed: one placeholder mesh, the default material, and a warning. *)
Lemma placeholder_on_failure file fileName :
  file = FileUnreadable \/ file = ParseFailure ->
  exists model log',
    LoadGLTFModel file fileName [] = Some (model, log') /\
    meshCount model = 1 /\
    meshes model = Some [if SUPPORT_MESH_GENERATION
                         then GenMeshCube (f32_of_Z 1) (f32_of_Z 1) (f32_of_Z 1)
                         else zero_Mesh] /\
    materialCount model = 1 /\
    materials model = Some [LoadMaterialDefault] /\
    meshMaterial model = Some [0] /\
    (has_warning "MESH: [%s] Failed to load mesh data, default to cube mesh" log' \/
     has_warning "MESH: [%s] Failed to load mesh data" log').
Proof.
  intros [-> | ->]; unfold LoadGLTFModel, LoadGLTFModelFile, has_warning;
    destruct SUPPORT_MESH_GENERATION eqn:E; simpl;
    unfold Prog.bind, TRACELOG, Prog.modify, Prog.ret; simpl; rewrite ?E; simpl;
    eexists _, _; (split; [reflexivity|]); simpl; split_and!; try done.
  all: auto 10.
Qed.

(** The same fallback when the file was parsed and has no primitive at
    all; the material index array then stays the empty array allocated for
    zero meshes. *)
Lemma placeholder_without_primitives data fileName log model log' :
  primitivesCount data = 0 ->
  LoadGLTFModel (Parsed data) fileName log = Some (model, log') ->
  meshCount model = 1 /\
  meshes model = Some [if SUPPORT_MESH_GENERATION
                       then GenMeshCube (f32_of_Z 1) (f32_of_Z 1) (f32_of_Z 1)
                       else zero_Mesh] /\
  (has_warning "MESH: [%s] Failed to load mesh data, default to cube mesh" log' \/
   has_warning "MESH: [%s] Failed to load mesh data" log') /\
  meshMaterial model = Some [].
Proof.
  intros Hzero Hrun. unfold LoadGLTFModel in Hrun.
  apply bind_Some in Hrun as (model0 & log0 & Hfile & Hrun).
  apply LoadGLTFModelFile_parsed in Hfile as (Hmc & Hmatc & cur & Hcur & Hms & Hmm).
  assert (Hempty : cur_meshMaterial cur = []).
  { destruct Hcur as (_ & _ & Hseen & ->). rewrite Hzero in Hseen |- *. simpl in Hseen.
    destruct (triangle_primitives data); [reflexivity|simpl in Hseen; lia]. }
  rewrite Hempty in Hmm.
  cbv zeta in Hrun.
  apply bind_Some in Hrun as (model1 & log1 & Hup & Hrun).
  assert (Hmesh1 : meshCount model1 = 1 /\
            meshes model1 = Some [if SUPPORT_MESH_GENERATION
                                  then GenMeshCube (f32_of_Z 1) (f32_of_Z 1) (f32_of_Z 1)
                                  else zero_Mesh] /\
            meshMaterial model1 = Some [] /\
            (has_warning "MESH: [%s] Failed to load mesh data, default to cube mesh" log1 \/
             has_warning "MESH: [%s] Failed to load mesh data" log1)).
  { replace (meshCount (set_model_transform MatrixIdentity model0)) with 0 in Hup
      by (by rewrite <- Hzero, <- Hmc).
    change (0 =? 0) with true in Hup. cbv iota in Hup.
    unfold has_warning.
    destruct SUPPORT_MESH_GENERATION;
      apply bind_Some in Hup as (u & log2 & Hlog & Hup);
      apply ret_Some in Hup as [-> ->]; injection Hlog as _ <-;
      (split_and!; [done|done|done|]); [left|right]; apply in_or_app; right; by left. }
  destruct Hmesh1 as (Hc1 & Hm1 & Hmm1 & Hw1).
  assert (Hmono : forall msg, has_warning msg log1 -> has_warning msg log').
  { intros msg Hmsg. destruct (materialCount model1 =? 0).
    - apply bind_Some in Hrun as (u & log2 & Hlog & Hrun).
      apply ret_Some in Hrun as [_ ->]. injection Hlog as _ <-.
      apply in_or_app. by left.
    - by apply ret_Some in Hrun as [_ ->]. }
  assert (Hmodel : meshCount model = 1 /\ meshes model = meshes model1 /\
                   meshMaterial model = Some []).
  { destruct (materialCount model1 =? 0).
    - apply bind_Some in Hrun as (u & log2 & Hlog & Hrun).
      apply ret_Some in Hrun as [-> _].
      change (meshMaterial (set_model_materials 1 [LoadMaterialDefault] model1))
        with (meshMaterial model1). rewrite Hmm1. by split_and!.
    - apply ret_Some in Hrun as [-> _]. by split_and!. }
  destruct Hmodel as (Hc & Hm & Hmm'). rewrite Hm, Hm1.
  split_and!; try done. destruct Hw1; [left|right]; by apply Hmono.
Qed.

(** *** Where the importer departs from the specification *)

(** C2, on a mesh made of a line list and a triangle list: the file has one
    triangle primitive, the mesh loops fill one mesh, and [meshCount] is 2,
    the number of primitives of any kind. *)
Theorem non_triangle_primitives_are_counted fileName :
  exists model log',
    LoadGLTFModelFile (Parsed Samples.mixed_file) fileName [] = Some (model, log') /\
    length (triangle_primitives Samples.mixed_file) = 1%nat /\
    meshCount model = 2 /\
    length <$> meshes model = Some 2%nat.
Proof.
  eexists _, _. split; [vm_compute; reflexivity|]. by split_and!.
Qed.

(** C7, on a mesh made of two line lists: no primitive is a triangle list,
    yet the loaded model has two meshes, none of them the placeholder, and
    no warning is reported. *)
Theorem lines_only_file_gets_no_placeholder fileName :
  exists model log',
    LoadGLTFModel (Parsed Samples.lines_only_file) fileName [] = Some (model, log') /\
    triangle_primitives Samples.lines_only_file = [] /\
    meshCount model = 2 /\
    meshes model
      = Some (replicate 2 (UploadMesh (set_vboId (RL_CALLOC MAX_MESH_VERTEX_BUFFERS 0) zero_Mesh))) /\
    warnings log' = [].
Proof.
  eexists _, _. split; [vm_compute; reflexivity|]. by split_and!.
Qed.

(** C3, on a parsed file without any primitive: the loaded model has one
    mesh, the placeholder, and one material, the default one, but its
    material index array is the one allocated for zero meshes, so mesh 0
    has no material index at all.  The fallback for the materials allocates
    the array; the fallback for the meshes does not. *)
Theorem placeholder_has_no_material_index fileName :
  exists model log',
    LoadGLTFModel (Parsed Samples.empty_file) fileName [] = Some (model, log') /\
    meshCount model = 1 /\
    meshes model = Some [if SUPPORT_MESH_GENERATION
                         then GenMeshCube (f32_of_Z 1) (f32_of_Z 1) (f32_of_Z 1)
                         else zero_Mesh] /\
    materialCount model = 1 /\
    materials model = Some [LoadMaterialDefault] /\
    meshMaterial model = Some [] /\
    (mm ← meshMaterial model; at_index mm 0) = None.
Proof.
  unfold LoadGLTFModel, LoadGLTFModelFile;
    destruct SUPPORT_MESH_GENERATION eqn:E; simpl;
    unfold Prog.bind, TRACELOG, Prog.modify, Prog.ret; simpl; rewrite ?E; simpl;
    eexists _, _; (split; [reflexivity|]); simpl; by split_and!.
Qed.

(** C9, on a node without any TRS property: the translation stored is zero
    and the scale stored is one, but the rotation stored is the zero
    quaternion, which is not the identity rotation (0, 0, 0, 1); the matrix
    is composed from identity matrices. *)
Theorem absent_rotation_is_stored_as_zero starts ends log :
  exists node,
    load_node starts ends Samples.plain_node log = Some (node, log) /\
    translation (transform node) = mkVector3 f32_zero f32_zero f32_zero /\
    scale (transform node) = mkVector3 f32_one f32_one f32_one /\
    rotation (transform node) = mkQuaternion f32_zero f32_zero f32_zero f32_zero /\
    rotation (transform node) <> mkQuaternion f32_zero f32_zero f32_zero f32_one /\
    transformMatrix node
      = MatrixMultiply (MatrixMultiply MatrixIdentity MatrixIdentity) MatrixIdentity.
Proof.
  eexists. split; [vm_compute; reflexivity|]. simpl. by split_and!.
Qed.

End ImporterFacts.

(** *** The importer on examples *)

Lemma material_factors_witness :
  exists mat log',
    load_material (H := Toy.raylib) Samples.red_material "model.gltf" [] = Some (mat, log') /\
    let pbr := pbr_metallic_roughness Samples.red_material in
    (exists cr cg cb ca,
       trunc (fmul (base_color_factor pbr).1.1.1 (f32_of_Z 255)) = Some cr /\
       trunc (fmul (base_color_factor pbr).1.1.2 (f32_of_Z 255)) = Some cg /\
       trunc (fmul (base_color_factor pbr).1.2 (f32_of_Z 255)) = Some cb /\
       trunc (fmul (base_color_factor pbr).2 (f32_of_Z 255)) = Some ca /\
       color <$> at_index (maps mat) MATERIAL_MAP_ALBEDO = Some (mkColor cr cg cb ca)) /\
    (is_Some (tv_texture (metallic_roughness_texture pbr)) ->
       value <$> at_index (maps mat) MATERIAL_MAP_ROUGHNESS = Some (roughness_factor pbr) /\
       value <$> at_index (maps mat) MATERIAL_MAP_METALNESS = Some (metallic_factor pbr)) /\
    (tv_texture (metallic_roughness_texture pbr) = None ->
       value <$> at_index (maps mat) MATERIAL_MAP_ROUGHNESS
         = value <$> at_index (maps (LoadMaterialDefault (Raylib := Toy.raylib)))
                              MATERIAL_MAP_ROUGHNESS /\
       value <$> at_index (maps mat) MATERIAL_MAP_METALNESS
         = value <$> at_index (maps (LoadMaterialDefault (Raylib := Toy.raylib)))
                              MATERIAL_MAP_METALNESS /\
       forall roughness metallic,
         load_material (H := Toy.raylib) (with_factors roughness metallic Samples.red_material)
           "model.gltf" [] = Some (mat, log')).
Proof.
  eexists _, _. split; [vm_compute; reflexivity|].
  eapply (@material_factors Toy.raylib Samples.red_material "model.gltf" []).
  - reflexivity.
  - vm_compute. reflexivity.
Defined.

(** The red material of the example is imported with the albedo colour
    (255, 0, 0, 255); its roughness factor 0.5 is not imported. *)
Example red_material_imported :
  exists mat log',
    load_material (H := Toy.raylib) Samples.red_material "model.gltf" [] = Some (mat, log') /\
    color <$> at_index (maps mat) MATERIAL_MAP_ALBEDO = Some Samples.red /\
    value <$> at_index (maps mat) MATERIAL_MAP_ROUGHNESS = Some f32_zero.
Proof. eexists _, _. split; [vm_compute; reflexivity|]. by split. Qed.


(** The example of the specification: the 32-bit indices 0, 70000, 3 become
    0, 4464, 3, with a warning. *)
Example index_narrowing_example :
  exists mesh',
    load_indices (Samples.indexed_primitive cgltf_component_type_r_32u 4) zero_Mesh []
      = Some (mesh',
              [(LOG_WARNING,
                "MODEL: [%s] Indices data converted from u32 to u16, possible loss of data"%string)])
    /\ indices mesh' = Some [0; 4464; 3].
Proof. eexists. split; [vm_compute; reflexivity|]. reflexivity. Qed.

Lemma meshMaterial_in_range_witness :
  exists model log',
    LoadGLTFModel (H := Toy.raylib) (Parsed Samples.materials_file) "model.glb" []
      = Some (model, log') /\
    materialCount model = Z.of_nat (length (materials_ Samples.materials_file)) + 1 /\
    meshCount model = primitivesCount Samples.materials_file /\
    exists mm,
      meshMaterial model = Some mm /\
      Z.of_nat (length mm) = meshCount model /\
      (forall i, 0 <= i < meshCount model ->
         exists v, at_index mm i = Some v /\ 0 <= v < materialCount model) /\
      (forall k prim, triangle_primitives Samples.materials_file !! k = Some prim ->
         mm !! k = Some (material_slot Samples.materials_file prim)) /\
      (forall k, (length (triangle_primitives Samples.materials_file) <= k)%nat ->
         Z.of_nat k < meshCount model -> mm !! k = Some 0).
Proof.
  eexists _, _. split; [vm_compute; reflexivity|].
  eapply (@meshMaterial_in_range Toy.raylib Samples.materials_file "model.glb" []).
  - vm_compute. reflexivity.
  - vm_compute. reflexivity.
  - vm_compute. reflexivity.
Defined.

(** In that file the three triangle primitives get the material indices
    2, 0 and 0. *)
Example materials_file_indices :
  exists model log',
    LoadGLTFModel (H := Toy.raylib) (Parsed Samples.materials_file) "model.glb" []
      = Some (model, log') /\
    meshMaterial model = Some [2; 0; 0] /\ materialCount model = 3.
Proof. eexists _, _. split; [vm_compute; reflexivity|]. by split. Qed.

(** * Further properties of the code *)

Local Open Scope prog_scope.

(** ** Scenes *)

Lemma bind_congr {St A B} (m : Prog.M St A) (k k' : A -> Prog.M St B) s :
  (forall x s', m s = Some (x, s') -> k x s' = k' x s') ->
  Prog.bind m k s = Prog.bind m k' s.
Proof. unfold Prog.bind. destruct (m s) as [[x s']|]; auto. Qed.

Lemma for_each_indexed_eq {St A} (l : list A) (body : A -> Prog.M St unit) k n s :
  0 <= k ->
  (Z.to_nat n <= length (drop (Z.to_nat k) l))%nat ->
  Prog.for_each (seqZ k n) (fun i => Prog.bind (Prog.defined (at_index l i)) body) s
  = Prog.for_each (take (Z.to_nat n) (drop (Z.to_nat k) l)) body s.
Proof.
  destruct (Z.le_gt_cases n 0) as [Hn|Hn].
  { intros _ _. rewrite seqZ_nil by done. by replace (Z.to_nat n) with 0%nat by lia. }
  remember (Z.to_nat n) as m eqn:Hm. revert k n s Hn Hm.
  induction m as [|m IH]; intros k n s Hn Hm Hk Hlen; [lia|].
  rewrite seqZ_cons by done.
  destruct (drop (Z.to_nat k) l) as [|x rest] eqn:Hdrop; [simpl in Hlen; lia|].
  assert (Hx : at_index l k = Some x).
  { apply at_index_Some. split; [done|].
    rewrite <- (Nat.add_0_r (Z.to_nat k)), <- lookup_drop, Hdrop. done. }
  assert (Hrest : drop (Z.to_nat (Z.succ k)) l = rest).
  { replace (Z.to_nat (Z.succ k)) with (Z.to_nat k + 1)%nat by lia.
    rewrite <- drop_drop, Hdrop. reflexivity. }
  cbn [Prog.for_each take]. rewrite Hx.
  change (Prog.bind (Prog.defined (Some x)) body) with (body x).
  apply bind_congr. intros u s1 _.
  destruct (decide (m = 0%nat)) as [->|Hm0].
  - rewrite seqZ_nil by lia. by rewrite take_0.
  - rewrite <- Hrest. apply (IH (Z.succ k) (Z.pred n)); [lia..|].
    rewrite Hrest. simpl in Hlen. lia.
Qed.

Section SceneFacts.

Context `{Raylib}.

(** X1.  With a scene index inside [0, sceneCount), [DrawGLTFScene] is the
    calls of [DrawGLTFNode] on the first [nodeCount] node ids of that scene,
    in order, each with the caller's transform and tint; it returns exactly
    when the scene is in the array, its node array has [nodeCount] entries
    and these calls return, and then with their result. *)
Theorem DrawGLTFScene_step fuel model scene_id T tint w r :
  0 <= scene_id < sceneCount model ->
  DrawGLTFScene fuel model scene_id T tint w = Some r <->
  exists sc,
    (ss ← scenes model; at_index ss scene_id) = Some sc /\
    (Z.to_nat (scene_nodeCount sc) <= length (scene_nodes_ids sc))%nat /\
    Prog.for_each (take (Z.to_nat (scene_nodeCount sc)) (scene_nodes_ids sc))
      (fun node_id => DrawGLTFNode fuel model node_id T tint) w = Some r.
Proof.
  intros Hrange. unfold DrawGLTFScene.
  assert (((0 <=? scene_id) && (scene_id <? sceneCount model)) = true) as ->
    by (apply andb_true_iff; lia).
  split.
  - intros Hrun. apply bind_Some in Hrun as (sc & w1 & Hsc & Hrun).
    apply defined_Some in Hsc as [Hsc ->]. exists sc. split; [done|].
    apply (for_each_indexed (scene_nodes_ids sc)
             (fun node_id => DrawGLTFNode fuel model node_id T tint)) in Hrun as [Hlen Hrun];
      [|lia].
    by rewrite drop_0 in Hlen, Hrun.
  - intros (sc & Hsc & Hlen & Hrun). apply bind_Some. exists sc, w.
    split; [by rewrite Hsc|].
    rewrite (for_each_indexed_eq (scene_nodes_ids sc)
               (fun node_id => DrawGLTFNode fuel model node_id T tint)); [|lia|by rewrite drop_0].
    by rewrite drop_0.
Qed.
End SceneFacts.

(** ** Wire mode *)

Section WireFacts.

Context `{Raylib}.

Lemma ignores_bind {A B} (m : Prog.M World A) (k : A -> Prog.M World B) :
  ignores_wire m -> (forall x, ignores_wire (k x)) -> ignores_wire (Prog.bind m k).
Proof.
  intros Hm Hk b w. unfold Prog.bind. rewrite Hm.
  destruct (m w) as [[x w1]|]; [apply Hk|done].
Qed.

Lemma ignores_ret {A} (x : A) : ignores_wire (Prog.ret x).
Proof. by intros b w. Qed.

Lemma ignores_defined {A} (o : option A) : ignores_wire (Prog.defined o).
Proof. intros b w. by destruct o. Qed.

Lemma ignores_undefined {A} : ignores_wire (@Prog.undefined World A).
Proof. by intros b w. Qed.

Lemma ignores_for_each {A} (l : list A) (body : A -> Prog.M World unit) :
  (forall x, ignores_wire (body x)) -> ignores_wire (Prog.for_each l body).
Proof.
  intros Hbody. induction l as [|x l IH]; simpl.
  - apply ignores_ret.
  - apply ignores_bind; auto.
Qed.

Lemma ignores_read_material k : ignores_wire (read_material k).
Proof. intros b w. unfold read_material, Prog.bind, Prog.get. simpl.
  by destruct (at_index (world_materials w) k). Qed.

Lemma ignores_write_diffuse_color k c : ignores_wire (write_diffuse_color k c).
Proof.
  intros b w. unfold write_diffuse_color, read_material, Prog.bind, Prog.get, Prog.put. simpl.
  destruct (at_index (world_materials w) k) as [mat|]; [|done]. simpl.
  destruct (set_map mat MATERIAL_MAP_DIFFUSE (set_color c)) as [mat'|]; [|done]. simpl.
  by destruct (store_at (world_materials w) k _).
Qed.

Lemma ignores_draw_mesh_tinted model i T tint : ignores_wire (draw_mesh_tinted model i T tint).
Proof.
  unfold draw_mesh_tinted, read_diffuse_color.
  repeat first
    [ apply ignores_read_material | apply ignores_write_diffuse_color
    | apply ignores_defined | apply ignores_ret
    | apply ignores_bind; [|intros ?] ].
  by intros b w.
Qed.

Lemma ignores_DrawGLTFNode fuel model node_id T tint :
  ignores_wire (DrawGLTFNode fuel model node_id T tint).
Proof.
  revert node_id T. induction fuel as [|fuel IH]; intros node_id T; simpl;
    (destruct (_ && _); [|apply ignores_ret]);
    (apply ignores_bind; [apply ignores_defined|intros node]);
    (destruct (0 <? childrenCount node);
      [|apply ignores_for_each; intros j; apply ignores_draw_mesh_tinted]).
  - apply ignores_undefined.
  - apply ignores_for_each. intros i. apply ignores_bind; [apply ignores_defined|].
    intros c. apply IH.
Qed.

Lemma ignores_DrawGLTFScene fuel model scene_id T tint :
  ignores_wire (DrawGLTFScene fuel model scene_id T tint).
Proof.
  unfold DrawGLTFScene. destruct (_ && _); [|apply ignores_ret].
  apply ignores_bind; [apply ignores_defined|intros sc].
  apply ignores_for_each. intros i. apply ignores_bind; [apply ignores_defined|].
  intros c. apply ignores_DrawGLTFNode.
Qed.

Lemma ignores_DrawGLTFModelEx fuel model position axis angle scale tint :
  ignores_wire (DrawGLTFModelEx fuel model position axis angle scale tint).
Proof.
  unfold DrawGLTFModelEx. cbv zeta.
  destruct (_ && _).
  - apply ignores_bind; [apply ignores_defined|intros sc].
    destruct (0 <? _); [apply ignores_DrawGLTFScene|].
    apply ignores_for_each. intros j. apply ignores_draw_mesh_tinted.
  - apply ignores_for_each. intros j. apply ignores_draw_mesh_tinted.
Qed.

Lemma in_wire_mode (m : Prog.M World unit) w :
  ignores_wire m ->
  Prog.bind rlEnableWireMode (fun _ => Prog.bind m (fun _ => rlDisableWireMode)) w
  = wire_off (m w).
Proof.
  intros Hm. unfold Prog.bind, rlEnableWireMode, rlDisableWireMode, Prog.modify.
  change (mkWorld (world_materials w) true (world_drawn w)) with (set_wire true w).
  rewrite Hm. by destruct (m w) as [[[] w1]|].
Qed.

(** X2.  The four wire variants ([DrawGLTFNodeWires], [DrawGLTFSceneWires],
    [DrawGLTFModelWires], [DrawGLTFModelWiresEx]) return when the plain
    function returns, with the same draw calls and the same materials, and
    they leave the wire mode off, whatever it was before the call. *)
Theorem wires_draw_the_same fuel model tint w :
  (forall node_id T,
     DrawGLTFNodeWires fuel model node_id T tint w
     = wire_off (DrawGLTFNode fuel model node_id T tint w)) /\
  (forall scene_id T,
     DrawGLTFSceneWires fuel model scene_id T tint w
     = wire_off (DrawGLTFScene fuel model scene_id T tint w)) /\
  (forall position scale,
     DrawGLTFModelWires fuel model position scale tint w
     = wire_off (DrawGLTFModel fuel model position scale tint w)) /\
  (forall position rotationAxis rotationAngle scale,
     DrawGLTFModelWiresEx fuel model position rotationAxis rotationAngle scale tint w
     = wire_off (DrawGLTFModelEx fuel model position rotationAxis rotationAngle scale tint w)).
Proof.
  split_and!; intros.
  - apply in_wire_mode, ignores_DrawGLTFNode.
  - apply in_wire_mode, ignores_DrawGLTFScene.
  - apply in_wire_mode, ignores_DrawGLTFModelEx.
  - apply in_wire_mode, ignores_DrawGLTFModelEx.
Qed.

End WireFacts.

(** ** The walk of the node graph *)

Section TraversalFacts.

Context `{Raylib}.

Lemma bind_defined {St A B} (x : A) (k : A -> Prog.M St B) s :
  Prog.bind (Prog.defined (Some x)) k s = k x s.
Proof. reflexivity. Qed.

Lemma for_each_ext_eq {St A} (l : list A) (f g : A -> Prog.M St unit) s :
  (forall x s, f x s = g x s) -> Prog.for_each l f s = Prog.for_each l g s.
Proof.
  intros Hfg. revert s. induction l as [|x l IH]; intros s; simpl; [done|].
  rewrite (bind_congr (f x) _ (fun _ => Prog.for_each l g)) by (intros; apply IH).
  unfold Prog.bind. by rewrite Hfg.
Qed.

Lemma DrawGLTFNode_model_transform fuel model M node_id T tint w :
  DrawGLTFNode fuel (set_model_transform M model) node_id T tint w
  = DrawGLTFNode fuel model node_id T tint w.
Proof.
  revert node_id T w. induction fuel as [|fuel IH]; intros node_id T w;
    rewrite !DrawGLTFNode_unfold; cbn [nodeCount nodes set_model_transform];
    (destruct (_ && _); [|done]); apply bind_congr; intros node w1 _;
    (destruct (0 <? childrenCount node); [|done]); [done|].
  apply for_each_ext_eq. intros i s. apply bind_congr. intros child s1 _. apply IH.
Qed.

Lemma DrawGLTFScene_model_transform fuel model M scene_id T tint w :
  DrawGLTFScene fuel (set_model_transform M model) scene_id T tint w
  = DrawGLTFScene fuel model scene_id T tint w.
Proof.
  unfold DrawGLTFScene. cbn [sceneCount scenes set_model_transform].
  destruct (_ && _); [|done]. apply bind_congr. intros sc w1 _.
  apply for_each_ext_eq. intros i s. apply bind_congr. intros node s1 _.
  apply DrawGLTFNode_model_transform.
Qed.

(** X3.  A call of [DrawGLTFModelEx] that returns has worked with the matrix
    model.transform x ((scale x rotation) x translation).  When the model's
    scene index is outside [0, sceneCount), or that scene has no node, it
    has drawn every mesh of the model once, in index order, under that
    matrix; when the scene has a node, it has done what [DrawGLTFScene]
    does on that scene with that matrix, and it has not drawn the meshes a
    second time. *)
Theorem DrawGLTFModelEx_paths fuel model position rotationAxis rotationAngle scale tint
    w u w' :
  DrawGLTFModelEx fuel model position rotationAxis rotationAngle scale tint w = Some (u, w') ->
  let M := MatrixMultiply (model_transform model)
             (MatrixMultiply
                (MatrixMultiply (MatrixScale (v3x scale) (v3y scale) (v3z scale))
                                (MatrixRotate rotationAxis (fmul rotationAngle DEG2RAD)))
                (MatrixTranslate (v3x position) (v3y position) (v3z position))) in
  let every_mesh_once :=
    exists calls,
      w' = after_draws w calls /\
      Forall2 (is_tinted_draw model (world_materials w) M tint)
              (seqZ 0 (meshCount model)) calls in
  (scene model < 0 \/ sceneCount model <= scene model -> every_mesh_once) /\
  (0 <= scene model < sceneCount model ->
     exists sc,
       (ss ← scenes model; at_index ss (scene model)) = Some sc /\
       (0 < scene_nodeCount sc ->
          DrawGLTFScene fuel model (scene model) M tint w = Some (u, w')) /\
       (scene_nodeCount sc <= 0 -> every_mesh_once)).
Proof.
  unfold DrawGLTFModelEx. cbv zeta.
  cbn [scene sceneCount scenes meshCount model_transform set_model_transform].
  intros Hrun. split.
  - intros Hout.
    assert (((0 <=? scene model) && (scene model <? sceneCount model)) = false) as E.
    { apply andb_false_iff. destruct Hout; [left|right]; lia. }
    rewrite E in Hrun. apply draw_meshes_run in Hrun as (calls & Hcalls & ->). eauto.
  - intros Hin.
    assert (((0 <=? scene model) && (scene model <? sceneCount model)) = true) as E
      by (apply andb_true_iff; lia).
    rewrite E in Hrun.
    apply bind_Some in Hrun as (sc & w1 & Hsc & Hrun).
    apply defined_Some in Hsc as [Hsc ->]. exists sc. split; [done|]. split.
    + intros Hpos. assert ((0 <? scene_nodeCount sc) = true) as E' by lia.
      rewrite E' in Hrun. by rewrite DrawGLTFScene_model_transform in Hrun.
    + intros Hnone. assert ((0 <? scene_nodeCount sc) = false) as E' by lia.
      rewrite E' in Hrun. apply draw_meshes_run in Hrun as (calls & Hcalls & ->). eauto.
Qed.

(** *** The whole traversal *)

Lemma for_each_draws {A} (P : list Material -> Z * Matrix -> DrawCall -> Prop)
    (l : list A) (body : A -> Prog.M World unit) (draws : A -> list (Z * Matrix)) w u w' :
  (forall x w u w', body x w = Some (u, w') ->
     exists calls, w' = after_draws w calls /\ Forall2 (P (world_materials w)) (draws x) calls) ->
  Prog.for_each l body w = Some (u, w') ->
  exists calls,
    w' = after_draws w calls /\ Forall2 (P (world_materials w)) (concat (draws <$> l)) calls.
Proof.
  intros Hbody. revert w. induction l as [|x l IH]; intros w Hrun; simpl in Hrun.
  - apply ret_Some in Hrun as [-> ->]. exists []. split; [by rewrite after_draws_nil|constructor].
  - apply bind_Some in Hrun as (u1 & w1 & Hx & Hrun).
    apply Hbody in Hx as (calls1 & -> & Hcalls1).
    apply IH in Hrun as (calls2 & -> & Hcalls2).
    exists (calls1 ++ calls2). split; [by rewrite after_draws_app|].
    rewrite fmap_cons. simpl. by apply Forall2_app.
Qed.

(** X4.  A call of [DrawGLTFNode] that returns has issued exactly the draws of
    the depth-first walk: the meshes of the leaves reached from the node, in
    the order of the walk, each tinted and under the product of the node
    matrices on its path and the caller's transform; and it has changed
    nothing else. *)
Theorem DrawGLTFNode_traversal fuel model node_id T tint w u w' :
  DrawGLTFNode fuel model node_id T tint w = Some (u, w') ->
  exists calls,
    w' = after_draws w calls /\
    Forall2 (is_tinted_draw_at model (world_materials w) tint)
            (node_draws fuel model node_id T) calls.
Proof.
  revert node_id T w u w'. induction fuel as [|fuel IH]; intros node_id T w u w';
    rewrite DrawGLTFNode_unfold; cbn [node_draws];
    (destruct (_ && _);
      [|intros Hrun; apply ret_Some in Hrun as [-> ->]; exists [];
        split; [by rewrite after_draws_nil|constructor]]);
    intros Hrun; apply bind_Some in Hrun as (node & w1 & Hnode & Hrun);
    apply defined_Some in Hnode as [Hnode ->]; rewrite Hnode; cbv zeta;
    (destruct (0 <? childrenCount node);
      [|apply draw_meshes_run in Hrun as (calls & Hcalls & ->); exists calls;
        split; [done|]; by apply Forall2_fmap_l]).
  - done.
  - apply (for_each_indexed (children node)
             (fun child => DrawGLTFNode fuel model child _ tint)) in Hrun as [_ Hrun]; [|lia].
    rewrite drop_0 in Hrun.
    revert Hrun. apply (for_each_draws (fun mats => is_tinted_draw_at model mats tint)).
    intros child w0 u0 w0'. apply IH.
Qed.

(** *** Cycles *)

Lemma for_each_reaches {St A} (l : list A) (body : A -> Prog.M St unit) x s r :
  Prog.for_each l body s = Some r -> In x l -> exists s1 r1, body x s1 = Some r1.
Proof.
  revert s. induction l as [|y l IH]; intros s Hrun Hx; [done|]. simpl in Hrun.
  apply bind_Some in Hrun as (u1 & s1 & Hy & Hrun).
  destruct Hx as [->|Hx]; eauto.
Qed.

Lemma child_edge_run fuel model a b T tint w r :
  child_edge model a b ->
  DrawGLTFNode fuel model a T tint w = Some r ->
  exists fuel' T' w1 r1,
    fuel = S fuel' /\ DrawGLTFNode fuel' model b T' tint w1 = Some r1.
Proof.
  intros (Ha & node & i & Hnode & Hi & Hb). rewrite DrawGLTFNode_unfold.
  assert (((0 <=? a) && (a <? nodeCount model)) = true) as -> by (apply andb_true_iff; lia).
  intros Hrun. apply bind_Some in Hrun as (node' & w1 & Hnode' & Hrun).
  apply defined_Some in Hnode' as [Hnode' ->]. assert (node' = node) as -> by congruence.
  assert ((0 <? childrenCount node) = true) as E by lia. rewrite E in Hrun.
  destruct fuel as [|fuel]; [done|].
  apply (for_each_reaches _ _ i) in Hrun as (s1 & r1 & Hrun).
  2:{ apply list_elem_of_In, elem_of_seqZ. lia. }
  apply bind_Some in Hrun as (child & s2 & Hchild & Hrun).
  apply defined_Some in Hchild as [Hchild ->]. assert (child = b) as -> by congruence.
  eauto 10.
Qed.

Lemma descendant_run model a b tint :
  tc (child_edge model) a b ->
  forall fuel T w r,
    DrawGLTFNode fuel model a T tint w = Some r ->
    exists fuel' T' w1 r1,
      (fuel' < fuel)%nat /\ DrawGLTFNode fuel' model b T' tint w1 = Some r1.
Proof.
  induction 1 as [a b Hab|a c b Hac _ IH]; intros fuel T w r Hrun.
  - destruct (child_edge_run _ _ _ _ _ _ _ _ Hab Hrun) as (f & T' & w1 & r1 & -> & Hb).
    exists f, T', w1, r1. split; [lia|done].
  - destruct (child_edge_run _ _ _ _ _ _ _ _ Hac Hrun) as (f & T' & w1 & r1 & -> & Hc).
    destruct (IH _ _ _ _ Hc) as (f' & T'' & w2 & r2 & Hlt & Hb).
    exists f', T'', w2, r2. split; [lia|done].
Qed.

(** X5.  On a node that is among its own descendants (a child array that
    leads back to the node), [DrawGLTFNode] does not return: whatever depth
    the recursion is allowed, the call is not finished within it. *)
Theorem cyclic_graph_never_returns fuel model node_id T tint w :
  tc (child_edge model) node_id node_id ->
  DrawGLTFNode fuel model node_id T tint w = None.
Proof.
  intros Hcycle. revert T w.
  induction (lt_wf fuel) as [fuel _ IH]. intros T w.
  destruct (DrawGLTFNode fuel model node_id T tint w) as [r|] eqn:Hrun; [|done].
  destruct (descendant_run _ _ _ _ Hcycle _ _ _ _ Hrun) as (f' & T' & w1 & r1 & Hlt & Hrun').
  by rewrite (IH f' Hlt) in Hrun'.
Qed.

(** *** Enough fuel gives the result *)

Lemma draw_meshes_defined model T tint js w :
  valid_color tint ->
  Forall (mesh_drawable model (world_materials w)) js ->
  exists calls,
    Prog.for_each js (fun j => draw_mesh_tinted model j T tint) w
    = Some (tt, after_draws w calls).
Proof.
  intros Htint. revert w. induction js as [|j js IH]; intros w Hjs.
  - exists []. by rewrite after_draws_nil.
  - apply Forall_cons in Hjs as [Hj Hjs].
    destruct Hj as (mm & ms & k & mat & dmap & mesh & Hmm & Hk & Hmat & Hd & Hms & Hmesh & Hc).
    destruct (draw_mesh_tinted_defined model j T tint w _ _ _ _ _ _
                Hmm Hk Hmat Hd Hms Hmesh Hc Htint) as [call Hcall].
    destruct (IH (after_draws w [call])) as [calls Hcalls]; [done|].
    exists (call :: calls). simpl. unfold Prog.bind. rewrite Hcall, Hcalls.
    by rewrite after_draws_app.
Qed.

Lemma for_each_defined {A} (l : list A) (body : A -> Prog.M World unit)
    (ok : list Material -> A -> Prop) w :
  (forall x w, ok (world_materials w) x ->
     exists calls, body x w = Some (tt, after_draws w calls)) ->
  Forall (ok (world_materials w)) l ->
  exists calls, Prog.for_each l body w = Some (tt, after_draws w calls).
Proof.
  intros Hbody. revert w. induction l as [|x l IH]; intros w Hl.
  - exists []. by rewrite after_draws_nil.
  - apply Forall_cons in Hl as [Hx Hl].
    destruct (Hbody _ _ Hx) as [calls1 Hcalls1].
    destruct (IH (after_draws w calls1)) as [calls2 Hcalls2]; [done|].
    exists (calls1 ++ calls2). simpl. unfold Prog.bind. rewrite Hcalls1, Hcalls2.
    by rewrite after_draws_app.
Qed.

Lemma DrawGLTFNode_defined fuel model node_id T tint w :
  valid_color tint ->
  node_drawable fuel model (world_materials w) node_id ->
  exists calls, DrawGLTFNode fuel model node_id T tint w = Some (tt, after_draws w calls).
Proof.
  intros Htint. revert node_id T w. induction fuel as [|fuel IH]; intros node_id T w;
    rewrite DrawGLTFNode_unfold; cbn [node_drawable];
    (destruct (_ && _); [|intros _; exists []; by rewrite after_draws_nil]);
    (destruct (ns ← nodes model; at_index ns node_id) as [node|]; [|done]);
    rewrite bind_defined;
    (destruct (0 <? childrenCount node) eqn:Hkids;
      [|intros Hok; by apply draw_meshes_defined]).
  - done.
  - intros [Hlen Hok].
    assert (Hloop : forall w0,
      Prog.for_each (seqZ 0 (childrenCount node))
        (fun i => Prog.bind (Prog.defined (at_index (children node) i))
                    (fun child => DrawGLTFNode fuel model child
                                    (MatrixMultiply (transformMatrix node) T) tint)) w0
      = Prog.for_each (take (Z.to_nat (childrenCount node)) (children node))
          (fun child => DrawGLTFNode fuel model child
                          (MatrixMultiply (transformMatrix node) T) tint) w0).
    { intros w0.
      rewrite (for_each_indexed_eq (children node)
                 (fun child => DrawGLTFNode fuel model child _ tint)); [|lia|by rewrite drop_0].
      by rewrite drop_0. }
    rewrite Hloop.
    apply (for_each_defined _ _ (node_drawable fuel model)); [|done].
    intros child w0 Hchild. by apply IH.
Qed.

Lemma DrawGLTFNode_fuel_add extra fuel model node_id T tint w r :
  DrawGLTFNode fuel model node_id T tint w = Some r ->
  DrawGLTFNode (extra + fuel) model node_id T tint w = Some r.
Proof.
  intros Hrun. induction extra as [|extra IH]; [done|].
  by apply DrawGLTFNode_more_fuel.
Qed.

(** *** One step of the walk *)

(** A draw that [is_tinted_draw] describes is the draw the code issues. *)
Lemma draw_mesh_tinted_call model i T tint w call :
  is_tinted_draw model (world_materials w) T tint i call ->
  draw_mesh_tinted model i T tint w = Some (tt, after_draws w [call]).
Proof.
  intros (mm & ms & k & mat & dmap & c' & used & mesh
          & Hmm & Hk & Hmat & Hd & Hc' & Hused & Hms & Hmesh & ->).
  pose proof (with_diffuse_color_restore _ _ _ _ Hd Hused) as Hback.
  assert (Hk0 : 0 <= k) by (apply at_index_Some in Hmat; tauto).
  assert (Hlk : world_materials w !! Z.to_nat k = Some mat)
    by (apply at_index_Some in Hmat; tauto).
  unfold draw_mesh_tinted, read_diffuse_color.
  rewrite Hmm, Hms. simpl. rewrite Hk, Hmesh.
  unfold Prog.bind at 1. simpl.
  unfold Prog.bind at 1. unfold read_material at 1.
  unfold Prog.bind at 1. unfold Prog.bind at 1. unfold Prog.get at 1. rewrite Hmat. simpl.
  rewrite Hd. simpl.
  unfold Prog.bind at 1. rewrite Hc'. simpl.
  unfold Prog.bind at 1. rewrite (write_diffuse_color_defined _ _ _ _ _ Hmat Hused).
  unfold Prog.bind at 1. simpl.
  unfold Prog.bind at 1. unfold read_material at 1.
  unfold Prog.bind at 1. unfold Prog.get at 1. simpl.
  assert (Hused_at : at_index (<[Z.to_nat k := used]> (world_materials w)) k = Some used).
  { apply at_index_Some. split; [done|]. apply list_lookup_insert_eq.
    by eapply lookup_lt_Some. }
  rewrite Hused_at. simpl.
  unfold Prog.bind at 1. unfold DrawMesh, Prog.modify. simpl.
  erewrite write_diffuse_color_defined; [|exact Hused_at|exact Hback]. simpl.
  rewrite insert_insert_id by done. reflexivity.
Qed.

Lemma draw_meshes_calls model T tint js calls w :
  Forall2 (is_tinted_draw model (world_materials w) T tint) js calls ->
  Prog.for_each js (fun j => draw_mesh_tinted model j T tint) w
  = Some (tt, after_draws w calls).
Proof.
  revert calls w. induction js as [|j js IH]; intros calls w Hall.
  - apply Forall2_nil_inv_l in Hall as ->. by rewrite after_draws_nil.
  - apply Forall2_cons_inv_l in Hall as (call & calls' & Hcall & Hcalls & ->).
    simpl. unfold Prog.bind. rewrite (draw_mesh_tinted_call _ _ _ _ _ _ Hcall).
    rewrite (IH calls' (after_draws w [call])) by done.
    by rewrite after_draws_app.
Qed.

(** C1.  At an in-range node N with inherited transform T, [DrawGLTFNode]
    works with T' = MatrixMultiply(N.transformMatrix, T).  If N has a child,
    the call is exactly the calls of [DrawGLTFNode] on its [childrenCount]
    children, in order, each with T': it returns when these calls return,
    with their result, and nothing of N's own mesh range is drawn at this
    step.  If N has no child, the call is exactly one tinted draw per index
    of [meshStart, meshEnd), in increasing order, each of that mesh with
    transform T', and it changes nothing else.  And the call does return:
    with a tint in 0..255, on a node below which the graph is at most
    [S fuel] levels deep, whose child arrays are as long as their counts and
    whose leaf meshes have a material with a diffuse colour in 0..255, it
    gives its result, the same whatever depth is allowed beyond that. *)
Theorem DrawGLTFNode_step fuel model node_id T tint w :
  0 <= node_id < nodeCount model ->
  (forall r,
     DrawGLTFNode (S fuel) model node_id T tint w = Some r <->
     exists node,
       (ns ← nodes model; at_index ns node_id) = Some node /\
       let T' := MatrixMultiply (transformMatrix node) T in
       (0 < childrenCount node ->
          exists kids,
            kids = take (Z.to_nat (childrenCount node)) (children node) /\
            Z.of_nat (length kids) = childrenCount node /\
            Prog.for_each kids (fun child => DrawGLTFNode fuel model child T' tint) w
              = Some r) /\
       (childrenCount node <= 0 ->
          exists calls,
            r = (tt, after_draws w calls) /\
            Forall2 (is_tinted_draw model (world_materials w) T' tint)
                    (seqZ (meshStart node) (meshEnd node - meshStart node)) calls)) /\
  (valid_color tint ->
   node_drawable (S fuel) model (world_materials w) node_id ->
   exists calls,
     forall extra,
       DrawGLTFNode (extra + S fuel) model node_id T tint w
       = Some (tt, after_draws w calls)).
Proof.
  intros Hrange.
  assert (((0 <=? node_id) && (node_id <? nodeCount model)) = true) as E.
  { apply andb_true_iff. lia. }
  split.
  - intros r. rewrite DrawGLTFNode_unfold, E. split.
    + intros Hrun.
      apply bind_Some in Hrun as (node & w1 & Hnode & Hrun).
      apply defined_Some in Hnode as [Hnode ->].
      exists node. split; [done|]. cbv zeta. split.
      * intros Hkids. assert ((0 <? childrenCount node) = true) as E' by lia.
        rewrite E' in Hrun.
        apply (for_each_indexed (children node)
                 (fun child => DrawGLTFNode fuel model child _ tint)) in Hrun
          as [Hlen Hrun]; [|lia].
        rewrite drop_0 in Hlen, Hrun.
        eexists. split; [reflexivity|]. split; [|done].
        rewrite length_take. lia.
      * intros Hleaf. assert ((0 <? childrenCount node) = false) as E' by lia.
        rewrite E' in Hrun. destruct r as [[] w'].
        apply draw_meshes_run in Hrun as (calls & Hcalls & ->). eauto.
    + intros (node & Hnode & Hkids & Hleaf). rewrite Hnode, bind_defined.
      destruct (0 <? childrenCount node) eqn:E'.
      * destruct Hkids as (kids & -> & Hlen & Hrun); [lia|].
        rewrite length_take in Hlen.
        rewrite (for_each_indexed_eq (children node)
                   (fun child => DrawGLTFNode fuel model child _ tint));
          [by rewrite drop_0|lia|rewrite drop_0; lia].
      * destruct Hleaf as (calls & -> & Hcalls); [lia|].
        by apply draw_meshes_calls.
  - intros Htint Hok.
    destruct (DrawGLTFNode_defined (S fuel) model node_id T tint w Htint Hok)
      as [calls Hcalls].
    exists calls. intros extra. by apply DrawGLTFNode_fuel_add.
Qed.

(** X6.  With a tint in 0..255, on a node below which the graph is at most
    [fuel] levels deep, whose child arrays are as long as their counts and
    whose leaf meshes have a material with a diffuse colour in 0..255,
    [DrawGLTFNode] returns; the result is the same whatever depth is allowed
    beyond [fuel], and it only adds draw calls. *)
Theorem DrawGLTFNode_returns fuel model node_id T tint w :
  valid_color tint ->
  node_drawable fuel model (world_materials w) node_id ->
  exists calls,
    forall extra,
      DrawGLTFNode (extra + fuel) model node_id T tint w = Some (tt, after_draws w calls).
Proof.
  intros Htint Hok.
  destruct (DrawGLTFNode_defined fuel model node_id T tint w Htint Hok) as [calls Hcalls].
  exists calls. intros extra. by apply DrawGLTFNode_fuel_add.
Qed.

End TraversalFacts.

(** *** One step of the walk, on an example *)

Lemma DrawGLTFNode_step_witness :
  (forall r,
     DrawGLTFNode (H := Toy.raylib) 1 Samples.two_nodes 0 Toy.identity Samples.grey
       (world_of Samples.two_nodes) = Some r <->
     exists node,
       (ns ← nodes Samples.two_nodes; at_index ns 0) = Some node /\
       let T' := MatrixMultiply (Raylib := Toy.raylib) (transformMatrix node) Toy.identity in
       (0 < childrenCount node ->
          exists kids,
            kids = take (Z.to_nat (childrenCount node)) (children node) /\
            Z.of_nat (length kids) = childrenCount node /\
            Prog.for_each kids
              (fun child =>
                 DrawGLTFNode (H := Toy.raylib) 0 Samples.two_nodes child T' Samples.grey)
              (world_of Samples.two_nodes) = Some r) /\
       (childrenCount node <= 0 ->
          exists calls,
            r = (tt, after_draws (world_of Samples.two_nodes) calls) /\
            Forall2 (is_tinted_draw Samples.two_nodes
                       (world_materials (world_of Samples.two_nodes)) T' Samples.grey)
                    (seqZ (meshStart node) (meshEnd node - meshStart node)) calls)) /\
  (exists calls,
     forall extra,
       DrawGLTFNode (H := Toy.raylib) (extra + 1) Samples.two_nodes 0 Toy.identity
         Samples.grey (world_of Samples.two_nodes)
       = Some (tt, after_draws (world_of Samples.two_nodes) calls)).
Proof.
  destruct (@DrawGLTFNode_step Toy.raylib 0 Samples.two_nodes 0 Toy.identity Samples.grey
              (world_of Samples.two_nodes)) as [Hstep Hreturns].
  - simpl. lia.
  - split; [exact Hstep|]. apply Hreturns.
    + unfold valid_color, valid_channel. simpl. lia.
    + split; [simpl; lia|]. repeat constructor.
      exists [0], [Toy.cube], 0, Samples.red_drawn, Samples.red_map, Toy.cube.
      split_and!; try reflexivity. unfold valid_color, valid_channel. simpl. lia.
Defined.

(** On that example the step is taken: the root passes its transform to its
    child, and the one draw is the child's mesh under it. *)
Example two_nodes_root_step :
  DrawGLTFNode (H := Toy.raylib) 1 Samples.two_nodes 0 Toy.identity Samples.grey
    (world_of Samples.two_nodes)
  = Some (tt, after_draws (world_of Samples.two_nodes)
                [mkDrawCall Toy.cube Samples.red_tinted Samples.child_transform]).
Proof. vm_compute. reflexivity. Qed.

(** ** The importer, step by step *)

Section ImporterRun.

Context `{Raylib}.

(** The steps of a successful [LoadGLTFModelFile] on a parsed file. *)
Lemma LoadGLTFModelFile_run data fileName log model log' :
  LoadGLTFModelFile (Parsed data) fileName log = Some (model, log') ->
  let meshCount := primitivesCount data in
  let materialCount := to_int (to_int (Z.of_nat (length (materials_ data))) + 1) in
  exists materials0 last materials log1 log2 starts ends cur log3 log4 nodes log5 log6,
    store_at (RL_CALLOC materialCount zero_Material) 0 (fun _ => LoadMaterialDefault)
      = Some materials0 /\
    Prog.fold_each (materials_ data)
      (fun src '(j, mats) =>
         mat <- load_material src fileName ;;
         mats' <- Prog.defined (store_at mats j (fun _ => mat)) ;;
         Prog.ret (to_uint (j + 1), mats'))
      (1, materials0) log1 = Some ((last, materials), log2) /\
    load_meshes data
      (mkMeshCursor (set_vboId (RL_CALLOC MAX_MESH_VERTEX_BUFFERS 0)
                       <$> RL_CALLOC meshCount zero_Mesh)
                    (RL_CALLOC meshCount 0) 0) log3
      = Some ((starts, ends, cur), log4) /\
    Prog.map_each (nodes_ data) (load_node starts ends) log5 = Some (nodes, log6) /\
    model = mkGLTFModel zero_Matrix meshCount materialCount
              (Some (cur_meshes cur)) (Some materials) (Some (cur_meshMaterial cur))
              (to_int (Z.of_nat (length (nodes_ data)))) (Some nodes)
              (if negb (length (scenes_ data) =? 0)%nat
               then to_int (Z.of_nat (length (scenes_ data))) else 0)
              (if negb (length (scenes_ data) =? 0)%nat
               then Some (load_scene <$> scenes_ data) else None)
              (if negb (length (scenes_ data) =? 0)%nat then to_int (scene_ data) else 0).
Proof.
  unfold LoadGLTFModelFile. intros Hrun. cbv zeta.
  repeat (apply bind_Some in Hrun as (? & ? & ? & Hrun)).
  match goal with
  | Hm : load_meshes _ _ _ = Some (?res, _) |- _ =>
      destruct res as [[starts ends] cur]; rename Hm into Hmeshes
  end.
  repeat (apply bind_Some in Hrun as (? & ? & ? & Hrun)).
  apply ret_Some in Hrun as [-> ->].
  match goal with
  | Hm : Prog.fold_each (materials_ data) _ _ _ = Some (?res, _) |- _ =>
      destruct res as [last materials]; rename Hm into Hmats
  end.
  match goal with
  | Hm : Prog.defined (store_at _ _ _) _ = Some _ |- _ =>
      apply defined_Some in Hm as [Hm0 ->]
  end.
  eauto 20.
Qed.

End ImporterRun.

(** *** The materials array *)

Section MaterialSlots.

Context `{Raylib}.

Lemma map_each_Forall2 {St A B} (l : list A) (f : A -> Prog.M St B) s ys s' :
  Prog.map_each l f s = Some (ys, s') ->
  Forall2 (fun x y => exists s1 s2, f x s1 = Some (y, s2)) l ys.
Proof.
  revert s ys s'. induction l as [|x l IH]; intros s ys s' Hrun; simpl in Hrun.
  - apply ret_Some in Hrun as [-> _]. constructor.
  - apply bind_Some in Hrun as (y & s1 & Hx & Hrun).
    apply bind_Some in Hrun as (ys' & s2 & Hl & Hrun).
    apply ret_Some in Hrun as [-> _]. constructor; [eauto|by eapply IH].
Qed.

Lemma imported_materials data fileName log model log' :
  Z.of_nat (length (materials_ data)) < INT_MAX ->
  LoadGLTFModelFile (Parsed data) fileName log = Some (model, log') ->
  materialCount model = Z.of_nat (length (materials_ data)) + 1 /\
  exists mats,
    materials model = Some (LoadMaterialDefault :: mats) /\
    Forall2 (fun src mat =>
               exists log1 log2, load_material src fileName log1 = Some (mat, log2))
            (materials_ data) mats.
Proof.
  intros Hfits Hrun.
  apply LoadGLTFModelFile_run in Hrun
    as (materials0 & last & mats1 & log1 & log2 & starts & ends & cur & log3 & log4
        & ns & log5 & log6 & H0 & Hmats & _ & _ & ->).
  cbn [materialCount materials].
  rewrite (to_int_small (Z.of_nat _)) in * by (unfold INT_MAX in *; lia).
  rewrite to_int_small in * by (unfold INT_MAX in *; lia).
  split; [done|].
  set (n := length (materials_ data)) in *.
  apply store_at_Some in H0 as (z & _ & ->).
  unfold RL_CALLOC in Hmats.
  replace (Z.to_nat (Z.of_nat n + 1)) with (S n) in Hmats by lia.
  cbn [replicate Z.to_nat insert list_insert] in Hmats.
  pose proof (fold_each_invariant
    (fun visited (acc : Z * list Material) =>
       acc.1 = 1 + Z.of_nat (length visited) /\
       (length visited <= n)%nat /\
       exists done,
         Forall2 (fun src mat =>
                    exists log1 log2, load_material src fileName log1 = Some (mat, log2))
                 visited done /\
         acc.2 = LoadMaterialDefault :: done ++ replicate (n - length visited) zero_Material)
    _ _ [] _ _ _ _ Hmats) as Hinv.
  simpl in Hinv. destruct Hinv as (_ & _ & done & Hdone & ->).
  - split_and!; [done|lia|]. exists []. split; [constructor|]. by rewrite Nat.sub_0_r.
  - intros visited src [j mats] s [j' mats'] s' (Hj & Hle & done & Hdone & Hm) Hstep.
    simpl in Hj, Hm. subst j mats.
    apply bind_Some in Hstep as (mat & s1 & Hmat & Hstep).
    apply bind_Some in Hstep as (stored & s2 & Hst & Hstep).
    apply defined_Some in Hst as [Hst ->].
    apply ret_Some in Hstep as [[= -> ->] ->]. simpl.
    pose proof (Forall2_length _ _ _ Hdone) as Hlen.
    apply store_at_Some in Hst as (old & Hold & ->).
    apply at_index_lt in Hold. simpl in Hold.
    rewrite length_app, length_replicate in Hold.
    rewrite length_app. simpl.
    split_and!.
    + unfold INT_MAX in Hfits. rewrite to_uint_small; unfold UINT_MAX; lia.
    + lia.
    + exists (done ++ [mat]). split; [apply Forall2_app; [done|]; constructor; eauto|].
      replace (Z.to_nat (1 + Z.of_nat (length visited))) with (S (length visited)) by lia.
      simpl. f_equal. rewrite insert_app_r_alt by lia.
      replace (length visited - length done)%nat with 0%nat by lia.
      replace (n - length visited)%nat with (S (n - (length visited + 1))) by lia.
      simpl. by rewrite <- app_assoc.
  - exists done. split; [|done]. simpl.
    replace (n - length (materials_ data))%nat with 0%nat by (subst n; lia).
    by rewrite app_nil_r.
Qed.

(** X7.  When the file was parsed, the model has one material more than the
    file: slot 0 holds the default material and slot i + 1 the material
    imported from source material i. *)
Theorem materials_are_one_based data fileName log model log' :
  Z.of_nat (length (materials_ data)) < INT_MAX ->
  LoadGLTFModelFile (Parsed data) fileName log = Some (model, log') ->
  materialCount model = Z.of_nat (length (materials_ data)) + 1 /\
  exists mats,
    materials model = Some (LoadMaterialDefault :: mats) /\
    Forall2 (fun src mat =>
               exists log1 log2, load_material src fileName log1 = Some (mat, log2))
            (materials_ data) mats.
Proof. apply imported_materials. Qed.

End MaterialSlots.

(** *** Nodes and scenes *)

Section NodeChildren.

Context `{Raylib}.

Lemma load_node_children src count log filled log' :
  Prog.fold_each (S := Log) (B := Z * list Z) (node_children src)
    (fun child '(j, ids) =>
       ids' <- Prog.defined (store_at ids j (fun _ => to_int child)) ;;
       Prog.ret (to_uint (j + 1), ids'))
    (0, RL_CALLOC count 0) log = Some (filled, log') ->
  count <= INT_MAX ->
  log' = log /\
  (length (node_children src) <= Z.to_nat count)%nat /\
  filled.2 = (to_int <$> node_children src)
             ++ replicate (Z.to_nat count - length (node_children src)) 0.
Proof.
  intros Hrun Hfits.
  assert (Hlog : log' = log).
  { clear Hfits. revert Hrun. generalize (0, RL_CALLOC count 0). revert log.
    induction (node_children src) as [|c cs IH]; intros s [j ids] Hrun; simpl in Hrun.
    - by apply ret_Some in Hrun as [_ ->].
    - apply bind_Some in Hrun as ([j1 ids1] & s1 & Hc & Hrun).
      apply bind_Some in Hc as (ids' & s2 & Hst & Hc).
      apply defined_Some in Hst as [_ ->]. apply ret_Some in Hc as [_ ->]. eauto. }
  split; [done|].
  pose proof (fold_each_invariant
    (fun visited (acc : Z * list Z) =>
       acc.1 = Z.of_nat (length visited) /\
       (length visited <= Z.to_nat count)%nat /\
       acc.2 = (to_int <$> visited) ++ replicate (Z.to_nat count - length visited) 0)
    _ _ [] _ _ _ _ Hrun) as Hinv.
  simpl in Hinv. apply Hinv; clear Hinv.
  - split_and!; [done|lia|]. unfold RL_CALLOC. by rewrite Nat.sub_0_r.
  - intros visited c [j ids] s [j' ids'] s' (Hj & Hle & Hids) Hstep. simpl in Hj, Hids. subst.
    apply bind_Some in Hstep as (stored & s1 & Hst & Hstep).
    apply defined_Some in Hst as [Hst ->].
    apply ret_Some in Hstep as [[= -> ->] ->]. simpl.
    apply store_at_Some in Hst as (old & Hold & ->).
    apply at_index_lt in Hold.
    rewrite length_app, length_fmap, length_replicate in Hold.
    rewrite length_app. simpl.
    split_and!.
    + rewrite to_uint_small; [lia|]. unfold UINT_MAX, INT_MAX in *. lia.
    + lia.
    + rewrite Nat2Z.id, insert_app_r_alt by (rewrite length_fmap; lia).
      rewrite length_fmap, Nat.sub_diag.
      replace (Z.to_nat count - length visited)%nat
        with (S (Z.to_nat count - (length visited + 1))) by lia.
      simpl. rewrite fmap_app. simpl. by rewrite <- app_assoc.
Qed.

End NodeChildren.

Section NodeFacts.

Context `{Raylib}.

Lemma to_int_le z : 0 <= z -> to_int z <= z.
Proof.
  intros Hz. unfold to_int, to_uint.
  pose proof (Z.mod_le z 4294967296 Hz). case_match; lia.
Qed.

Lemma load_node_run starts ends src log node log' :
  load_node starts ends src log = Some (node, log') ->
  match node_mesh src with
  | None => meshStart node = -1 /\ meshEnd node = -1
  | Some m => at_index starts (to_int m) = Some (meshStart node) /\
              at_index ends (to_int m) = Some (meshEnd node)
  end /\
  childrenCount node = Z.of_nat (length (node_children src)) /\
  Z.of_nat (length (node_children src)) <= INT_MAX /\
  children node = to_int <$> node_children src /\
  transform node
    = mkTransform (if has_translation src then source_translation src else zero_Vector3)
                  (if has_rotation src then source_rotation src else zero_Quaternion)
                  (if has_scale src then source_scale src
                   else mkVector3 (f32_of_Z 1) (f32_of_Z 1) (f32_of_Z 1)) /\
  transformMatrix node
    = MatrixMultiply
        (MatrixMultiply
           (if has_scale src
            then MatrixScale (v3x (source_scale src)) (v3y (source_scale src))
                             (v3z (source_scale src))
            else MatrixIdentity)
           (if has_rotation src then QuaternionToMatrix (source_rotation src)
            else MatrixIdentity))
        (if has_translation src
         then MatrixTranslate (v3x (source_translation src)) (v3y (source_translation src))
                              (v3z (source_translation src))
         else MatrixIdentity).
Proof.
  unfold load_node, source_translation, source_rotation, source_scale. intros Hrun.
  apply bind_Some in Hrun as ([s e] & log1 & Hrange & Hrun).
  apply bind_Some in Hrun as (filled & log2 & Hkids & Hrun).
  destruct (node_translation src) as [[tx ty] tz], (node_rotation src) as [[[rx ry] rz] rw],
    (node_scale src) as [[sx sy] sz].
  apply ret_Some in Hrun as [-> ->]. simpl.
  pose proof (to_int_range (Z.of_nat (length (node_children src)))) as Hcount.
  apply load_node_children in Hkids as (_ & Hlen & Hids); [|lia].
  assert (Hfit : to_int (Z.of_nat (length (node_children src)))
                 = Z.of_nat (length (node_children src))).
  { pose proof (to_int_le (Z.of_nat (length (node_children src)))).
    destruct (node_children src); [reflexivity|]. simpl length in *. lia. }
  rewrite Hfit in *.
  rewrite Nat2Z.id, Nat.sub_diag, app_nil_r in Hids.
  split_and!.
  - destruct (node_mesh src) as [m|].
    + apply bind_Some in Hrange as (u & ? & _ & Hrange).
      apply bind_Some in Hrange as (s' & ? & Hs & Hrange).
      apply defined_Some in Hs as [Hs ->].
      apply bind_Some in Hrange as (e' & ? & He & Hrange).
      apply defined_Some in He as [He ->].
      by apply ret_Some in Hrange as [[= -> ->] _].
    + by apply ret_Some in Hrange as [[= -> ->] _].
  - done.
  - lia.
  - done.
  - by destruct (has_translation src), (has_rotation src), (has_scale src).
  - by destruct (has_translation src), (has_rotation src), (has_scale src).
Qed.

(** X8.  The matrix stored with an imported node is the one
    [TransformToMatrix] composes from the translation, rotation and scale
    stored with it, provided [MatrixTranslate], [MatrixScale] and
    [QuaternionToMatrix] give the identity matrix on the zero translation,
    the unit scale and the zero quaternion, which stand in the stored
    transform for the properties the file does not have. *)
Theorem stored_matrix_is_TransformToMatrix starts ends src log node log' :
  MatrixTranslate f32_zero f32_zero f32_zero = MatrixIdentity ->
  MatrixScale (f32_of_Z 1) (f32_of_Z 1) (f32_of_Z 1) = MatrixIdentity ->
  QuaternionToMatrix zero_Quaternion = MatrixIdentity ->
  load_node starts ends src log = Some (node, log') ->
  transformMatrix node = TransformToMatrix (transform node).
Proof.
  intros Ht Hs Hr Hrun.
  apply load_node_run in Hrun as (_ & _ & _ & _ & Htrs & ->).
  unfold TransformToMatrix. rewrite Htrs. cbn [translation rotation scale].
  destruct (has_translation src), (has_rotation src), (has_scale src);
    unfold zero_Vector3; cbn [v3x v3y v3z]; rewrite ?Ht, ?Hs, ?Hr; reflexivity.
Qed.

Lemma triangles_before_S ms i mesh :
  ms !! i = Some mesh ->
  triangles_before ms (S i) = triangles_before ms i + triangles_of mesh.
Proof.
  intros Hi. unfold triangles_before, triangles_of.
  rewrite (take_S_r _ _ _ Hi), fmap_app, concat_app, List.filter_app, length_app.
  simpl. rewrite app_nil_r. lia.
Qed.

Lemma well_formed_spec data :
  well_formed data = true ->
  Z.of_nat (length (meshes_ data)) < INT_MAX /\
  Z.of_nat (length (materials_ data)) < INT_MAX /\
  Z.of_nat (length (nodes_ data)) < INT_MAX /\
  Z.of_nat (length (scenes_ data)) < INT_MAX /\
  Z.of_nat (length (concat (primitives <$> meshes_ data))) < INT_MAX /\
  Forall (fun n =>
            Z.of_nat (length (node_children n)) < INT_MAX /\
            Forall (fun c => 0 <= c < Z.of_nat (length (nodes_ data))) (node_children n) /\
            forall m, node_mesh n = Some m -> 0 <= m < Z.of_nat (length (meshes_ data)))
         (nodes_ data) /\
  Forall (fun s =>
            Z.of_nat (length (scene_nodes s)) < INT_MAX /\
            Forall (fun c => 0 <= c < Z.of_nat (length (nodes_ data))) (scene_nodes s))
         (scenes_ data).
Proof.
  unfold well_formed, count_fits, index_in. cbv zeta. intros Hwf.
  repeat (apply andb_prop in Hwf as [Hwf ?]).
  split_and!; try lia.
  - apply Forall_forall. intros n Hn.
    match goal with Hf : forallb _ (nodes_ data) = true |- _ =>
      rewrite forallb_forall in Hf; specialize (Hf n (proj1 (list_elem_of_In _ _) Hn)) end.
    repeat match goal with Hc : (_ && _) = true |- _ => apply andb_prop in Hc as [? ?] end.
    split_and!; [lia| |].
    + apply Forall_forall. intros c Hc.
      match goal with Hf : forallb _ (node_children n) = true |- _ =>
        rewrite forallb_forall in Hf; specialize (Hf c (proj1 (list_elem_of_In _ _) Hc)) end.
      lia.
    + intros m Hm. match goal with Hf : from_option _ _ _ = true |- _ =>
        rewrite Hm in Hf; simpl in Hf end. lia.
  - apply Forall_forall. intros s Hs.
    match goal with Hf : forallb _ (scenes_ data) = true |- _ =>
      rewrite forallb_forall in Hf; specialize (Hf s (proj1 (list_elem_of_In _ _) Hs)) end.
    repeat match goal with Hc : (_ && _) = true |- _ => apply andb_prop in Hc as [? ?] end.
    split; [lia|].
    apply Forall_forall. intros c Hc.
    match goal with Hf : forallb _ (scene_nodes s) = true |- _ =>
      rewrite forallb_forall in Hf; specialize (Hf c (proj1 (list_elem_of_In _ _) Hc)) end.
    lia.
Qed.

Lemma to_int_ids (l : list Z) n :
  n <= INT_MAX -> Forall (fun c => 0 <= c < n) l -> to_int <$> l = l.
Proof.
  intros Hn Hl. induction Hl as [|c l Hc _ IH]; [done|].
  rewrite fmap_cons, IH, to_int_small; [done|unfold INT_MAX in *; lia].
Qed.

(** The nodes of the model, from those of the file. *)
Lemma imported_nodes data fileName log model log' :
  well_formed data = true ->
  LoadGLTFModelFile (Parsed data) fileName log = Some (model, log') ->
  nodeCount model = Z.of_nat (length (nodes_ data)) /\
  exists ns,
    nodes model = Some ns /\
    Forall2 (fun src node =>
               childrenCount node = Z.of_nat (length (node_children src)) /\
               children node = node_children src /\
               match node_mesh src with
               | None => meshStart node = -1 /\ meshEnd node = -1
               | Some m =>
                   exists mesh,
                     meshes_ data !! Z.to_nat m = Some mesh /\
                     meshStart node = triangles_before (meshes_ data) (Z.to_nat m) /\
                     meshEnd node = meshStart node + triangles_of mesh
               end)
            (nodes_ data) ns.
Proof.
  intros Hwf Hrun.
  apply well_formed_spec in Hwf as (Hnm & _ & Hnn & _ & _ & Hnodes & _).
  apply LoadGLTFModelFile_run in Hrun
    as (materials0 & last & mats1 & log1 & log2 & starts & ends & cur & log3 & log4
        & ns & log5 & log6 & _ & _ & Hmeshes & Hns & ->).
  cbn [nodeCount nodes].
  split; [apply to_int_small; unfold INT_MAX in *; lia|].
  exists ns. split; [done|].
  pose proof (primitivesCount_range data) as Hrange.
  apply (load_meshes_ranges _ (Z.to_nat (primitivesCount data))) in Hmeshes as [-> ->];
    [|lia|].
  2:{ unfold cursor_after, RL_CALLOC. simpl.
      rewrite length_fmap, length_replicate, Nat.sub_0_r. split_and!; try done. lia. }
  apply map_each_Forall2 in Hns.
  apply Forall2_same_length_lookup. split; [by eapply Forall2_length|].
  intros i src node Hsrc Hnode.
  destruct (Forall2_lookup_lr _ _ _ _ _ _ Hns Hsrc Hnode) as (s1 & s2 & Hload).
  apply load_node_run in Hload as (Hm & Hcount & _ & Hkids & _).
  rewrite Forall_forall in Hnodes.
  destruct (Hnodes src) as (_ & Hkin & Hin); [by eapply list_elem_of_lookup_2|].
  split; [done|]. split.
  { rewrite Hkids. apply (to_int_ids _ _ (Z.lt_le_incl _ _ Hnn) Hkin). }
  destruct (node_mesh src) as [m|] eqn:Hmesh; [|done].
  specialize (Hin m eq_refl).
  rewrite to_int_small in Hm by (unfold INT_MAX in *; lia).
  destruct Hm as [Hs He].
  apply at_index_Some in Hs as [_ Hs], He as [_ He].
  apply list_lookup_fmap_Some in Hs as (i1 & Hs & Hi1), He as (i2 & He & Hi2).
  apply lookup_seq in Hi1 as [-> _], Hi2 as [-> _]. simpl in Hs, He.
  destruct (lookup_lt_is_Some_2 (meshes_ data) (Z.to_nat m)) as [mesh Hlk]; [lia|].
  exists mesh. split; [done|]. split; [done|].
  rewrite He, Hs. by apply triangles_before_S.
Qed.

(** X9.  In the model of a well-formed file, a node without a mesh has the
    mesh range [-1, -1); a node with source mesh m has the range that starts
    at the number of triangle primitives of the meshes before m and is as
    long as the number of triangle primitives of m. *)
Theorem node_mesh_ranges data fileName log model log' :
  well_formed data = true ->
  LoadGLTFModelFile (Parsed data) fileName log = Some (model, log') ->
  exists ns,
    nodes model = Some ns /\
    Forall2 (fun src node =>
               match node_mesh src with
               | None => meshStart node = -1 /\ meshEnd node = -1
               | Some m =>
                   exists mesh,
                     meshes_ data !! Z.to_nat m = Some mesh /\
                     meshStart node = triangles_before (meshes_ data) (Z.to_nat m) /\
                     meshEnd node = meshStart node + triangles_of mesh
               end)
            (nodes_ data) ns.
Proof.
  intros Hwf Hrun.
  destruct (imported_nodes _ _ _ _ _ Hwf Hrun) as (_ & ns & Hns & Hall).
  exists ns. split; [done|]. eapply Forall2_impl; [exact Hall|].
  intros src node (_ & _ & Hm). exact Hm.
Qed.

(** The scenes of the model, from those of the file. *)
Lemma imported_scenes data fileName log model log' :
  well_formed data = true ->
  LoadGLTFModelFile (Parsed data) fileName log = Some (model, log') ->
  sceneCount model = Z.of_nat (length (scenes_ data)) /\
  (scenes_ data = [] -> scenes model = None /\ scene model = 0) /\
  (scenes_ data <> [] ->
     scene model = to_int (scene_ data) /\
     exists ss,
       scenes model = Some ss /\
       Forall2 (fun src sc =>
                  scene_nodeCount sc = Z.of_nat (length (scene_nodes src)) /\
                  scene_nodes_ids sc = scene_nodes src)
               (scenes_ data) ss).
Proof.
  intros Hwf Hrun.
  apply well_formed_spec in Hwf as (_ & _ & Hnn & Hns' & _ & _ & Hscenes).
  apply LoadGLTFModelFile_run in Hrun
    as (materials0 & last & mats1 & log1 & log2 & starts & ends & cur & log3 & log4
        & ns & log5 & log6 & _ & _ & _ & _ & ->).
  cbn [sceneCount scenes scene].
  split_and!.
  - destruct (scenes_ data); simpl; [done|].
    apply to_int_small. simpl in Hns'. unfold INT_MAX in *. lia.
  - by intros ->.
  - intros Hne. destruct (scenes_ data) as [|s0 ss0] eqn:Hss; [done|].
    rewrite <- Hss in *. assert ((length (scenes_ data) =? 0)%nat = false) as ->
      by (rewrite Hss; done).
    simpl. split; [done|]. eexists. split; [done|].
    apply Forall2_fmap_r, Forall_Forall2_diag.
    eapply Forall_impl; [exact Hscenes|]. intros s [Hfit Hin]. simpl.
    split.
    + apply to_int_small. unfold INT_MAX in *. lia.
    + apply (to_int_ids _ _ (Z.lt_le_incl _ _ Hnn) Hin).
Qed.

(** X10.  In the model of a well-formed file the nodes and scenes are those of
    the file, in order: every node has the child indices of its source node,
    every scene the node indices of its source scene, and the counts are the
    lengths of these arrays.  Without a scene in the file the scene array is
    null and the scene to display is 0; otherwise it is the file's. *)
Theorem node_graph_is_preserved data fileName log model log' :
  well_formed data = true ->
  LoadGLTFModelFile (Parsed data) fileName log = Some (model, log') ->
  nodeCount model = Z.of_nat (length (nodes_ data)) /\
  (exists ns,
     nodes model = Some ns /\
     Forall2 (fun src node =>
                childrenCount node = Z.of_nat (length (node_children src)) /\
                children node = node_children src)
             (nodes_ data) ns) /\
  sceneCount model = Z.of_nat (length (scenes_ data)) /\
  (scenes_ data = [] -> scenes model = None /\ scene model = 0) /\
  (scenes_ data <> [] ->
     scene model = to_int (scene_ data) /\
     exists ss,
       scenes model = Some ss /\
       Forall2 (fun src sc =>
                  scene_nodeCount sc = Z.of_nat (length (scene_nodes src)) /\
                  scene_nodes_ids sc = scene_nodes src)
               (scenes_ data) ss).
Proof.
  intros Hwf Hrun.
  destruct (imported_nodes _ _ _ _ _ Hwf Hrun) as (Hnc & ns & Hns & Hall).
  split; [done|]. split.
  { exists ns. split; [done|]. eapply Forall2_impl; [exact Hall|].
    intros src node (Hc & Hk & _). by split. }
  by apply (imported_scenes _ fileName log _ log').
Qed.

End NodeFacts.

(** *** The meshes *)

Section MeshFacts.

Context `{Raylib}.

Lemma load_primitive_filled data n seen prim cur log cur' log' :
  cursor_after data n seen cur ->
  cursor_filled n seen cur ->
  load_primitive data prim cur log = Some (cur', log') ->
  cursor_filled n (seen ++ List.filter is_triangles [prim]) cur'.
Proof.
  intros (Hidx & Hlen & Hseen & _) (filled & Hfilled & Hms) Hrun.
  unfold load_primitive in Hrun. simpl. unfold is_triangles.
  destruct (bool_decide (prim_type prim = cgltf_primitive_type_triangles)).
  2:{ apply ret_Some in Hrun as [-> ->]. rewrite app_nil_r. by exists filled. }
  apply bind_Some in Hrun as (mesh0 & ? & Hmesh0 & Hrun).
  apply defined_Some in Hmesh0 as [Hmesh0 ->].
  apply bind_Some in Hrun as (mesh1 & log1 & Hattrs & Hrun).
  apply bind_Some in Hrun as (mesh2 & log2 & Hind & Hrun).
  apply bind_Some in Hrun as (meshes' & ? & Hst & Hrun).
  apply defined_Some in Hst as [Hst ->].
  apply bind_Some in Hrun as (mm' & log3 & _ & Hrun).
  apply ret_Some in Hrun as [-> ->]. simpl.
  pose proof (Forall2_length _ _ _ Hfilled) as Hfl.
  pose proof (at_index_lt _ _ _ Hmesh0) as Hlt. rewrite Hidx, Hlen in Hlt.
  assert (mesh0 = blank_mesh) as ->.
  { apply at_index_Some in Hmesh0 as [_ Hmesh0]. rewrite Hidx, Nat2Z.id, Hms in Hmesh0.
    rewrite lookup_app_r in Hmesh0 by lia.
    by apply lookup_replicate in Hmesh0 as [-> _]. }
  exists (filled ++ [mesh2]). split.
  - apply Forall2_app; [done|]. constructor; [|constructor].
    exists log, log2. unfold fill_mesh. apply bind_Some. eauto.
  - apply store_at_Some in Hst as (x & _ & ->).
    rewrite Hidx, Nat2Z.id, Hms, insert_app_r_alt by lia.
    replace (length seen - length filled)%nat with 0%nat by lia.
    rewrite length_app. simpl.
    replace (n - length seen)%nat with (S (n - (length seen + 1))) by lia.
    simpl. by rewrite <- app_assoc.
Qed.

Lemma load_meshes_filled data n cur log starts ends cur' log' :
  (n <= Z.to_nat INT_MAX)%nat ->
  cursor_after data n [] cur ->
  cursor_filled n [] cur ->
  load_meshes data cur log = Some ((starts, ends, cur'), log') ->
  cursor_filled n (triangle_primitives data) cur'.
Proof.
  intros Hn Hcur Hfill Hrun. unfold load_meshes in Hrun.
  pose proof (fold_each_invariant
    (fun visited (acc : list Z * list Z * MeshCursor) =>
       cursor_after data n (List.filter is_triangles (concat (primitives <$> visited))) acc.2 /\
       cursor_filled n (List.filter is_triangles (concat (primitives <$> visited))) acc.2)
    _ _ [] _ _ _ _ Hrun) as Hinv.
  simpl in Hinv. apply Hinv; [done|]. clear Hinv Hrun.
  intros visited mesh [[ss es] c] s [[ss' es'] c'] s' [Hacc Hfl] Hx. simpl in *.
  apply bind_Some in Hx as ([[s0 e0] c0] & s1 & Hmesh & Hx).
  apply ret_Some in Hx as [[= -> -> ->] ->].
  unfold load_mesh in Hmesh.
  apply bind_Some in Hmesh as (c1 & s2 & Hprims & Hmesh).
  apply ret_Some in Hmesh as [[= -> -> ->] ->].
  rewrite fmap_app, concat_app, List.filter_app. simpl. rewrite app_nil_r.
  pose proof (fold_each_invariant
    (fun seen c =>
       cursor_after data n
         (List.filter is_triangles (concat (primitives <$> visited))
          ++ List.filter is_triangles seen) c /\
       cursor_filled n
         (List.filter is_triangles (concat (primitives <$> visited))
          ++ List.filter is_triangles seen) c)
    _ _ [] _ _ _ _ Hprims) as Hinv.
  simpl in Hinv. apply Hinv; clear Hinv.
  - by rewrite app_nil_r.
  - intros seen prim c2 s3 c3 s4 [Hc2 Hf2] Hprim.
    rewrite List.filter_app, app_assoc. split.
    + by eapply load_primitive_cursor.
    + by eapply load_primitive_filled.
Qed.

(** X11.  When the file was parsed, mesh k of the model is the blank mesh
    filled from the k-th triangle primitive of the file (its attributes,
    then its indices); the meshes counted for the primitives that are not
    triangles come last and stay blank. *)
Theorem meshes_are_filled_in_order data fileName log model log' :
  LoadGLTFModelFile (Parsed data) fileName log = Some (model, log') ->
  exists ms,
    meshes model = Some ms /\
    length ms = Z.to_nat (meshCount model) /\
    (forall k prim, triangle_primitives data !! k = Some prim ->
       exists mesh, ms !! k = Some mesh /\ filled_by prim mesh) /\
    (forall k, (length (triangle_primitives data) <= k < length ms)%nat ->
       ms !! k = Some blank_mesh).
Proof.
  intros Hrun.
  apply LoadGLTFModelFile_run in Hrun
    as (materials0 & last & mats1 & log1 & log2 & starts & ends & cur & log3 & log4
        & ns & log5 & log6 & _ & _ & Hmeshes & _ & ->).
  cbn [meshes meshCount].
  pose proof (primitivesCount_range data) as Hrange.
  set (n := Z.to_nat (primitivesCount data)) in *.
  assert (Hcur0 : cursor_after data n []
            (mkMeshCursor (set_vboId (RL_CALLOC MAX_MESH_VERTEX_BUFFERS 0)
                             <$> RL_CALLOC (primitivesCount data) zero_Mesh)
                          (RL_CALLOC (primitivesCount data) 0) 0)).
  { unfold cursor_after, RL_CALLOC. simpl.
    rewrite length_fmap, length_replicate, Nat.sub_0_r. split_and!; try done. lia. }
  pose proof (load_meshes_cursor _ n _ _ _ _ _ _ ltac:(lia) Hcur0 Hmeshes)
    as (_ & Hlen & Hseen & _).
  apply (load_meshes_filled _ n) in Hmeshes as (filled & Hfilled & Hms); [|lia|done|].
  2:{ exists []. split; [constructor|]. simpl. unfold RL_CALLOC.
      by rewrite fmap_replicate, Nat.sub_0_r. }
  exists (cur_meshes cur). split_and!; [done|done| |].
  - intros k prim Hk.
    destruct (Forall2_lookup_l _ _ _ _ _ Hfilled Hk) as (mesh & Hmesh & Hby).
    exists mesh. split; [|done]. rewrite Hms. by apply lookup_app_l_Some.
  - intros k Hk. pose proof (Forall2_length _ _ _ Hfilled) as Hfl.
    rewrite Hms, lookup_app_r by lia. apply lookup_replicate_2. lia.
Qed.

(** *** Uploading *)

Lemma upload_loop (f : Mesh -> Mesh) (ms : list Mesh) (log : Log) :
  forall done,
  Prog.fold_each (seqZ (Z.of_nat (length done)) (Z.of_nat (length ms)))
    (fun i ms => Prog.defined (store_at ms i f)) (done ++ ms) log
  = Some (done ++ (f <$> ms), log).
Proof.
  induction ms as [|m ms IH]; intros done.
  - rewrite seqZ_nil by done. simpl. by rewrite !app_nil_r.
  - rewrite seqZ_cons by (simpl; lia). cbn [Prog.fold_each].
    assert (Hst : store_at (done ++ m :: ms) (Z.of_nat (length done)) f
                  = Some ((done ++ [f m]) ++ ms)).
    { unfold store_at, at_index. rewrite decide_True by lia.
      rewrite Nat2Z.id, lookup_app_r, Nat.sub_diag by lia. simpl.
      rewrite insert_app_r_alt, Nat.sub_diag by lia. simpl. by rewrite <- app_assoc. }
    unfold Prog.bind at 1. rewrite Hst. cbv beta iota delta [Prog.defined Prog.ret].
    specialize (IH (done ++ [f m])). rewrite length_app in IH. simpl in IH.
    replace (Z.succ (Z.of_nat (length done))) with (Z.of_nat (length done + 1)) by lia.
    replace (Z.pred (Z.of_nat (length (m :: ms)))) with (Z.of_nat (length ms))
      by (simpl; lia).
    etrans; [exact IH|]. by rewrite <- app_assoc.
Qed.

End MeshFacts.

(** ** [LoadGLTFModel] *)

Section LoaderFacts.

Context `{Raylib}.

(** [LoadGLTFModel] sets the transform and may replace the meshes and the
    materials; the nodes and the scenes are those of [LoadGLTFModelFile]. *)
Lemma LoadGLTFModel_keeps_graph file fileName log model log' :
  LoadGLTFModel file fileName log = Some (model, log') ->
  exists model0 log0,
    LoadGLTFModelFile file fileName log = Some (model0, log0) /\
    model_transform model = MatrixIdentity /\
    nodeCount model = nodeCount model0 /\ nodes model = nodes model0 /\
    sceneCount model = sceneCount model0 /\ scenes model = scenes model0 /\
    scene model = scene model0.
Proof.
  unfold LoadGLTFModel. intros Hrun.
  apply bind_Some in Hrun as (model0 & log0 & Hfile & Hrun).
  exists model0, log0. split; [done|]. clear Hfile. cbv zeta in Hrun.
  apply bind_Some in Hrun as (model1 & log1 & Hup & Hrun).
  assert (model_transform model1 = MatrixIdentity /\
          nodeCount model1 = nodeCount model0 /\ nodes model1 = nodes model0 /\
          sceneCount model1 = sceneCount model0 /\ scenes model1 = scenes model0 /\
          scene model1 = scene model0) as H1.
  { destruct (meshCount _ =? 0).
    - destruct SUPPORT_MESH_GENERATION;
        apply bind_Some in Hup as (u & log2 & _ & Hup);
        apply ret_Some in Hup as [-> _]; by destruct model0.
    - apply bind_Some in Hup as (ms0 & ? & _ & Hup).
      apply bind_Some in Hup as (ms' & ? & _ & Hup).
      apply ret_Some in Hup as [-> _]. by destruct model0. }
  destruct (materialCount model1 =? 0).
  - apply bind_Some in Hrun as (u & log2 & _ & Hrun).
    apply ret_Some in Hrun as [-> _]. destruct (meshMaterial _); by destruct model1.
  - by apply ret_Some in Hrun as [-> _].
Qed.

(** X12.  On a parsed file with at least one primitive, [LoadGLTFModel] returns
    the model of [LoadGLTFModelFile] with the identity transform and with
    every mesh passed once through [UploadMesh], in order; it changes
    nothing else of the model and adds nothing to the log. *)
Theorem loaded_meshes_are_uploaded data fileName log model log' :
  Z.of_nat (length (materials_ data)) < INT_MAX ->
  0 < primitivesCount data ->
  LoadGLTFModel (Parsed data) fileName log = Some (model, log') ->
  exists model0 ms,
    LoadGLTFModelFile (Parsed data) fileName log = Some (model0, log') /\
    meshes model0 = Some ms /\
    model = set_model_meshes (meshCount model0) (UploadMesh <$> ms)
              (set_model_transform MatrixIdentity model0).
Proof.
  intros Hmats Hcount Hrun. unfold LoadGLTFModel in Hrun.
  apply bind_Some in Hrun as (model0 & log0 & Hfile & Hrun).
  pose proof (LoadGLTFModelFile_parsed _ _ _ _ _ Hfile)
    as (Hmc & Hmatc & cur & (_ & Hlen & _) & Hms & _).
  set (ms := cur_meshes cur) in *.
  rewrite (to_int_small (Z.of_nat _)) in Hmatc by (unfold INT_MAX in *; lia).
  rewrite to_int_small in Hmatc by (unfold INT_MAX in *; lia).
  cbv zeta in Hrun.
  apply bind_Some in Hrun as (model1 & log1 & Hup & Hrun).
  cbn [meshCount meshes set_model_transform] in Hup. rewrite Hmc in Hup.
  destruct (primitivesCount data =? 0) eqn:Hz; [lia|].
  apply bind_Some in Hup as (ms0 & ? & Hms0 & Hup).
  apply defined_Some in Hms0 as [Hms0 ->].
  assert (ms0 = ms) as -> by congruence.
  apply bind_Some in Hup as (ms' & log2 & Hloop & Hup).
  apply ret_Some in Hup as [-> ->].
  pose proof (upload_loop UploadMesh ms log0 []) as Hall.
  change (Z.of_nat (length [])) with 0 in Hall. rewrite !app_nil_l in Hall.
  replace (Z.of_nat (length ms)) with (primitivesCount data) in Hall by lia.
  rewrite Hall in Hloop. injection Hloop as <- <-.
  cbn [materialCount set_model_meshes set_model_transform] in Hrun. rewrite Hmatc in Hrun.
  destruct (Z.of_nat (length (materials_ data)) + 1 =? 0) eqn:Hz'; [lia|].
  apply ret_Some in Hrun as [-> ->].
  exists model0, ms. split_and!; [done|done|]. by rewrite Hmc.
Qed.

(** X13.  A parsed file without any primitive and without a scene loads into a
    model that cannot be drawn: it has one placeholder mesh, but its
    material index array is the one allocated for zero meshes, and
    [DrawGLTFModelEx] reads entry 0 of it, outside the array. *)
Theorem empty_file_cannot_be_drawn data fileName log model log' fuel position rotationAxis
    rotationAngle scale tint w :
  primitivesCount data = 0 ->
  scenes_ data = [] ->
  LoadGLTFModel (Parsed data) fileName log = Some (model, log') ->
  meshCount model = 1 /\
  meshMaterial model = Some [] /\
  DrawGLTFModelEx fuel model position rotationAxis rotationAngle scale tint w = None.
Proof.
  intros Hzero Hscenes Hrun.
  pose proof (placeholder_without_primitives _ _ _ _ _ Hzero Hrun) as (Hmc & _ & _ & Hmm).
  split; [done|]. split; [done|].
  assert (Hsc : sceneCount model = 0).
  { apply LoadGLTFModel_keeps_graph in Hrun
      as (model0 & log0 & Hfile & _ & _ & _ & -> & _).
    apply LoadGLTFModelFile_run in Hfile
      as (materials0 & last & mats1 & log1 & log2 & starts & ends & cur & log3 & log4
          & ns & log5 & log6 & _ & _ & _ & _ & ->).
    by rewrite Hscenes. }
  unfold DrawGLTFModelEx. cbv zeta.
  cbn [scene sceneCount scenes meshCount model_transform set_model_transform].
  rewrite Hsc, Hmc.
  assert (((0 <=? scene model) && (scene model <? 0)) = false) as ->
    by (destruct (0 <=? scene model) eqn:E; simpl; lia).
  change (seqZ 0 1) with [0]. cbn [Prog.for_each].
  unfold draw_mesh_tinted at 1. cbn [meshMaterial set_model_transform]. rewrite Hmm.
  reflexivity.
Qed.

(** X14.  When the file cannot be read or cannot be parsed, [LoadGLTFModel]
    returns a model with the default material as its only material and the
    material index 0 for its one mesh, and logs a warning about the
    materials; with a default diffuse colour and a tint in 0..255,
    [DrawGLTFModel] then issues one draw, of the placeholder mesh with the
    tinted default material. *)
Theorem failed_load_is_drawable file fileName log dmap fuel position scale tint :
  file = FileUnreadable \/ file = ParseFailure ->
  at_index (maps LoadMaterialDefault) MATERIAL_MAP_DIFFUSE = Some dmap ->
  valid_color (color dmap) ->
  valid_color tint ->
  exists model log' call,
    LoadGLTFModel file fileName log = Some (model, log') /\
    materialCount model = 1 /\
    materials model = Some [LoadMaterialDefault] /\
    meshMaterial model = Some [0] /\
    has_warning "MATERIAL: [%s] Failed to load material data, default to white material" log' /\
    DrawGLTFModel fuel model position scale tint (world_of model)
      = Some (tt, after_draws (world_of model) [call]) /\
    meshes model = Some [drawn_mesh call] /\
    (exists c', tint_color (color dmap) tint = Some c' /\
                diffuse_color (drawn_material call) = Some c').
Proof.
  intros Hfile Hd Hvc Hvt.
  assert (exists model log',
            LoadGLTFModel file fileName log = Some (model, log') /\
            meshCount model = 1 /\ (exists mesh, meshes model = Some [mesh]) /\
            materialCount model = 1 /\ materials model = Some [LoadMaterialDefault] /\
            meshMaterial model = Some [0] /\ sceneCount model = 0 /\
            has_warning
              "MATERIAL: [%s] Failed to load material data, default to white material" log')
    as (model & log' & Hload & Hmc & [mesh Hms] & Hmatc & Hmats & Hmm & Hsc & Hwarn).
  { destruct Hfile as [-> | ->]; unfold LoadGLTFModel, LoadGLTFModelFile, has_warning;
      destruct SUPPORT_MESH_GENERATION eqn:E; simpl;
      unfold Prog.bind, TRACELOG, Prog.modify, Prog.ret; simpl; rewrite ?E; simpl;
      eexists _, _; (split; [reflexivity|]); simpl; split_and!; eauto;
      apply in_or_app; right; by left. }
  assert (Hdraw : mesh_drawable model (world_materials (world_of model)) 0).
  { exists [0], [mesh], 0, LoadMaterialDefault, dmap, mesh.
    unfold world_of. rewrite Hmats. by split_and!. }
  destruct (draw_meshes_defined model
              (MatrixMultiply (model_transform model)
                 (MatrixMultiply
                    (MatrixMultiply (MatrixScale scale scale scale)
                       (MatrixRotate (mkVector3 f32_zero (f32_of_Z 1) f32_zero)
                                     (fmul f32_zero DEG2RAD)))
                    (MatrixTranslate (v3x position) (v3y position) (v3z position))))
              tint [0] (world_of model) Hvt) as [calls Hcalls].
  { by constructor. }
  pose proof (draw_meshes_run _ _ _ _ _ _ _ Hcalls) as (calls' & Hspec & Heq).
  assert (calls' = calls) as ->.
  { apply (f_equal world_drawn) in Heq. simpl in Heq. congruence. }
  apply Forall2_cons_inv_l in Hspec as (call & rest & Hcall & Hrest & ->).
  apply Forall2_nil_inv_l in Hrest as ->.
  exists model, log', call. split_and!; try done.
  - unfold DrawGLTFModel, DrawGLTFModelEx. cbv zeta.
    cbn [scene sceneCount scenes meshCount model_transform set_model_transform v3x v3y v3z].
    rewrite Hsc, Hmc.
    assert (((0 <=? scene model) && (scene model <? 0)) = false) as ->
      by (destruct (0 <=? scene model) eqn:E; simpl; lia).
    exact Hcalls.
  - destruct Hcall as (mm & ms & k & mat & dmap' & c' & used & mesh' &
      Hmm' & Hk & Hmat & Hd' & Hc' & Hused & Hms' & Hmesh' & ->).
    simpl. rewrite Hms in Hms'. injection Hms' as <-.
    apply at_index_Some in Hmesh' as [_ Hmesh']. simpl in Hmesh'. by injection Hmesh' as ->.
  - destruct Hcall as (mm & ms & k & mat & dmap' & c' & used & mesh' &
      Hmm' & Hk & Hmat & Hd' & Hc' & Hused & Hms' & Hmesh' & ->).
    simpl. rewrite Hmm in Hmm'. injection Hmm' as <-.
    apply at_index_Some in Hk as [_ Hk]. simpl in Hk. injection Hk as <-.
    unfold world_of in Hmat. rewrite Hmats in Hmat. simpl in Hmat.
    apply at_index_Some in Hmat as [_ Hmat]. simpl in Hmat. injection Hmat as <-.
    rewrite Hd in Hd'. injection Hd' as <-.
    exists c'. split; [done|]. by eapply with_diffuse_color_read.
Qed.

End LoaderFacts.

(** ** Vertex attributes and indices *)

Section AttributeLayout.

Lemma concat_uniform_length {A} (rows : list (list A)) n :
  Forall (fun row => length row = n) rows -> length (concat rows) = (length rows * n)%nat.
Proof.
  induction 1 as [|row rows Hrow _ IH]; simpl; [done|]. rewrite length_app. lia.
Qed.

Lemma concat_uniform_lookup {A} (rows : list (list A)) n k l row v :
  Forall (fun row => length row = n) rows ->
  rows !! k = Some row -> row !! l = Some v ->
  concat rows !! (k * n + l)%nat = Some v.
Proof.
  intros Hrows. revert k. induction Hrows as [|r rows Hr _ IH]; intros k Hk Hl; [done|].
  destruct k as [|k]; simpl in *.
  - injection Hk as ->. by apply lookup_app_l_Some.
  - rewrite lookup_app_r by lia.
    replace (n + k * n + l - length r)%nat with (k * n + l)%nat by lia. by apply IH.
Qed.

Lemma LOAD_ATTRIBUTE_rows accesor numComp sz dst :
  LOAD_ATTRIBUTE accesor numComp sz = Some dst ->
  exists view bytes rows,
    acc_buffer_view accesor = Some view /\
    buffer_data (bv_buffer view) = Some bytes /\
    dst = concat rows /\
    length rows = Z.to_nat (acc_count accesor) /\
    Forall (fun row => length row = Z.to_nat numComp) rows /\
    forall k row, 0 <= k -> rows !! Z.to_nat k = Some row ->
      Forall2 (fun l v =>
                 read_element sz bytes
                   (bv_offset view / sz + acc_offset accesor / sz
                    + k * to_int (acc_stride accesor / sz) + l) = Some v)
              (seqZ 0 numComp) row.
Proof.
  unfold LOAD_ATTRIBUTE. intros Hl.
  destruct (acc_buffer_view accesor) as [view|] eqn:Hview; [|done]. simpl in Hl.
  destruct (buffer_data (bv_buffer view)) as [bytes|] eqn:Hbytes; [|done]. simpl in Hl.
  destruct (mapM _ (seqZ 0 (acc_count accesor))) as [rows|] eqn:Hrows; [|done].
  simpl in Hl. injection Hl as <-.
  exists view, bytes, rows. split_and!; try done.
  - apply length_mapM in Hrows. rewrite length_seqZ in Hrows. lia.
  - apply mapM_Some_1 in Hrows.
    induction Hrows as [|k row ks rows Hk _ IH]; constructor; [|done].
    case_decide; [|done]. apply length_mapM in Hk. rewrite length_seqZ in Hk. lia.
  - intros k row Hk0 Hrow. apply mapM_Some_1 in Hrows.
    destruct (Forall2_lookup_r _ _ _ _ _ Hrows Hrow) as (k' & Hk' & Hread).
    apply lookup_seqZ in Hk' as [-> _]. simpl in Hread.
    case_decide; [|done]. apply mapM_Some_1 in Hread.
    replace (0 + Z.of_nat (Z.to_nat k)) with k in Hread by lia.
    eapply Forall2_impl; [exact Hread|]. intros l v Hv. simpl in Hv.
    exact Hv.
Qed.

Lemma LOAD_ATTRIBUTE_length accesor numComp sz dst :
  LOAD_ATTRIBUTE accesor numComp sz = Some dst ->
  length dst = (Z.to_nat (acc_count accesor) * Z.to_nat numComp)%nat.
Proof.
  intros Hl. apply LOAD_ATTRIBUTE_rows in Hl
    as (view & bytes & rows & _ & _ & -> & Hlen & Hrows & _).
  rewrite <- Hlen. by apply concat_uniform_length.
Qed.

(** X15.  When [LOAD_ATTRIBUTE] returns, the accessor has a buffer view with
    data, the destination has count x numComp values, and value l of element
    k, stored at numComp * k + l, is the value read in the buffer at the
    element offset (view offset + accessor offset) / size plus k times the
    stride in values, plus l. *)
Theorem LOAD_ATTRIBUTE_layout accesor numComp sz dst :
  LOAD_ATTRIBUTE accesor numComp sz = Some dst ->
  exists view bytes,
    acc_buffer_view accesor = Some view /\
    buffer_data (bv_buffer view) = Some bytes /\
    length dst = (Z.to_nat (acc_count accesor) * Z.to_nat numComp)%nat /\
    forall k l, 0 <= k < acc_count accesor -> 0 <= l < numComp ->
      exists v,
        at_index dst (numComp * k + l) = Some v /\
        read_element sz bytes
          (bv_offset view / sz + acc_offset accesor / sz
           + k * to_int (acc_stride accesor / sz) + l) = Some v.
Proof.
  intros Hl. pose proof (LOAD_ATTRIBUTE_length _ _ _ _ Hl) as Hlen.
  apply LOAD_ATTRIBUTE_rows in Hl
    as (view & bytes & rows & Hview & Hbytes & -> & Hrows_len & Hrows & Hread).
  exists view, bytes. split_and!; try done.
  intros k l Hk Hl.
  destruct (lookup_lt_is_Some_2 rows (Z.to_nat k)) as [row Hrow]; [lia|].
  specialize (Hread k row ltac:(lia) Hrow).
  destruct (Forall2_lookup_l _ _ _ (Z.to_nat l) l Hread) as (v & Hv & Hval).
  { apply lookup_seqZ. split; lia. }
  exists v. split; [|done].
  apply at_index_Some. split; [lia|].
  replace (Z.to_nat (numComp * k + l)) with (Z.to_nat k * Z.to_nat numComp + Z.to_nat l)%nat
    by nia.
  by eapply concat_uniform_lookup.
Qed.

End AttributeLayout.

Section AttributeFacts.

Lemma uchar_of_range x c : uchar_of x = Some c -> valid_channel c.
Proof.
  unfold uchar_of, valid_channel. destruct (trunc x) as [z|]; [|done].
  destruct (_ && _) eqn:E; [|done]. intros [= ->]. lia.
Qed.

Lemma mapM_uchar {A} (f : A -> option Z) (l : list A) cs :
  (forall x c, f x = Some c -> valid_channel c) ->
  mapM f l = Some cs -> Forall valid_channel cs /\ length cs = length l.
Proof.
  intros Hf Hcs. split; [|by apply length_mapM in Hcs].
  apply mapM_Some_1 in Hcs. induction Hcs; constructor; eauto.
Qed.

Lemma read_element_range sz bytes i v :
  read_element sz bytes i = Some v -> 0 <= v < 2 ^ (Z.of_nat (Z.to_nat sz) * 8).
Proof.
  unfold read_element.
  destruct (mapM _ (seqZ 0 sz)) as [bs|] eqn:Hbs; [|done]. simpl. intros [= <-].
  apply length_mapM in Hbs. rewrite length_seqZ in Hbs.
  rewrite Hbs, <- (length_fmap (fun x => Z.of_N (Byte.to_N x))).
  apply little_endian_to_Z_bound; [lia|].
  apply Forall_fmap, Forall_forall. intros x _. simpl.
  pose proof (Byte.to_N_bounded x). lia.
Qed.

Lemma LOAD_ATTRIBUTE_range accesor numComp sz dst :
  LOAD_ATTRIBUTE accesor numComp sz = Some dst ->
  Forall (fun v => 0 <= v < 2 ^ (Z.of_nat (Z.to_nat sz) * 8)) dst.
Proof.
  intros Hl. apply LOAD_ATTRIBUTE_rows in Hl
    as (view & bytes & rows & _ & _ & -> & _ & _ & Hread).
  apply Forall_concat, Forall_lookup. intros k row Hrow.
  specialize (Hread (Z.of_nat k) row ltac:(lia)). rewrite Nat2Z.id in Hread.
  specialize (Hread Hrow). clear Hrow.
  induction Hread as [|l v ls vs Hv _ IH]; constructor; [|done].
  by eapply read_element_range.
Qed.

Lemma LOAD_ATTRIBUTE_bytes accesor numComp dst :
  LOAD_ATTRIBUTE accesor numComp 1 = Some dst -> Forall valid_channel dst.
Proof.
  intros Hl. apply LOAD_ATTRIBUTE_range in Hl.
  eapply Forall_impl; [exact Hl|]. intros v Hv. unfold valid_channel.
  cbv beta in Hv. change (2 ^ (Z.of_nat (Z.to_nat 1) * 8)) with 256 in Hv. lia.
Qed.

Lemma LOAD_ATTRIBUTE_float_length accesor numComp dst :
  LOAD_ATTRIBUTE_float accesor numComp = Some dst ->
  length dst = (Z.to_nat (acc_count accesor) * Z.to_nat numComp)%nat.
Proof.
  unfold LOAD_ATTRIBUTE_float. destruct (LOAD_ATTRIBUTE accesor numComp 4) as [l|] eqn:Hl; [|done].
  simpl. intros [= <-]. rewrite length_map. by eapply LOAD_ATTRIBUTE_length.
Qed.

(** X16.  One attribute of a primitive never touches the indices or the
    triangle count of the mesh.  In a supported format it logs nothing and
    fills its array with count x components values (a position sets the
    vertex count, a colour gives channels in 0..255); in any other format
    the mesh is unchanged, with a warning for a vertex attribute and in
    silence for the other kinds. *)
Theorem load_attribute_result attr mesh log mesh' log' :
  load_attribute attr mesh log = Some (mesh', log') ->
  indices mesh' = indices mesh /\ triangleCount mesh' = triangleCount mesh /\
  if supported_format attr then
    log' = log /\
    attribute_array_length (attr_type attr) mesh'
      = Some (Z.to_nat (acc_count (attr_data attr))
              * attribute_components (attr_type attr))%nat /\
    (attr_type attr = cgltf_attribute_type_position ->
       vertexCount mesh' = to_int (acc_count (attr_data attr))) /\
    (forall cs, attr_type attr = cgltf_attribute_type_color ->
       colors mesh' = Some cs -> Forall valid_channel cs)
  else
    mesh' = mesh /\
    if is_vertex_attribute (attr_type attr)
    then exists msg, log' = log ++ [(LOG_WARNING, msg)]
    else log' = log.
Proof.
  unfold load_attribute, supported_format. cbv zeta.
  destruct (attr_type attr); cbn [is_vertex_attribute attribute_array_length
                                   attribute_components];
    repeat match goal with
    | |- context [has_format ?a ?c ?t] => destruct (has_format a c t)
    end; cbn [orb];
    intros Hrun;
    repeat match goal with
    | H : Prog.bind (Prog.defined _) _ _ = Some _ |- _ =>
        let v := fresh "v" in let Hv := fresh "Hv" in
        apply bind_Some in H as (v & ? & Hv & H); apply defined_Some in Hv as [Hv ->]
    | H : Prog.bind (TRACELOG _ _) _ _ = Some _ |- _ =>
        apply bind_Some in H as (? & ? & Hlog & H); injection Hlog as _ <-
    | H : Prog.ret _ _ = Some _ |- _ => apply ret_Some in H as [-> ->]
    end;
    cbn [indices triangleCount vertexCount vertices normals tangents texcoords colors
         set_vertices set_normals set_tangents set_texcoords set_colors fmap option_fmap
         option_map];
    try match goal with
        | Hm : mapM _ _ = Some _ |- _ =>
            destruct (mapM_uchar _ _ _ (fun x c => uchar_of_range _ c) Hm) as [Hrange Hlen]
        end;
    split_and!; eauto;
    try discriminate;
    rewrite ?Hlen;
    try (by erewrite LOAD_ATTRIBUTE_float_length by done);
    try (by erewrite LOAD_ATTRIBUTE_length by done);
    try (intros cs _ [= <-]; done);
    try (intros cs _ [= <-]; by eapply LOAD_ATTRIBUTE_bytes).
Qed.

(** X17.  Loading the indices of a primitive leaves its vertex data alone.
    Without an index accessor the triangle count is the vertex count divided
    by 3; with one it is the accessor's count divided by 3, whatever the
    format.  A 16-bit or 32-bit unsigned accessor gives one 16-bit index per
    element; any other format leaves the index array as it was and logs a
    warning. *)
Theorem load_indices_result prim mesh log mesh' log' :
  load_indices prim mesh log = Some (mesh', log') ->
  vertex_data mesh' = vertex_data mesh /\
  match prim_indices prim with
  | None =>
      triangleCount mesh' = cdiv (vertexCount mesh) 3 /\
      indices mesh' = indices mesh /\ log' = log
  | Some attribute =>
      triangleCount mesh' = cdiv (to_int (acc_count attribute)) 3 /\
      if supported_index_format attribute then
        exists v, indices mesh' = Some v /\ length v = Z.to_nat (acc_count attribute) /\
                  Forall (fun i => 0 <= i < 65536) v
      else
        indices mesh' = indices mesh /\
        log' = log ++ [(LOG_WARNING,
                        "MODEL: [%s] Indices data format not supported, use u16"%string)]
  end.
Proof.
  unfold load_indices, supported_index_format.
  destruct (prim_indices prim) as [attribute|]; cbv zeta.
  2:{ intros Hrun. by apply ret_Some in Hrun as [-> ->]. }
  destruct (bool_decide (acc_component_type attribute = cgltf_component_type_r_16u));
    [|destruct (bool_decide (acc_component_type attribute = cgltf_component_type_r_32u))];
    cbn [orb]; intros Hrun.
  - apply bind_Some in Hrun as (v & ? & Hv & Hrun). apply defined_Some in Hv as [Hv ->].
    apply ret_Some in Hrun as [-> ->]. split_and!; try done.
    exists v. split_and!; [done|by eapply LOAD_ATTRIBUTE_scalar_length|].
    apply LOAD_ATTRIBUTE_range in Hv. exact Hv.
  - apply bind_Some in Hrun as (v & ? & Hv & Hrun). apply defined_Some in Hv as [Hv ->].
    apply bind_Some in Hrun as (? & ? & Hlog & Hrun). injection Hlog as _ <-.
    apply ret_Some in Hrun as [-> ->]. split_and!; try done.
    eexists. split_and!; [done| |].
    + rewrite length_fmap. by eapply LOAD_ATTRIBUTE_scalar_length.
    + apply Forall_fmap, Forall_forall. intros i _. unfold to_ushort. simpl.
      apply Z.mod_pos_bound. lia.
  - apply bind_Some in Hrun as (? & ? & Hlog & Hrun). injection Hlog as _ <-.
    by apply ret_Some in Hrun as [-> ->].
Qed.

End AttributeFacts.

(** ** Images *)

Section ImageFacts.

Context `{Raylib}.

Lemma string_length_app (s1 s2 : string) :
  String.length (s1 ++ s2) = (String.length s1 + String.length s2)%nat.
Proof. induction s1 as [|c s1 IH]; simpl; [done|]. by rewrite IH. Qed.

Lemma prefix_app (s rest : string) : String.prefix s (s ++ rest) = true.
Proof.
  induction s as [|a s IH]; cbn [String.prefix String.append]; [by destruct rest|].
  by destruct (Ascii.ascii_dec a a).
Qed.

Lemma substring_all (s : string) : String.substring 0 (String.length s) s = s.
Proof. induction s as [|c s IH]; simpl; [done|]. by rewrite IH. Qed.

Lemma substring_after (pre : string) c rest :
  String.substring (S (String.length pre))
    (String.length (pre ++ String c rest) - S (String.length pre)) (pre ++ String c rest)
  = rest.
Proof.
  induction pre as [|a pre IH]; simpl.
  - rewrite Nat.sub_0_r. apply substring_all.
  - exact IH.
Qed.

Lemma index_first_comma (pre rest : string) :
  no_comma pre = true ->
  String.index 0 "," (pre ++ String ","%char rest) = Some (String.length pre).
Proof.
  induction pre as [|a pre IH];
    cbn [String.index String.prefix String.append String.length no_comma]; intros Hpre.
  - destruct (Ascii.ascii_dec ","%char ","%char); [by destruct rest|done].
  - apply andb_prop in Hpre as [Ha Hpre]. apply negb_true_iff in Ha.
    destruct (Ascii.ascii_dec ","%char a) as [<-|Hne].
    + by rewrite Ascii.eqb_refl in Ha.
    + by rewrite IH by done.
Qed.

Lemma index_no_comma (s : string) : no_comma s = true -> String.index 0 "," s = None.
Proof.
  induction s as [|a s IH];
    cbn [String.index String.prefix String.append no_comma]; intros Hs; [done|].
  apply andb_prop in Hs as [Ha Hs]. apply negb_true_iff in Ha.
  destruct (Ascii.ascii_dec ","%char a) as [<-|Hne].
  - by rewrite Ascii.eqb_refl in Ha.
  - by rewrite IH by done.
Qed.

(** X18.  An image given by a URI.  A data URI with a comma has the text
    after its first comma decoded as base64 into 3 * (length / 4) bytes, and
    these are read as a PNG image, whatever the media type says (a failed
    decoding gives the empty image).  A data URI without a comma gives the
    empty image and a warning.  Any other URI, the five characters "data:"
    alone among them, is loaded as a file relative to the texture path. *)
Theorem image_from_uri img texPath log u :
  uri img = Some u ->
  (forall media payload,
     u = ("data:" ++ media ++ "," ++ payload)%string ->
     no_comma media = true ->
     Z.of_nat (String.length payload) <= INT_MAX ->
     let outSize := 3 * (Z.of_nat (String.length payload) / 4) in
     LoadImageFromCgltfImage img texPath log
     = Some (match cgltf_load_buffer_base64 outSize payload with
             | Some data => LoadImageFromMemory ".png" data outSize
             | None => zero_Image
             end, log)) /\
  (forall rest,
     u = ("data:" ++ rest)%string -> rest <> ""%string -> no_comma rest = true ->
     LoadImageFromCgltfImage img texPath log
     = Some (zero_Image,
             log ++ [(LOG_WARNING, "IMAGE: glTF data URI is not a valid image"%string)])) /\
  (String.prefix "data:" u = false \/ u = "data:"%string ->
     LoadImageFromCgltfImage img texPath log
     = Some (LoadImage (TextFormat_path texPath u), log)).
Proof.
  intros Huri. unfold LoadImageFromCgltfImage. rewrite Huri. split_and!.
  - intros media payload -> Hmedia Hfits. cbv zeta.
    assert (is_data_uri ("data:" ++ media ++ "," ++ payload) = true) as ->.
    { unfold is_data_uri. apply andb_true_iff. split; [|apply prefix_app].
      apply Z.ltb_lt. rewrite !string_length_app. simpl String.length. lia. }
    change ("data:" ++ media ++ "," ++ payload)%string
      with (("data:" ++ media) ++ String ","%char payload)%string.
    rewrite index_first_comma by done.
    rewrite substring_after.
    rewrite to_int_small by (unfold INT_MAX in *; lia).
    unfold cdiv. rewrite Z.quot_div_nonneg by lia.
    by destruct (cgltf_load_buffer_base64 _ _).
  - intros rest -> Hrest Hnc.
    assert (is_data_uri ("data:" ++ rest) = true) as ->.
    { unfold is_data_uri. apply andb_true_iff. split; [|apply prefix_app].
      apply Z.ltb_lt. rewrite string_length_app. destruct rest; [done|].
      simpl String.length. lia. }
    rewrite index_no_comma by done. reflexivity.
  - intros Hpath.
    assert (is_data_uri u = false) as ->; [|done].
    unfold is_data_uri. destruct Hpath as [-> | ->]; [apply andb_false_r|done].
Qed.

Lemma copy_bytes (bytes : list Byte.byte) offset size :
  0 <= offset -> 0 <= size -> offset + size <= Z.of_nat (length bytes) ->
  mapM (fun i => at_index bytes (offset + i * 1)) (seqZ 0 size)
  = Some (take (Z.to_nat size) (drop (Z.to_nat offset) bytes)).
Proof.
  intros Ho Hs Hlen. apply mapM_Some.
  apply Forall2_same_length_lookup. split.
  - rewrite length_seqZ, length_take, length_drop. lia.
  - intros i k x Hk Hx. apply lookup_seqZ in Hk as [-> Hi].
    apply lookup_take_Some in Hx as [Hx _]. rewrite lookup_drop in Hx.
    apply at_index_Some. split; [lia|].
    by replace (Z.to_nat (offset + (0 + Z.of_nat i) * 1)) with (Z.to_nat offset + i)%nat by lia.
Qed.

(** X19.  An image without URI, embedded in a buffer view with a stride of 0
    or 1 that lies inside its buffer: the [size] bytes from the view's
    offset are read as PNG for the MIME type image/png, as JPEG for
    image/jpeg (both also with an escaped slash); any other MIME type gives
    the empty image and a warning. *)
Theorem image_from_buffer_view img texPath log view bytes mime :
  uri img = None ->
  img_buffer_view img = Some view ->
  buffer_data (bv_buffer view) = Some bytes ->
  mime_type img = Some mime ->
  to_int (bv_stride view) = 0 \/ to_int (bv_stride view) = 1 ->
  0 <= to_int (bv_offset view) ->
  0 <= bv_size view ->
  to_int (bv_offset view) + bv_size view <= Z.of_nat (length bytes) ->
  let data := take (Z.to_nat (bv_size view))
                   (drop (Z.to_nat (to_int (bv_offset view))) bytes) in
  LoadImageFromCgltfImage img texPath log
  = if String.eqb mime "image\/png" || String.eqb mime "image/png"
    then Some (LoadImageFromMemory ".png" data (to_int (bv_size view)), log)
    else if String.eqb mime "image\/jpeg" || String.eqb mime "image/jpeg"
    then Some (LoadImageFromMemory ".jpg" data (to_int (bv_size view)), log)
    else Some (zero_Image,
               log ++ [(LOG_WARNING,
                        "MODEL: glTF image data MIME type not recognized"%string)]).
Proof.
  intros Huri Hview Hbytes Hmime Hstride Ho Hs Hlen. cbv zeta.
  unfold LoadImageFromCgltfImage. rewrite Huri, Hview. simpl. unfold Prog.bind at 1. simpl.
  rewrite Hbytes.
  assert ((if to_int (bv_stride view) =? 0 then 1 else to_int (bv_stride view)) = 1) as ->.
  { destruct Hstride as [-> | ->]; done. }
  rewrite copy_bytes by done. rewrite Hmime.
  unfold Prog.bind at 1. simpl. unfold Prog.bind at 1. simpl.
  destruct (_ || _); [done|]. destruct (_ || _); done.
Qed.

End ImageFacts.

(** ** Material maps *)

Section MaterialMaps.

Context `{Raylib}.

Lemma set_map_frame mat k f mat' :
  set_map mat k f = Some mat' ->
  shader mat' = shader mat /\ params mat' = params mat /\
  length (maps mat') = length (maps mat).
Proof.
  unfold set_map. intros Hs.
  destruct (store_at (maps mat) k f) as [maps'|] eqn:E; simplify_eq/=.
  split_and!; try done. by eapply length_store_at.
Qed.

Lemma load_map_texture_run mat k img texPath log mat' log' :
  load_map_texture mat k img texPath log = Some (mat', log') ->
  exists im,
    LoadImageFromCgltfImage img texPath log = Some (im, log') /\
    match image_data im with
    | Some _ => set_map mat k (set_texture (LoadTextureFromImage im)) = Some mat'
    | None => mat' = mat
    end.
Proof.
  unfold load_map_texture. intros Hrun.
  apply bind_Some in Hrun as (im & log1 & Him & Hrun). exists im.
  destruct (image_data im).
  - apply defined_Some in Hrun as [Hs ->]. by split.
  - apply ret_Some in Hrun as [-> ->]. by split.
Qed.

Lemma set_map_via mat k f mat' :
  set_map mat k f = Some mat' -> maps_via (only_at k f) mat mat'.
Proof.
  intros Hs. destruct (set_map_frame _ _ _ _ Hs) as (? & ? & ?).
  split_and!; try done. intros j. rewrite (set_map_lookup _ _ _ _ j Hs). unfold only_at.
  case_decide; [by subst|]. by destruct (at_index (maps mat) j).
Qed.

Lemma maps_via_refl mat : maps_via (fun _ mm => mm) mat mat.
Proof. split_and!; try done. intros j. by destruct (at_index (maps mat) j). Qed.

Lemma maps_via_trans F G m1 m2 m3 :
  maps_via F m1 m2 -> maps_via G m2 m3 -> maps_via (fun j mm => G j (F j mm)) m1 m3.
Proof.
  intros (Hs1 & Hp1 & Hl1 & H1) (Hs2 & Hp2 & Hl2 & H2).
  split_and!; try congruence. intros j. rewrite H2, H1.
  by destruct (at_index (maps m1) j).
Qed.

Lemma maps_via_ext F G m1 m2 :
  (forall j mm, F j mm = G j mm) -> maps_via F m1 m2 -> maps_via G m1 m2.
Proof.
  intros Hext (Hs & Hp & Hl & Hj). split_and!; try done. intros j. rewrite Hj.
  destruct (at_index (maps m1) j); simpl; by rewrite ?Hext.
Qed.

(** The texture step, as a change of the map. *)
Lemma optional_texture_via (view : cgltf_texture_view) mat k texPath log mat' log' :
  match tv_texture view with
  | Some img => load_map_texture mat k img texPath
  | None => Prog.ret mat
  end log = Some (mat', log') ->
  exists t,
    maps_via (only_at k t) mat mat' /\
    (forall mm, color (t mm) = color mm /\ value (t mm) = value mm /\
                texture_from view texPath (texture mm) (texture (t mm))).
Proof.
  unfold texture_from. destruct (tv_texture view) as [img|]; intros Hrun.
  - apply load_map_texture_run in Hrun as (im & Him & Hrun).
    destruct (image_data im) eqn:Hdata.
    + exists (set_texture (LoadTextureFromImage im)). split; [by apply set_map_via|].
      intros mm. split_and!; try done. exists im, log, log'. by rewrite Hdata.
    + subst. exists (fun mm => mm). split.
      * eapply maps_via_ext; [|apply maps_via_refl]. intros j mm. unfold only_at.
        by case_decide.
      * intros mm. split_and!; try done. exists im, log, log'. by rewrite Hdata.
  - apply ret_Some in Hrun as [-> ->]. exists (fun mm => mm). split; [|done].
    eapply maps_via_ext; [|apply maps_via_refl]. intros j mm. unfold only_at. by case_decide.
Qed.

(** The four assignments to the channels of a colour. *)
Lemma four_channels mat k c0 c1 c2 c3 m1 m2 m3 m4 :
  set_map mat k (fun mm => set_color (mkColor c0 (g (color mm)) (b (color mm)) (a (color mm))) mm)
    = Some m1 ->
  set_map m1 k (fun mm => set_color (mkColor (r (color mm)) c1 (b (color mm)) (a (color mm))) mm)
    = Some m2 ->
  set_map m2 k (fun mm => set_color (mkColor (r (color mm)) (g (color mm)) c2 (a (color mm))) mm)
    = Some m3 ->
  set_map m3 k (fun mm => set_color (mkColor (r (color mm)) (g (color mm)) (b (color mm)) c3) mm)
    = Some m4 ->
  maps_via (only_at k (set_color (mkColor c0 c1 c2 c3))) mat m4.
Proof.
  intros H1 H2 H3 H4.
  apply set_map_via in H1, H2, H3, H4.
  pose proof (maps_via_trans _ _ _ _ _ (maps_via_trans _ _ _ _ _
                (maps_via_trans _ _ _ _ _ H1 H2) H3) H4) as Hall.
  eapply maps_via_ext; [|exact Hall]. intros j mm. unfold only_at. by case_decide.
Qed.

Lemma texture_only_id (view : cgltf_texture_view) texPath :
  tv_texture view = None -> texture_only view texPath (fun mm => mm).
Proof. intros Hnone mm. unfold texture_from. by rewrite Hnone. Qed.

(** The maps of an imported material, from those of the default material. *)
Lemma load_material_maps src fileName log mat log' :
  has_pbr_metallic_roughness src = true ->
  load_material src fileName log = Some (mat, log') ->
  let pbr := pbr_metallic_roughness src in
  let texPath := GetDirectoryPath fileName in
  exists tA tR tN tO tE vR vM cE base,
    valid_color base /\
    texture_only (base_color_texture pbr) texPath tA /\
    texture_only (metallic_roughness_texture pbr) texPath tR /\
    texture_only (normal_texture src) texPath tN /\
    texture_only (occlusion_texture src) texPath tO /\
    texture_only (emissive_texture src) texPath tE /\
    match tv_texture (metallic_roughness_texture pbr) with
    | Some _ => vR = set_value (roughness_factor pbr) /\ vM = set_value (metallic_factor pbr)
    | None => vR = (fun mm => mm) /\ vM = (fun mm => mm)
    end /\
    match tv_texture (emissive_texture src) with
    | Some _ =>
        exists er eg eb,
          factor_to_uchar (emissive_factor src).1.1 = Some er /\
          factor_to_uchar (emissive_factor src).1.2 = Some eg /\
          factor_to_uchar (emissive_factor src).2 = Some eb /\
          cE = set_color (mkColor er eg eb 255)
    | None => cE = (fun mm => mm)
    end /\
    (is_Some (tv_texture (emissive_texture src)) ->
       is_Some (at_index (maps LoadMaterialDefault) MATERIAL_MAP_EMISSION)) /\
    maps_via
      (fun j mm =>
         only_at MATERIAL_MAP_EMISSION cE j (only_at MATERIAL_MAP_EMISSION tE j
         (only_at MATERIAL_MAP_OCCLUSION tO j (only_at MATERIAL_MAP_NORMAL tN j
         (only_at MATERIAL_MAP_METALNESS vM j (only_at MATERIAL_MAP_ROUGHNESS vR j
         (only_at MATERIAL_MAP_ROUGHNESS tR j
         (only_at MATERIAL_MAP_ALBEDO (set_color base) j
         (only_at MATERIAL_MAP_ALBEDO tA j mm)))))))))
      LoadMaterialDefault mat.
Proof.
  intros Hpbr Hrun. cbv zeta.
  unfold load_material in Hrun. rewrite Hpbr in Hrun. cbv zeta in Hrun.
  destruct (base_color_factor (pbr_metallic_roughness src)) as [[[f0 f1] f2] f3] eqn:Hbase.
  apply bind_Some in Hrun as (mat0 & log0 & H0 & Hrun).
  apply optional_texture_via in H0 as (tA & HA & HtA).
  apply bind_Some in Hrun as (cr & ? & Hcr & Hrun). apply defined_Some in Hcr as [Hcr ->].
  apply bind_Some in Hrun as (mat1 & ? & H1 & Hrun). apply defined_Some in H1 as [H1 ->].
  apply bind_Some in Hrun as (cg & ? & Hcg & Hrun). apply defined_Some in Hcg as [Hcg ->].
  apply bind_Some in Hrun as (mat2 & ? & H2 & Hrun). apply defined_Some in H2 as [H2 ->].
  apply bind_Some in Hrun as (cb & ? & Hcb & Hrun). apply defined_Some in Hcb as [Hcb ->].
  apply bind_Some in Hrun as (mat3 & ? & H3 & Hrun). apply defined_Some in H3 as [H3 ->].
  apply bind_Some in Hrun as (ca & ? & Hca & Hrun). apply defined_Some in Hca as [Hca ->].
  apply bind_Some in Hrun as (mat4 & ? & H4 & Hrun). apply defined_Some in H4 as [H4 ->].
  pose proof (four_channels _ _ _ _ _ _ _ _ _ _ H1 H2 H3 H4) as Hbase4.
  apply bind_Some in Hrun as (mat5 & log5 & H5 & Hrun).
  apply bind_Some in Hrun as (mat6 & log6 & H6 & Hrun).
  apply optional_texture_via in H6 as (tN & HN & HtN).
  apply bind_Some in Hrun as (mat7 & log7 & H7 & Hrun).
  apply optional_texture_via in H7 as (tO & HO & HtO).
  assert (exists tR vR vM,
            texture_only (metallic_roughness_texture (pbr_metallic_roughness src))
              (GetDirectoryPath fileName) tR /\
            match tv_texture (metallic_roughness_texture (pbr_metallic_roughness src)) with
            | Some _ => vR = set_value (roughness_factor (pbr_metallic_roughness src)) /\
                        vM = set_value (metallic_factor (pbr_metallic_roughness src))
            | None => vR = (fun mm => mm) /\ vM = (fun mm => mm)
            end /\
            maps_via (fun j mm => only_at MATERIAL_MAP_METALNESS vM j
                                    (only_at MATERIAL_MAP_ROUGHNESS vR j
                                       (only_at MATERIAL_MAP_ROUGHNESS tR j mm))) mat4 mat5)
    as (tR & vR & vM & HtR & Hv & HR).
  { destruct (tv_texture (metallic_roughness_texture _)) as [img|] eqn:Himg.
    - apply bind_Some in H5 as (t0 & ? & Ht0 & H5).
      pose proof (optional_texture_via (metallic_roughness_texture (pbr_metallic_roughness src))
                    mat4 MATERIAL_MAP_ROUGHNESS (GetDirectoryPath fileName) log0 t0 x) as Hopt.
      rewrite Himg in Hopt. destruct (Hopt Ht0) as (tR & HtR1 & HtR2).
      apply bind_Some in H5 as (t1 & ? & Ht1 & H5). apply defined_Some in Ht1 as [Ht1 ->].
      apply defined_Some in H5 as [Ht2 ->].
      apply set_map_via in Ht1, Ht2.
      exists tR, (set_value (roughness_factor (pbr_metallic_roughness src))),
        (set_value (metallic_factor (pbr_metallic_roughness src))).
      split; [done|]. split; [by split|].
      exact (maps_via_trans _ _ _ _ _ (maps_via_trans _ _ _ _ _ HtR1 Ht1) Ht2).
    - apply ret_Some in H5 as [-> ->]. exists (fun mm => mm), (fun mm => mm), (fun mm => mm).
      split; [by apply texture_only_id|]. split; [by split|].
      eapply maps_via_ext; [|apply maps_via_refl]. intros j mm. unfold only_at.
      by repeat case_decide. }
  clear H5.
  assert (exists tE cE,
            texture_only (emissive_texture src) (GetDirectoryPath fileName) tE /\
            match tv_texture (emissive_texture src) with
            | Some _ =>
                exists er eg eb,
                  factor_to_uchar (emissive_factor src).1.1 = Some er /\
                  factor_to_uchar (emissive_factor src).1.2 = Some eg /\
                  factor_to_uchar (emissive_factor src).2 = Some eb /\
                  cE = set_color (mkColor er eg eb 255)
            | None => cE = (fun mm => mm)
            end /\
            (is_Some (tv_texture (emissive_texture src)) ->
               is_Some (at_index (maps mat7) MATERIAL_MAP_EMISSION)) /\
            maps_via (fun j mm => only_at MATERIAL_MAP_EMISSION cE j
                                    (only_at MATERIAL_MAP_EMISSION tE j mm)) mat7 mat)
    as (tE & cE & HtE & HcE & Hdef7 & HE).
  { destruct (tv_texture (emissive_texture src)) as [img|] eqn:Himg.
    - apply bind_Some in Hrun as (e0 & ? & He0 & Hrun).
      pose proof (optional_texture_via (emissive_texture src)
                    mat7 MATERIAL_MAP_EMISSION (GetDirectoryPath fileName) log7 e0 x) as Hopt.
      rewrite Himg in Hopt. destruct (Hopt He0) as (tE & HtE1 & HtE2).
      destruct (emissive_factor src) as [[x0 x1] x2].
      apply bind_Some in Hrun as (er & ? & Her & Hrun). apply defined_Some in Her as [Her ->].
      apply bind_Some in Hrun as (e1 & ? & He1 & Hrun). apply defined_Some in He1 as [He1 ->].
      apply bind_Some in Hrun as (eg & ? & Heg & Hrun). apply defined_Some in Heg as [Heg ->].
      apply bind_Some in Hrun as (e2 & ? & He2 & Hrun). apply defined_Some in He2 as [He2 ->].
      apply bind_Some in Hrun as (eb & ? & Heb & Hrun). apply defined_Some in Heb as [Heb ->].
      apply bind_Some in Hrun as (e3 & ? & He3 & Hrun). apply defined_Some in He3 as [He3 ->].
      apply defined_Some in Hrun as [He4 ->].
      pose proof (four_channels _ _ _ _ _ _ _ _ _ _ He1 He2 He3 He4) as Hcol.
      exists tE, (set_color (mkColor er eg eb 255)).
      split; [done|]. split; [by eauto 10|]. split.
      { intros _. destruct (set_map_defined _ _ _ _ He1) as [mm Hmm].
        destruct HtE1 as (_ & _ & _ & Hj). rewrite Hj in Hmm.
        destruct (at_index (maps mat7) MATERIAL_MAP_EMISSION); [eauto|done]. }
      exact (maps_via_trans _ _ _ _ _ HtE1 Hcol).
    - apply ret_Some in Hrun as [-> ->]. exists (fun mm => mm), (fun mm => mm).
      split; [by apply texture_only_id|]. split; [done|]. split; [by intros [? ?]|].
      eapply maps_via_ext; [|apply maps_via_refl]. intros j mm. unfold only_at.
      by repeat case_decide. }
  exists tA, tR, tN, tO, tE, vR, vM, cE, (mkColor cr cg cb ca).
  split.
  { apply factor_to_uchar_Some in Hcr as [_ Hcr], Hcg as [_ Hcg], Hcb as [_ Hcb],
      Hca as [_ Hca]. by split_and!. }
  do 7 (split; [done|]).
  assert (Hall : maps_via _ LoadMaterialDefault mat7)
    by exact (maps_via_trans _ _ _ _ _
                (maps_via_trans _ _ _ _ _
                   (maps_via_trans _ _ _ _ _ (maps_via_trans _ _ _ _ _ HA Hbase4) HR) HN) HO).
  split.
  { intros Hem. destruct (Hdef7 Hem) as [mm Hmm].
    destruct Hall as (_ & _ & _ & Hj). rewrite Hj in Hmm.
    destruct (at_index (maps LoadMaterialDefault) MATERIAL_MAP_EMISSION); [eauto|done]. }
  exact (maps_via_trans _ _ _ _ _
           (maps_via_trans _ _ _ _ _
              (maps_via_trans _ _ _ _ _
                 (maps_via_trans _ _ _ _ _ (maps_via_trans _ _ _ _ _ HA Hbase4) HR) HN) HO)
           HE).
Qed.

End MaterialMaps.

Lemma only_at_eq k f mm : only_at k f k mm = f mm.
Proof. unfold only_at. by rewrite decide_True. Qed.

Lemma only_at_ne k f j mm : j <> k -> only_at k f j mm = mm.
Proof. intros Hne. unfold only_at. by rewrite decide_False. Qed.

Ltac map_steps :=
  repeat first [rewrite only_at_eq | rewrite only_at_ne by done].

Section MaterialFacts.

Context `{Raylib}.

Lemma texture_only_fields (view : cgltf_texture_view) texPath t mm :
  texture_only view texPath t -> color (t mm) = color mm /\ value (t mm) = value mm.
Proof. intros Ht. destruct (Ht mm) as (? & ? & _). by split. Qed.

(** X20.  For a material in the metallic-roughness workflow, the emissive
    factor is written to the colour of the emission map (each channel scaled
    by 255 and truncated, alpha 255) when the material has an emissive
    texture; without that texture the emission colour stays the default
    material's and the factor is not read at all. *)
Theorem emissive_factor_needs_texture src fileName log mat log' :
  has_pbr_metallic_roughness src = true ->
  load_material src fileName log = Some (mat, log') ->
  (is_Some (tv_texture (emissive_texture src)) ->
     exists er eg eb,
       trunc (fmul (emissive_factor src).1.1 (f32_of_Z 255)) = Some er /\
       trunc (fmul (emissive_factor src).1.2 (f32_of_Z 255)) = Some eg /\
       trunc (fmul (emissive_factor src).2 (f32_of_Z 255)) = Some eb /\
       color <$> at_index (maps mat) MATERIAL_MAP_EMISSION = Some (mkColor er eg eb 255)) /\
  (tv_texture (emissive_texture src) = None ->
     color <$> at_index (maps mat) MATERIAL_MAP_EMISSION
       = color <$> at_index (maps LoadMaterialDefault) MATERIAL_MAP_EMISSION /\
     forall e, load_material (with_emissive_factor e src) fileName log = Some (mat, log')).
Proof.
  intros Hpbr Hrun.
  destruct (load_material_maps _ _ _ _ _ Hpbr Hrun)
    as (tA & tR & tN & tO & tE & vR & vM & cE & base & _
        & HtA & HtR & HtN & HtO & HtE & Hv & HcE & Hdef & _ & _ & _ & Hmaps).
  assert (Hmap : at_index (maps mat) MATERIAL_MAP_EMISSION
                 = (fun mm => cE (tE mm))
                     <$> at_index (maps LoadMaterialDefault) MATERIAL_MAP_EMISSION).
  { rewrite Hmaps. apply option_fmap_ext. intros mm. by map_steps. }
  rewrite Hmap. split.
  - intros [img Himg]. rewrite Himg in HcE.
    destruct HcE as (er & eg & eb & Her & Heg & Heb & ->).
    apply factor_to_uchar_Some in Her as [Her _], Heg as [Heg _], Heb as [Heb _].
    exists er, eg, eb. split_and!; try done.
    destruct Hdef as [mm ->]; [by rewrite Himg|]. done.
  - intros Hnone. rewrite Hnone in HcE. subst cE. split.
    + destruct (at_index (maps LoadMaterialDefault) MATERIAL_MAP_EMISSION) as [mm|]; [|done].
      simpl. by destruct (texture_only_fields _ _ _ mm HtE) as [-> _].
    + intros e. rewrite <- Hrun. unfold load_material, with_emissive_factor. simpl.
      rewrite Hpbr, Hnone. reflexivity.
Qed.

(** X21.  A material outside the metallic-roughness workflow is imported as
    the default material, without a log entry.  Otherwise the shader, the
    parameters and the number of maps are the default material's; the
    albedo, roughness, normal, occlusion and emission maps get the texture
    of the base colour, metallic-roughness, normal, occlusion and emissive
    texture views (or keep the default one, when the view has no texture or
    its image no data); the textures of all other maps, and all of every map
    but these and the metalness map, are the default material's. *)
Theorem material_textures src fileName log mat log' :
  load_material src fileName log = Some (mat, log') ->
  let pbr := pbr_metallic_roughness src in
  let texPath := GetDirectoryPath fileName in
  (has_pbr_metallic_roughness src = false -> mat = LoadMaterialDefault /\ log' = log) /\
  (has_pbr_metallic_roughness src = true ->
     shader mat = shader LoadMaterialDefault /\
     params mat = params LoadMaterialDefault /\
     length (maps mat) = length (maps LoadMaterialDefault) /\
     (forall k view before,
        In (k, view) [(MATERIAL_MAP_ALBEDO, base_color_texture pbr);
                      (MATERIAL_MAP_ROUGHNESS, metallic_roughness_texture pbr);
                      (MATERIAL_MAP_NORMAL, normal_texture src);
                      (MATERIAL_MAP_OCCLUSION, occlusion_texture src);
                      (MATERIAL_MAP_EMISSION, emissive_texture src)] ->
        texture <$> at_index (maps LoadMaterialDefault) k = Some before ->
        exists after,
          texture <$> at_index (maps mat) k = Some after /\
          texture_from view texPath before after) /\
     (forall j,
        ~ In j [MATERIAL_MAP_ALBEDO; MATERIAL_MAP_ROUGHNESS; MATERIAL_MAP_NORMAL;
                MATERIAL_MAP_OCCLUSION; MATERIAL_MAP_EMISSION] ->
        texture <$> at_index (maps mat) j
          = texture <$> at_index (maps LoadMaterialDefault) j) /\
     (forall j,
        ~ In j [MATERIAL_MAP_ALBEDO; MATERIAL_MAP_METALNESS; MATERIAL_MAP_NORMAL;
                MATERIAL_MAP_ROUGHNESS; MATERIAL_MAP_OCCLUSION; MATERIAL_MAP_EMISSION] ->
        at_index (maps mat) j = at_index (maps LoadMaterialDefault) j)).
Proof.
  intros Hrun. cbv zeta. split.
  { intros Hpbr. unfold load_material in Hrun. rewrite Hpbr in Hrun.
    by apply ret_Some in Hrun as [-> ->]. }
  intros Hpbr.
  destruct (load_material_maps _ _ _ _ _ Hpbr Hrun)
    as (tA & tR & tN & tO & tE & vR & vM & cE & base & _
        & HtA & HtR & HtN & HtO & HtE & Hv & HcE & _ & Hsh & Hpa & Hlen & Hmaps).
  assert (HvR : forall mm, texture (vR mm) = texture mm).
  { intros mm. destruct (tv_texture (metallic_roughness_texture _)); by destruct Hv as [-> _]. }
  assert (HvM : forall mm, texture (vM mm) = texture mm).
  { intros mm. destruct (tv_texture (metallic_roughness_texture _)); by destruct Hv as [_ ->]. }
  assert (HcE' : forall mm, texture (cE mm) = texture mm).
  { intros mm. destruct (tv_texture (emissive_texture src)).
    - by destruct HcE as (er & eg & eb & _ & _ & _ & ->).
    - by subst cE. }
  split_and!; try done.
  - intros k view before Hin Hbefore. rewrite Hmaps.
    destruct (at_index (maps LoadMaterialDefault) k) as [mm|]; [|done].
    simpl in Hbefore. injection Hbefore as <-.
    cbn [fmap option_fmap option_map].
    simpl in Hin.
    destruct Hin as [[= <- <-]|[[= <- <-]|[[= <- <-]|[[= <- <-]|[[= <- <-]|[]]]]]];
      map_steps; eexists; (split; [reflexivity|]);
      rewrite ?HcE', ?HvR, ?HvM.
    + apply HtA.
    + apply HtR.
    + apply HtN.
    + apply HtO.
    + apply HtE.
  - intros j Hj. rewrite Hmaps.
    destruct (at_index (maps LoadMaterialDefault) j) as [mm|]; [|done].
    cbn [fmap option_fmap option_map]. f_equal.
    simpl in Hj.
    destruct (decide (j = MATERIAL_MAP_METALNESS)) as [->|Hmet].
    + map_steps. apply HvM.
    + rewrite !only_at_ne by (try done; intros ->; apply Hj; tauto). done.
  - intros j Hj. rewrite Hmaps.
    destruct (at_index (maps LoadMaterialDefault) j) as [mm|]; [|done].
    cbn [fmap option_fmap option_map]. f_equal.
    simpl in Hj.
    rewrite !only_at_ne by (intros ->; apply Hj; tauto). done.
Qed.

End MaterialFacts.

(** ** Unloading *)

Section UnloadFacts.

Context `{Raylib}.

Lemma release_each {A} (array : option (list A)) count (f : A -> Release) s :
  counted array count ->
  Prog.for_each (seqZ 0 count) (fun i =>
    x <- Prog.defined (l ← array; at_index l i) ;; release (f x)) s
  = Some (tt, (s.1 ++ (f <$> elements array), s.2)).
Proof.
  unfold counted, elements. destruct array as [l|]; simpl.
  2:{ intros ->. simpl. destruct s. by rewrite app_nil_r. }
  intros <-.
  rewrite (for_each_indexed_eq l (fun x => release (f x))); [|lia|rewrite drop_0; lia].
  rewrite drop_0, Nat2Z.id, firstn_all. clear.
  revert s. induction l as [|x l IH]; intros [rs lg]; simpl.
  - by rewrite app_nil_r.
  - unfold Prog.bind, release, Prog.modify. simpl. rewrite IH. simpl.
    by rewrite <- app_assoc.
Qed.

Lemma materials_loop_length (srcs : list cgltf_material) fileName j mats log res log' :
  Prog.fold_each (S := Log) (B := Z * list Material) srcs
    (fun src '(j, mats) =>
       mat <- load_material src fileName ;;
       mats' <- Prog.defined (store_at mats j (fun _ => mat)) ;;
       Prog.ret (to_uint (j + 1), mats'))
    (j, mats) log = Some (res, log') ->
  length res.2 = length mats.
Proof.
  revert j mats log. induction srcs as [|src srcs IH]; intros j mats log Hrun; simpl in Hrun.
  - by apply ret_Some in Hrun as [-> _].
  - apply bind_Some in Hrun as ([j1 mats1] & log1 & Hstep & Hrun).
    apply bind_Some in Hstep as (mat & ? & _ & Hstep).
    apply bind_Some in Hstep as (stored & ? & Hst & Hstep).
    apply defined_Some in Hst as [Hst ->].
    apply ret_Some in Hstep as [[= -> ->] _].
    rewrite (IH _ _ _ Hrun). by eapply length_store_at.
Qed.

(** The arrays of the model [LoadGLTFModelFile] returns for a well-formed
    file agree with their counts. *)
Lemma file_model_counts data fileName log model log' :
  well_formed data = true ->
  LoadGLTFModelFile (Parsed data) fileName log = Some (model, log') ->
  meshCount model = Z.of_nat (length (concat (primitives <$> meshes_ data))) /\
  materialCount model = Z.of_nat (length (materials_ data)) + 1 /\
  counted (meshes model) (meshCount model) /\
  counted (materials model) (materialCount model) /\
  counted (meshMaterial model) (meshCount model) /\
  counted (nodes model) (nodeCount model) /\
  counted (scenes model) (sceneCount model).
Proof.
  intros Hwf Hfile.
  pose proof (well_formed_spec _ Hwf) as (_ & Hmats & Hnn & Hns & Hprims & _ & _).
  pose proof (primitivesCount_all data ltac:(lia)) as Hall.
  pose proof (LoadGLTFModelFile_parsed _ _ _ _ _ Hfile)
    as (Hmc & Hmatc & cur & (_ & Hlen & Hseen & Hmm) & Hms & Hmms).
  rewrite (to_int_small (Z.of_nat _)) in Hmatc by (unfold INT_MAX in *; lia).
  rewrite to_int_small in Hmatc by (unfold INT_MAX in *; lia).
  split; [lia|]. split; [done|].
  rewrite Hms, Hmms, Hmc, Hmatc. simpl.
  split; [lia|].
  apply LoadGLTFModelFile_run in Hfile
    as (materials0 & last & mats1 & log1 & log2 & starts & ends & cur' & log3 & log4
        & ns & log5 & log6 & H0 & Hloop & _ & Hnodes & ->).
  simpl. split_and!.
  - apply materials_loop_length in Hloop. simpl in Hloop. rewrite Hloop.
    rewrite (length_store_at _ _ _ _ H0). unfold RL_CALLOC. rewrite length_replicate.
    rewrite (to_int_small (Z.of_nat _)) by (unfold INT_MAX in *; lia).
    rewrite to_int_small by (unfold INT_MAX in *; lia). lia.
  - rewrite Hmm, length_app, length_fmap, length_replicate. lia.
  - apply map_each_Forall2, Forall2_length in Hnodes. rewrite <- Hnodes.
    symmetry. apply to_int_small. unfold INT_MAX in *. lia.
  - destruct (scenes_ data) as [|s0 ss0] eqn:Hss; simpl; [done|].
    rewrite length_fmap. symmetry. apply to_int_small. simpl in Hns.
    unfold INT_MAX in *. lia.
Qed.

(** In a model that [LoadGLTFModel] returns, every array read by
    [UnloadGLTFModel] agrees with its count. *)
Lemma loaded_model_counts file fileName log model log' :
  (forall data, file = Parsed data -> well_formed data = true) ->
  LoadGLTFModel file fileName log = Some (model, log') ->
  counted (meshes model) (meshCount model) /\
  counted (materials model) (materialCount model) /\
  counted (nodes model) (nodeCount model) /\
  counted (scenes model) (sceneCount model).
Proof.
  intros Hwf Hrun.
  destruct file as [| |data].
  - unfold LoadGLTFModel, LoadGLTFModelFile in Hrun.
    destruct SUPPORT_MESH_GENERATION eqn:E; simpl in Hrun;
      unfold Prog.bind, TRACELOG, Prog.modify, Prog.ret in Hrun; simpl in Hrun;
      rewrite ?E in Hrun; simpl in Hrun; injection Hrun as <- _; by split_and!.
  - unfold LoadGLTFModel, LoadGLTFModelFile in Hrun.
    destruct SUPPORT_MESH_GENERATION eqn:E; simpl in Hrun;
      unfold Prog.bind, TRACELOG, Prog.modify, Prog.ret in Hrun; simpl in Hrun;
      rewrite ?E in Hrun; simpl in Hrun; injection Hrun as <- _; by split_and!.
  - specialize (Hwf data eq_refl).
    destruct (LoadGLTFModel_keeps_graph _ _ _ _ _ Hrun)
      as (model0 & log0 & Hfile & _ & Hnc & Hnodes & Hsc & Hscenes & _).
    destruct (file_model_counts _ _ _ _ _ Hwf Hfile)
      as (_ & Hmatc & Hcm & Hcmat & _ & Hcn & Hcs).
    rewrite Hnodes, Hnc, Hscenes, Hsc.
    unfold LoadGLTFModel in Hrun.
    apply bind_Some in Hrun as (model0' & log0' & Hfile' & Hrun).
    rewrite Hfile in Hfile'. injection Hfile' as <- <-.
    cbv zeta in Hrun.
    apply bind_Some in Hrun as (model1 & log1 & Hup & Hrun).
    assert (counted (meshes model1) (meshCount model1) /\
            materialCount model1 = materialCount model0 /\
            materials model1 = materials model0) as (Hc1 & Hmc1 & Hm1).
    { cbn [meshCount meshes set_model_transform] in Hup.
      destruct (meshCount model0 =? 0) eqn:Hz.
      - destruct SUPPORT_MESH_GENERATION;
          apply bind_Some in Hup as (u & log2 & _ & Hup);
          apply ret_Some in Hup as [-> _]; by destruct model0.
      - apply bind_Some in Hup as (ms & ? & Hms & Hup).
        apply defined_Some in Hms as [Hms ->].
        rewrite Hms in Hcm. simpl in Hcm.
        apply bind_Some in Hup as (ms' & log2 & Hloop & Hup).
        apply ret_Some in Hup as [-> ->].
        pose proof (upload_loop UploadMesh ms log0 []) as Hloop'.
        change (Z.of_nat (length [])) with 0 in Hloop'. rewrite !app_nil_l in Hloop'.
        rewrite Hcm in Hloop'.
        rewrite Hloop' in Hloop. injection Hloop as <- _.
        split_and!; [|by destruct model0..]. simpl. by rewrite length_fmap. }
    rewrite Hmatc in Hmc1. rewrite Hmc1 in Hrun.
    destruct (Z.of_nat (length (materials_ data)) + 1 =? 0) eqn:Hz'; [lia|].
    apply ret_Some in Hrun as [-> ->]. split_and!; try done.
    by rewrite Hm1, Hmc1, <- Hmatc.
Qed.

(** X22.  [UnloadGLTFModel] returns on every model that [LoadGLTFModel]
    returns for a well-formed file (or for a file that could not be read or
    parsed): it releases, in this order, each mesh, the maps of each
    material, the mesh, material and material index arrays, the children of
    each node, the node array, the node list of each scene and the scene
    array, each exactly once, and logs one line. *)
Theorem unload_after_load file fileName log model log' :
  (forall data, file = Parsed data -> well_formed data = true) ->
  LoadGLTFModel file fileName log = Some (model, log') ->
  UnloadGLTFModel model ([], log')
  = Some (tt,
          ((Release_mesh <$> elements (meshes model))
           ++ ((fun mat => Release_maps (maps mat)) <$> elements (materials model))
           ++ [Release_meshes (meshes model); Release_materials (materials model);
               Release_meshMaterial (meshMaterial model)]
           ++ ((fun node => Release_children (children node)) <$> elements (nodes model))
           ++ [Release_nodes (nodes model)]
           ++ ((fun sc => Release_scene_nodes (scene_nodes_ids sc)) <$> elements (scenes model))
           ++ [Release_scenes (scenes model)],
           log' ++ [(LOG_INFO,
                     "MODEL: Unloaded pModel (and meshes) from RAM and VRAM"%string)])).
Proof.
  intros Hwf Hrun.
  destruct (loaded_model_counts _ _ _ _ _ Hwf Hrun) as (Hms & Hmats & Hns & Hss).
  unfold UnloadGLTFModel.
  unfold Prog.bind at 1. rewrite (release_each _ _ Release_mesh _ Hms).
  unfold Prog.bind at 1.
  rewrite (release_each _ _ (fun mat => Release_maps (maps mat)) _ Hmats).
  do 3 (unfold Prog.bind at 1; unfold release at 1; unfold Prog.modify at 1).
  unfold Prog.bind at 1.
  rewrite (release_each _ _ (fun node => Release_children (children node)) _ Hns).
  unfold Prog.bind at 1; unfold release at 1; unfold Prog.modify at 1.
  unfold Prog.bind at 1.
  rewrite (release_each _ _ (fun sc => Release_scene_nodes (scene_nodes_ids sc)) _ Hss).
  unfold Prog.bind, release, trace, Prog.modify. simpl.
  repeat rewrite <- app_assoc. reflexivity.
Qed.

End UnloadFacts.

(** ** Drawing what was loaded *)

Section DrawableMeshes.

Context `{Raylib}.

Lemma node_drawable_more depth model mats node_id :
  node_drawable depth model mats node_id -> node_drawable (S depth) model mats node_id.
Proof.
  revert node_id. induction depth as [|depth IH]; intros node_id; cbn [node_drawable];
    (destruct (_ && _); [|done]);
    (destruct (ns ← nodes model; at_index ns node_id) as [node|]; [|done]);
    (destruct (0 <? childrenCount node); [|done]).
  - done.
  - intros [Hlen Hkids]. split; [done|].
    eapply Forall_impl; [exact Hkids|]. intros c. apply IH.
Qed.

Lemma node_drawable_le depth depth' model mats node_id :
  (depth <= depth')%nat ->
  node_drawable depth model mats node_id -> node_drawable depth' model mats node_id.
Proof.
  induction 1 as [|d Hle IH]; [done|]. intros Hok. by apply node_drawable_more, IH.
Qed.

(** The diffuse map of an imported material has a colour in 0..255 when
    that of the default material has. *)
Lemma imported_material_drawable src fileName log mat log' dmap :
  at_index (maps LoadMaterialDefault) MATERIAL_MAP_DIFFUSE = Some dmap ->
  valid_color (color dmap) ->
  load_material src fileName log = Some (mat, log') ->
  exists dmap', at_index (maps mat) MATERIAL_MAP_DIFFUSE = Some dmap' /\
                valid_color (color dmap').
Proof.
  intros Hd Hvalid Hrun.
  destruct (has_pbr_metallic_roughness src) eqn:Hpbr.
  - destruct (load_material_maps _ _ _ _ _ Hpbr Hrun)
      as (tA & tR & tN & tO & tE & vR & vM & cE & base & Hbase
          & _ & _ & _ & _ & _ & _ & _ & _ & _ & _ & _ & Hmaps).
    rewrite Hmaps, Hd. cbn [fmap option_fmap option_map]. eexists. split; [reflexivity|].
    change MATERIAL_MAP_DIFFUSE with MATERIAL_MAP_ALBEDO. by map_steps.
  - unfold load_material in Hrun. rewrite Hpbr in Hrun.
    apply ret_Some in Hrun as [-> _]. eauto.
Qed.

(** Every mesh of a model loaded from a well-formed file with at least one
    primitive can be drawn. *)
Lemma loaded_meshes_drawable data fileName log model log' dmap :
  well_formed data = true ->
  0 < primitivesCount data ->
  at_index (maps LoadMaterialDefault) MATERIAL_MAP_DIFFUSE = Some dmap ->
  valid_color (color dmap) ->
  LoadGLTFModel (Parsed data) fileName log = Some (model, log') ->
  meshCount model = primitivesCount data /\
  forall j, 0 <= j < meshCount model ->
    mesh_drawable model (world_materials (world_of model)) j.
Proof.
  intros Hwf Hprims Hd Hvalid Hrun.
  pose proof (well_formed_spec _ Hwf) as (_ & Hmats & _).
  destruct (loaded_model_counts _ _ _ _ _ (fun d (E : Parsed data = Parsed d) =>
              eq_ind data (fun d => well_formed d = true) Hwf d
                (f_equal (fun f => match f with Parsed d => d | _ => data end) E)) Hrun)
    as (Hcm & Hcmat & _ & _).
  unfold LoadGLTFModel in Hrun.
  apply bind_Some in Hrun as (model0 & log0 & Hfile & Hrun).
  destruct (imported_materials _ _ _ _ _ Hmats Hfile) as (Hmatc & mats & Hmats0 & Hall).
  pose proof (LoadGLTFModelFile_parsed _ _ _ _ _ Hfile)
    as (Hmc & _ & cur & (_ & Hlen & Hseen & Hmm) & Hms & Hmms).
  cbv zeta in Hrun.
  apply bind_Some in Hrun as (model1 & log1 & Hup & Hrun).
  cbn [meshCount meshes set_model_transform] in Hup. rewrite Hmc in Hup.
  destruct (primitivesCount data =? 0) eqn:Hz; [lia|].
  apply bind_Some in Hup as (ms0 & ? & Hms0 & Hup).
  apply bind_Some in Hup as (ms' & log2 & Hloop & Hup).
  apply ret_Some in Hup as [-> ->].
  cbn [materialCount set_model_meshes set_model_transform] in Hrun. rewrite Hmatc in Hrun.
  destruct (Z.of_nat (length (materials_ data)) + 1 =? 0) eqn:Hz'; [lia|].
  apply ret_Some in Hrun as [-> ->].
  cbn [meshCount meshes materials meshMaterial set_model_meshes set_model_transform
       world_of world_materials] in *.
  split; [done|]. intros j Hj.
  rewrite Hmats0. simpl.
  unfold counted in Hcm.
  destruct (lookup_lt_is_Some_2 ms' (Z.to_nat j)) as [mesh Hmesh]; [lia|].
  destruct (lookup_lt_is_Some_2 (cur_meshMaterial cur) (Z.to_nat j)) as [k Hk].
  { rewrite Hmm, length_app, length_fmap, length_replicate. lia. }
  assert (Hkr : 0 <= k <= Z.of_nat (length (materials_ data))).
  { rewrite Hmm in Hk. apply lookup_app_Some in Hk as [Hk|[_ Hk]].
    - apply list_lookup_fmap_Some in Hk as (prim & -> & _). apply material_slot_range.
    - apply lookup_replicate in Hk as [-> _]. lia. }
  pose proof (Forall2_length _ _ _ Hall) as Hlmats.
  destruct (lookup_lt_is_Some_2 (LoadMaterialDefault :: mats) (Z.to_nat k))
    as [mat Hmat]; [simpl; lia|].
  assert (exists dmap', at_index (maps mat) MATERIAL_MAP_DIFFUSE = Some dmap' /\
                        valid_color (color dmap')) as (dmap' & Hd' & Hv').
  { destruct (Z.to_nat k) as [|k'] eqn:Hk'; simpl in Hmat.
    - injection Hmat as <-. eauto.
    - destruct (Forall2_lookup_r _ _ _ _ _ Hall Hmat) as (src & _ & l1 & l2 & Hload).
      by eapply imported_material_drawable. }
  exists (cur_meshMaterial cur), ms', k, mat, dmap', mesh.
  cbn [meshMaterial meshes set_model_meshes set_model_transform].
  rewrite Hmms. split_and!; try done.
  - apply at_index_Some. split; [lia|done].
  - apply at_index_Some. split; [lia|done].
  - apply at_index_Some. split; [lia|done].
Qed.

End DrawableMeshes.

Section DrawableModel.

Context `{Raylib}.

Lemma triangles_before_bound ms i :
  0 <= triangles_before ms i <= Z.of_nat (length (concat (primitives <$> ms))).
Proof.
  unfold triangles_before. split; [lia|].
  apply Nat2Z.inj_le.
  etrans; [apply filter_length_le|].
  rewrite <- (take_drop i ms) at 2. rewrite fmap_app, concat_app, length_app. lia.
Qed.

(** The nodes of a model loaded from a well-formed file whose node graph
    has no cycle can be drawn. *)
Lemma loaded_nodes_drawable data fileName log model log' dmap (rank : Z -> nat) :
  well_formed data = true ->
  0 < primitivesCount data ->
  at_index (maps LoadMaterialDefault) MATERIAL_MAP_DIFFUSE = Some dmap ->
  valid_color (color dmap) ->
  (forall i src c, nodes_ data !! i = Some src -> In c (node_children src) ->
                   (rank c < rank (Z.of_nat i))%nat) ->
  LoadGLTFModel (Parsed data) fileName log = Some (model, log') ->
  forall depth node_id,
    (rank node_id < depth)%nat ->
    node_drawable depth model (world_materials (world_of model)) node_id.
Proof.
  intros Hwf Hprims Hd Hvalid Hrank Hrun.
  destruct (loaded_meshes_drawable _ _ _ _ _ _ Hwf Hprims Hd Hvalid Hrun) as [Hmc Hmeshes].
  destruct (LoadGLTFModel_keeps_graph _ _ _ _ _ Hrun)
    as (model0 & log0 & Hfile & _ & Hnc & Hnodes & _).
  destruct (imported_nodes _ _ _ _ _ Hwf Hfile) as (Hnc0 & ns & Hns & Hall).
  pose proof (well_formed_spec _ Hwf) as (_ & _ & _ & _ & Hfits & _ & _).
  pose proof (primitivesCount_all data ltac:(lia)) as Hcount.
  induction depth as [|depth IH]; intros node_id Hlt; [lia|].
  cbn [node_drawable]. rewrite Hnc, Hnodes, Hns, Hnc0. simpl.
  destruct ((0 <=? node_id) && (node_id <? Z.of_nat (length (nodes_ data)))) eqn:Hin;
    [|done].
  apply andb_prop in Hin as [Hlo Hhi].
  apply Z.leb_le in Hlo. apply Z.ltb_lt in Hhi.
  destruct (lookup_lt_is_Some_2 (nodes_ data) (Z.to_nat node_id)) as [src Hsrc]; [lia|].
  destruct (Forall2_lookup_l _ _ _ _ _ Hall Hsrc) as (node & Hnode & Hc & Hk & Hm).
  unfold at_index. rewrite decide_True by lia. rewrite Hnode.
  destruct (0 <? childrenCount node) eqn:Hkids.
  - split; [rewrite Hc, Hk; lia|].
    rewrite Hc, Nat2Z.id, Hk, firstn_all.
    apply Forall_forall. intros c Hcin. apply IH.
    specialize (Hrank _ _ c Hsrc (proj1 (list_elem_of_In _ _) Hcin)).
    rewrite Z2Nat.id in Hrank by lia. lia.
  - apply Forall_forall. intros j Hj. apply elem_of_seqZ in Hj. apply Hmeshes.
    destruct (node_mesh src) as [m|]; [|lia].
    destruct Hm as (mesh & Hmesh & Hstart & Hend).
    pose proof (triangles_before_bound (meshes_ data) (Z.to_nat m)).
    pose proof (triangles_before_bound (meshes_ data) (S (Z.to_nat m))) as Hb.
    rewrite (triangles_before_S _ _ _ Hmesh) in Hb. lia.
Qed.

(** X23.  A well-formed file with at least one primitive and a node graph
    without cycles (the children of a node have a smaller rank) loads into a
    model that can be drawn: with a default diffuse colour and a tint in
    0..255, and a recursion depth above every rank, [DrawGLTFModelEx]
    returns and only adds draw calls. *)
Theorem loaded_model_can_be_drawn data fileName log model log' dmap (rank : Z -> nat) fuel
    position rotationAxis rotationAngle scale tint :
  well_formed data = true ->
  0 < primitivesCount data ->
  at_index (maps LoadMaterialDefault) MATERIAL_MAP_DIFFUSE = Some dmap ->
  valid_color (color dmap) ->
  (forall i src c, nodes_ data !! i = Some src -> In c (node_children src) ->
                   (rank c < rank (Z.of_nat i))%nat) ->
  (forall i, (rank i < fuel)%nat) ->
  valid_color tint ->
  LoadGLTFModel (Parsed data) fileName log = Some (model, log') ->
  exists calls,
    DrawGLTFModelEx fuel model position rotationAxis rotationAngle scale tint (world_of model)
    = Some (tt, after_draws (world_of model) calls).
Proof.
  intros Hwf Hprims Hd Hvalid Hrank Hfuel Htint Hrun.
  destruct (loaded_meshes_drawable _ _ _ _ _ _ Hwf Hprims Hd Hvalid Hrun) as [Hmc Hmeshes].
  pose proof (loaded_nodes_drawable _ _ _ _ _ _ _ Hwf Hprims Hd Hvalid Hrank Hrun) as Hnodes.
  destruct (LoadGLTFModel_keeps_graph _ _ _ _ _ Hrun)
    as (model0 & log0 & Hfile & _ & _ & _ & Hsc & Hscenes & Hscene).
  destruct (imported_scenes _ _ _ _ _ Hwf Hfile) as (Hsc0 & Hnone & Hsome).
  assert (Hflat : forall M,
            exists calls,
              Prog.for_each (seqZ 0 (meshCount model))
                (fun i => draw_mesh_tinted model i M tint) (world_of model)
              = Some (tt, after_draws (world_of model) calls)).
  { intros M. apply draw_meshes_defined; [done|].
    apply Forall_forall. intros j Hj. apply elem_of_seqZ in Hj. apply Hmeshes. lia. }
  unfold DrawGLTFModelEx. cbv zeta.
  cbn [scene sceneCount scenes meshCount model_transform set_model_transform].
  destruct ((0 <=? scene model) && (scene model <? sceneCount model)) eqn:Hin;
    [|apply Hflat].
  apply andb_prop in Hin as [Hlo Hhi].
  apply Z.leb_le in Hlo. apply Z.ltb_lt in Hhi.
  rewrite Hsc, Hsc0 in Hhi.
  destruct (scenes_ data) as [|s0 ss0] eqn:Hss; [simpl in Hhi; lia|].
  destruct Hsome as (_ & ss & Hss' & Hall); [done|].
  rewrite Hscenes, Hss'. simpl.
  destruct (lookup_lt_is_Some_2 ss (Z.to_nat (scene model))) as [sc Hsc'].
  { apply Forall2_length in Hall. lia. }
  unfold at_index at 1. rewrite decide_True by lia. rewrite Hsc'. rewrite bind_defined.
  destruct (0 <? scene_nodeCount sc); [|apply Hflat].
  destruct (Forall2_lookup_r _ _ _ _ _ Hall Hsc') as (src & _ & Hn & Hids).
  rewrite DrawGLTFScene_model_transform. unfold DrawGLTFScene.
  assert (((0 <=? scene model) && (scene model <? sceneCount model)) = true) as ->.
  { apply andb_true_iff. rewrite Hsc, Hsc0. lia. }
  rewrite Hscenes, Hss'. simpl. unfold at_index at 1. rewrite decide_True by lia.
  rewrite Hsc', bind_defined.
  rewrite (for_each_indexed_eq (scene_nodes_ids sc)
             (fun node_id => DrawGLTFNode fuel model node_id _ tint));
    [|lia|rewrite drop_0, Hn, Hids; lia].
  rewrite drop_0, Hn, Hids, Nat2Z.id, firstn_all.
  apply (for_each_defined _ _ (node_drawable fuel model)).
  - intros node_id w Hok. by apply DrawGLTFNode_defined.
  - apply Forall_forall. intros node_id _. apply Hnodes, Hfuel.
Qed.

End DrawableModel.

(** * The further properties on examples *)

Section Examples.

Import Toy Samples.

#[local] Existing Instance Toy.raylib.

Lemma DrawGLTFScene_step_witness :
  DrawGLTFScene 1 two_nodes 0 identity grey (world_of two_nodes)
  = Some (tt, after_draws (world_of two_nodes) [mkDrawCall cube red_tinted child_transform])
  <->
  exists sc,
    (ss ← scenes two_nodes; at_index ss 0) = Some sc /\
    (Z.to_nat (scene_nodeCount sc) <= length (scene_nodes_ids sc))%nat /\
    Prog.for_each (take (Z.to_nat (scene_nodeCount sc)) (scene_nodes_ids sc))
      (fun node_id => DrawGLTFNode 1 two_nodes node_id identity grey) (world_of two_nodes)
    = Some (tt, after_draws (world_of two_nodes) [mkDrawCall cube red_tinted child_transform]).
Proof.
  apply (DrawGLTFScene_step 1 two_nodes 0 identity grey (world_of two_nodes)).
  simpl. lia.
Defined.

Lemma DrawGLTFModelEx_paths_witness :
  exists w',
    DrawGLTFModelEx 1 two_nodes zero_Vector3 zero_Vector3 f32_zero
      (mkVector3 f32_one f32_one f32_one) grey (world_of two_nodes) = Some (tt, w') /\
    let M := MatrixMultiply (model_transform two_nodes)
               (MatrixMultiply
                  (MatrixMultiply (MatrixScale f32_one f32_one f32_one)
                                  (MatrixRotate zero_Vector3 (fmul f32_zero DEG2RAD)))
                  (MatrixTranslate f32_zero f32_zero f32_zero)) in
    let every_mesh_once :=
      exists calls,
        w' = after_draws (world_of two_nodes) calls /\
        Forall2 (is_tinted_draw two_nodes (world_materials (world_of two_nodes)) M grey)
                (seqZ 0 (meshCount two_nodes)) calls in
    (scene two_nodes < 0 \/ sceneCount two_nodes <= scene two_nodes -> every_mesh_once) /\
    (0 <= scene two_nodes < sceneCount two_nodes ->
       exists sc,
         (ss ← scenes two_nodes; at_index ss (scene two_nodes)) = Some sc /\
         (0 < scene_nodeCount sc ->
            DrawGLTFScene 1 two_nodes (scene two_nodes) M grey (world_of two_nodes)
            = Some (tt, w')) /\
         (scene_nodeCount sc <= 0 -> every_mesh_once)).
Proof.
  eexists. split; [vm_compute; reflexivity|].
  apply (DrawGLTFModelEx_paths 1 two_nodes zero_Vector3 zero_Vector3 f32_zero
           (mkVector3 f32_one f32_one f32_one) grey (world_of two_nodes) tt).
  vm_compute. reflexivity.
Defined.

Lemma DrawGLTFNode_traversal_witness :
  exists calls,
    after_draws (world_of two_nodes) [mkDrawCall cube red_tinted child_transform]
    = after_draws (world_of two_nodes) calls /\
    Forall2 (is_tinted_draw_at two_nodes (world_materials (world_of two_nodes)) grey)
            (node_draws 1 two_nodes 0 identity) calls.
Proof.
  apply (DrawGLTFNode_traversal 1 two_nodes 0 identity grey (world_of two_nodes) tt).
  vm_compute. reflexivity.
Defined.

Lemma cyclic_graph_never_returns_witness :
  DrawGLTFNode 100 looping 0 identity grey (world_of looping) = None.
Proof.
  apply cyclic_graph_never_returns.
  apply (tc_l _ 0 1 0); [|apply tc_once].
  - split; [simpl; lia|]. exists (mkGLTFNode 1 [1] 0 1 zero_Transform identity), 0.
    split; [reflexivity|]. split; [simpl; lia|reflexivity].
  - split; [simpl; lia|]. exists (mkGLTFNode 1 [0] 0 1 zero_Transform identity), 0.
    split; [reflexivity|]. split; [simpl; lia|reflexivity].
Defined.

Lemma DrawGLTFNode_returns_witness :
  exists calls,
    forall extra,
      DrawGLTFNode (extra + 1) two_nodes 0 identity grey (world_of two_nodes)
      = Some (tt, after_draws (world_of two_nodes) calls).
Proof.
  apply (DrawGLTFNode_returns 1 two_nodes 0 identity grey (world_of two_nodes)).
  - unfold valid_color, valid_channel. simpl. lia.
  - split; [simpl; lia|]. repeat constructor.
    exists [0], [cube], 0, red_drawn, red_map, cube.
    split_and!; try reflexivity. unfold valid_color, valid_channel. simpl. lia.
Defined.

Lemma materials_are_one_based_witness :
  exists model log',
    LoadGLTFModelFile (Parsed scene_file) "model.gltf" [] = Some (model, log') /\
    materialCount model = Z.of_nat (length (materials_ scene_file)) + 1 /\
    exists mats,
      materials model = Some (LoadMaterialDefault :: mats) /\
      Forall2 (fun src mat =>
                 exists log1 log2, load_material src "model.gltf" log1 = Some (mat, log2))
              (materials_ scene_file) mats.
Proof.
  eexists _, _. split; [vm_compute; reflexivity|].
  eapply (materials_are_one_based scene_file "model.gltf" [] _ _).
  - vm_compute. reflexivity.
  - vm_compute. reflexivity.
Defined.

Lemma stored_matrix_is_TransformToMatrix_witness :
  exists node log',
    load_node [] [] plain_node [] = Some (node, log') /\
    transformMatrix node = TransformToMatrix (transform node).
Proof.
  eexists _, _. split; [vm_compute; reflexivity|].
  eapply (stored_matrix_is_TransformToMatrix [] [] plain_node [] _ _);
    vm_compute; reflexivity.
Defined.

Lemma node_mesh_ranges_witness :
  exists model log',
    LoadGLTFModelFile (Parsed scene_file) "model.gltf" [] = Some (model, log') /\
    exists ns,
      nodes model = Some ns /\
      Forall2 (fun src node =>
                 match node_mesh src with
                 | None => meshStart node = -1 /\ meshEnd node = -1
                 | Some m =>
                     exists mesh,
                       meshes_ scene_file !! Z.to_nat m = Some mesh /\
                       meshStart node = triangles_before (meshes_ scene_file) (Z.to_nat m) /\
                       meshEnd node = meshStart node + triangles_of mesh
                 end)
              (nodes_ scene_file) ns.
Proof.
  eexists _, _. split; [vm_compute; reflexivity|].
  eapply (node_mesh_ranges scene_file "model.gltf" [] _ _); vm_compute; reflexivity.
Defined.

Lemma node_graph_is_preserved_witness :
  exists model log',
    LoadGLTFModelFile (Parsed scene_file) "model.gltf" [] = Some (model, log') /\
    nodeCount model = Z.of_nat (length (nodes_ scene_file)) /\
    (exists ns,
       nodes model = Some ns /\
       Forall2 (fun src node =>
                  childrenCount node = Z.of_nat (length (node_children src)) /\
                  children node = node_children src)
               (nodes_ scene_file) ns) /\
    sceneCount model = Z.of_nat (length (scenes_ scene_file)) /\
    (scenes_ scene_file = [] -> scenes model = None /\ scene model = 0) /\
    (scenes_ scene_file <> [] ->
       scene model = to_int (scene_ scene_file) /\
       exists ss,
         scenes model = Some ss /\
         Forall2 (fun src sc =>
                    scene_nodeCount sc = Z.of_nat (length (scene_nodes src)) /\
                    scene_nodes_ids sc = scene_nodes src)
                 (scenes_ scene_file) ss).
Proof.
  eexists _, _. split; [vm_compute; reflexivity|].
  eapply (node_graph_is_preserved scene_file "model.gltf" [] _ _); vm_compute; reflexivity.
Defined.

Lemma meshes_are_filled_in_order_witness :
  exists model log',
    LoadGLTFModelFile (Parsed scene_file) "model.gltf" [] = Some (model, log') /\
    exists ms,
      meshes model = Some ms /\
      length ms = Z.to_nat (meshCount model) /\
      (forall k prim, triangle_primitives scene_file !! k = Some prim ->
         exists mesh, ms !! k = Some mesh /\ filled_by prim mesh) /\
      (forall k, (length (triangle_primitives scene_file) <= k < length ms)%nat ->
         ms !! k = Some blank_mesh).
Proof.
  eexists _, _. split; [vm_compute; reflexivity|].
  eapply (meshes_are_filled_in_order scene_file "model.gltf" [] _ _). vm_compute. reflexivity.
Defined.

Lemma loaded_meshes_are_uploaded_witness :
  exists model log' model0 ms,
    LoadGLTFModel (Parsed scene_file) "model.gltf" [] = Some (model, log') /\
    LoadGLTFModelFile (Parsed scene_file) "model.gltf" [] = Some (model0, log') /\
    meshes model0 = Some ms /\
    model = set_model_meshes (meshCount model0) (UploadMesh <$> ms)
              (set_model_transform MatrixIdentity model0).
Proof.
  eexists _, _.
  assert (Hrun : LoadGLTFModel (Parsed scene_file) "model.gltf" [] = Some (_, _))
    by (vm_compute; reflexivity).
  destruct (loaded_meshes_are_uploaded scene_file "model.gltf" [] _ _
              ltac:(vm_compute; reflexivity) ltac:(vm_compute; reflexivity) Hrun)
    as (model0 & ms & Hfile & Hms & Hmodel).
  exists model0, ms. split; [exact Hrun|]. split; [exact Hfile|]. split; [exact Hms|exact Hmodel].
Defined.

Lemma empty_file_cannot_be_drawn_witness :
  exists model log',
    LoadGLTFModel (Parsed empty_file) "model.gltf" [] = Some (model, log') /\
    meshCount model = 1 /\
    meshMaterial model = Some [] /\
    DrawGLTFModelEx 1 model zero_Vector3 zero_Vector3 f32_zero
      (mkVector3 f32_one f32_one f32_one) grey (world_of model) = None.
Proof.
  eexists _, _. split; [vm_compute; reflexivity|].
  eapply (empty_file_cannot_be_drawn empty_file "model.gltf" [] _ _); vm_compute; reflexivity.
Defined.

Lemma failed_load_is_drawable_witness :
  exists model log' call,
    LoadGLTFModel FileUnreadable "model.gltf" [] = Some (model, log') /\
    materialCount model = 1 /\
    materials model = Some [LoadMaterialDefault] /\
    meshMaterial model = Some [0] /\
    has_warning "MATERIAL: [%s] Failed to load material data, default to white material" log' /\
    DrawGLTFModel 1 model zero_Vector3 f32_one grey (world_of model)
      = Some (tt, after_draws (world_of model) [call]) /\
    meshes model = Some [drawn_mesh call] /\
    (exists c', tint_color (color white_map) grey = Some c' /\
                diffuse_color (drawn_material call) = Some c').
Proof.
  apply (failed_load_is_drawable FileUnreadable "model.gltf" [] white_map 1 zero_Vector3
           f32_one grey).
  - by left.
  - reflexivity.
  - unfold valid_color, valid_channel. simpl. lia.
  - unfold valid_color, valid_channel. simpl. lia.
Defined.

Lemma LOAD_ATTRIBUTE_layout_witness :
  exists view bytes,
    acc_buffer_view position_accessor = Some view /\
    buffer_data (bv_buffer view) = Some bytes /\
    length [0; 70000; 3] = (Z.to_nat (acc_count position_accessor) * Z.to_nat 3)%nat /\
    forall k l, 0 <= k < acc_count position_accessor -> 0 <= l < 3 ->
      exists v,
        at_index [0; 70000; 3] (3 * k + l) = Some v /\
        read_element 4 bytes
          (bv_offset view / 4 + acc_offset position_accessor / 4
           + k * to_int (acc_stride position_accessor / 4) + l) = Some v.
Proof.
  apply (LOAD_ATTRIBUTE_layout position_accessor 3 4 [0; 70000; 3]).
  vm_compute. reflexivity.
Defined.

Lemma load_attribute_result_witness :
  exists mesh' log',
    load_attribute position_attribute zero_Mesh [] = Some (mesh', log') /\
    indices mesh' = indices zero_Mesh /\ triangleCount mesh' = triangleCount zero_Mesh /\
    if supported_format position_attribute then
      log' = [] /\
      attribute_array_length (attr_type position_attribute) mesh'
        = Some (Z.to_nat (acc_count (attr_data position_attribute))
                * attribute_components (attr_type position_attribute))%nat /\
      (attr_type position_attribute = cgltf_attribute_type_position ->
         vertexCount mesh' = to_int (acc_count (attr_data position_attribute))) /\
      (forall cs, attr_type position_attribute = cgltf_attribute_type_color ->
         colors mesh' = Some cs -> Forall valid_channel cs)
    else
      mesh' = zero_Mesh /\
      if is_vertex_attribute (attr_type position_attribute)
      then exists msg, log' = [] ++ [(LOG_WARNING, msg)]
      else log' = [].
Proof.
  eexists _, _. split; [vm_compute; reflexivity|].
  eapply (load_attribute_result position_attribute zero_Mesh [] _ _).
  vm_compute. reflexivity.
Defined.

Lemma load_indices_result_witness :
  exists mesh' log',
    load_indices (indexed_primitive cgltf_component_type_r_32u 4) zero_Mesh []
      = Some (mesh', log') /\
    vertex_data mesh' = vertex_data zero_Mesh /\
    match prim_indices (indexed_primitive cgltf_component_type_r_32u 4) with
    | None =>
        triangleCount mesh' = cdiv (vertexCount zero_Mesh) 3 /\
        indices mesh' = indices zero_Mesh /\ log' = []
    | Some attribute =>
        triangleCount mesh' = cdiv (to_int (acc_count attribute)) 3 /\
        if supported_index_format attribute then
          exists v, indices mesh' = Some v /\ length v = Z.to_nat (acc_count attribute) /\
                    Forall (fun i => 0 <= i < 65536) v
        else
          indices mesh' = indices zero_Mesh /\
          log' = [] ++ [(LOG_WARNING,
                         "MODEL: [%s] Indices data format not supported, use u16"%string)]
    end.
Proof.
  eexists _, _. split; [vm_compute; reflexivity|].
  eapply (load_indices_result (indexed_primitive cgltf_component_type_r_32u 4) zero_Mesh
            [] _ _).
  vm_compute. reflexivity.
Defined.

Lemma image_from_uri_witness :
  LoadImageFromCgltfImage uri_image "textures" []
  = Some (match cgltf_load_buffer_base64 (3 * (Z.of_nat (String.length "AAAA") / 4)) "AAAA" with
          | Some data => LoadImageFromMemory ".png" data (3 * (Z.of_nat (String.length "AAAA") / 4))
          | None => zero_Image
          end, []).
Proof.
  apply (proj1 (image_from_uri uri_image "textures" [] "data:image/jpeg;base64,AAAA"
                  eq_refl) "image/jpeg;base64"%string "AAAA"%string).
  - reflexivity.
  - reflexivity.
  - vm_compute. discriminate.
Defined.

Lemma image_from_buffer_view_witness :
  LoadImageFromCgltfImage embedded_image "textures" []
  = Some (LoadImageFromMemory ".jpg" [Byte.x70; Byte.x11; Byte.x01; Byte.x00] 4, []).
Proof.
  apply (image_from_buffer_view embedded_image "textures" []
           (mk_cgltf_buffer_view (mk_cgltf_buffer (Some index_bytes)) 4 4 0)
           index_bytes "image/jpeg").
  - reflexivity.
  - reflexivity.
  - reflexivity.
  - reflexivity.
  - left. reflexivity.
  - vm_compute. discriminate.
  - vm_compute. discriminate.
  - vm_compute. discriminate.
Defined.

Lemma emissive_factor_needs_texture_witness :
  exists mat log',
    load_material glowing_material "model.gltf" [] = Some (mat, log') /\
    (is_Some (tv_texture (emissive_texture glowing_material)) ->
       exists er eg eb,
         trunc (fmul (emissive_factor glowing_material).1.1 (f32_of_Z 255)) = Some er /\
         trunc (fmul (emissive_factor glowing_material).1.2 (f32_of_Z 255)) = Some eg /\
         trunc (fmul (emissive_factor glowing_material).2 (f32_of_Z 255)) = Some eb /\
         color <$> at_index (maps mat) MATERIAL_MAP_EMISSION = Some (mkColor er eg eb 255)) /\
    (tv_texture (emissive_texture glowing_material) = None ->
       color <$> at_index (maps mat) MATERIAL_MAP_EMISSION
         = color <$> at_index (maps LoadMaterialDefault) MATERIAL_MAP_EMISSION /\
       forall e,
         load_material (with_emissive_factor e glowing_material) "model.gltf" []
         = Some (mat, log')).
Proof.
  eexists _, _. split; [vm_compute; reflexivity|].
  eapply (emissive_factor_needs_texture glowing_material "model.gltf" [] _ _).
  - reflexivity.
  - vm_compute. reflexivity.
Defined.

Lemma material_textures_witness :
  exists mat log',
    load_material glowing_material "model.gltf" [] = Some (mat, log') /\
    let pbr := pbr_metallic_roughness glowing_material in
    let texPath := GetDirectoryPath "model.gltf" in
    (has_pbr_metallic_roughness glowing_material = false ->
       mat = LoadMaterialDefault /\ log' = []) /\
    (has_pbr_metallic_roughness glowing_material = true ->
       shader mat = shader LoadMaterialDefault /\
       params mat = params LoadMaterialDefault /\
       length (maps mat) = length (maps LoadMaterialDefault) /\
       (forall k view before,
          In (k, view) [(MATERIAL_MAP_ALBEDO, base_color_texture pbr);
                        (MATERIAL_MAP_ROUGHNESS, metallic_roughness_texture pbr);
                        (MATERIAL_MAP_NORMAL, normal_texture glowing_material);
                        (MATERIAL_MAP_OCCLUSION, occlusion_texture glowing_material);
                        (MATERIAL_MAP_EMISSION, emissive_texture glowing_material)] ->
          texture <$> at_index (maps LoadMaterialDefault) k = Some before ->
          exists after,
            texture <$> at_index (maps mat) k = Some after /\
            texture_from view texPath before after) /\
       (forall j,
          ~ In j [MATERIAL_MAP_ALBEDO; MATERIAL_MAP_ROUGHNESS; MATERIAL_MAP_NORMAL;
                  MATERIAL_MAP_OCCLUSION; MATERIAL_MAP_EMISSION] ->
          texture <$> at_index (maps mat) j
            = texture <$> at_index (maps LoadMaterialDefault) j) /\
       (forall j,
          ~ In j [MATERIAL_MAP_ALBEDO; MATERIAL_MAP_METALNESS; MATERIAL_MAP_NORMAL;
                  MATERIAL_MAP_ROUGHNESS; MATERIAL_MAP_OCCLUSION; MATERIAL_MAP_EMISSION] ->
          at_index (maps mat) j = at_index (maps LoadMaterialDefault) j)).
Proof.
  eexists _, _. split; [vm_compute; reflexivity|].
  eapply (material_textures glowing_material "model.gltf" [] _ _).
  vm_compute. reflexivity.
Defined.

Lemma unload_after_load_witness :
  exists model log',
    LoadGLTFModel (Parsed scene_file) "model.gltf" [] = Some (model, log') /\
    UnloadGLTFModel model ([], log')
    = Some (tt,
            ((Release_mesh <$> elements (meshes model))
             ++ ((fun mat => Release_maps (maps mat)) <$> elements (materials model))
             ++ [Release_meshes (meshes model); Release_materials (materials model);
                 Release_meshMaterial (meshMaterial model)]
             ++ ((fun node => Release_children (children node)) <$> elements (nodes model))
             ++ [Release_nodes (nodes model)]
             ++ ((fun sc => Release_scene_nodes (scene_nodes_ids sc))
                   <$> elements (scenes model))
             ++ [Release_scenes (scenes model)],
             log' ++ [(LOG_INFO,
                       "MODEL: Unloaded pModel (and meshes) from RAM and VRAM"%string)])).
Proof.
  eexists _, _. split; [vm_compute; reflexivity|].
  eapply (unload_after_load (Parsed scene_file) "model.gltf" [] _ _).
  - intros data [= <-]. vm_compute. reflexivity.
  - vm_compute. reflexivity.
Defined.

Lemma loaded_model_can_be_drawn_witness :
  exists model log',
    LoadGLTFModel (Parsed scene_file) "model.gltf" [] = Some (model, log') /\
    exists calls,
      DrawGLTFModelEx 2 model zero_Vector3 zero_Vector3 f32_zero
        (mkVector3 f32_one f32_one f32_one) grey (world_of model)
      = Some (tt, after_draws (world_of model) calls).
Proof.
  eexists _, _. split; [vm_compute; reflexivity|].
  eapply (loaded_model_can_be_drawn scene_file "model.gltf" [] _ _ white_map scene_rank 2
            zero_Vector3 zero_Vector3 f32_zero (mkVector3 f32_one f32_one f32_one) grey).
  - vm_compute. reflexivity.
  - vm_compute. reflexivity.
  - reflexivity.
  - unfold valid_color, valid_channel. simpl. lia.
  - intros [|[|i]] src c; simpl.
    + intros [= <-] [<-|[]]. vm_compute. lia.
    + intros [= <-] [].
    + discriminate.
  - intros i. unfold scene_rank. destruct (i =? 0); lia.
  - unfold valid_color, valid_channel. simpl. lia.
  - vm_compute. reflexivity.
Defined.

End Examples.
